(** * scp-scraper: the parser (scp_parser.py) and the scraper (temp_scraper.py)

    A shallow embedding of the record-extraction pipeline and of the series
    cache, with the properties of the design document stated over it. *)

From Stdlib Require Import ZArith List Bool Lia String Ascii DecimalN.
From stdpp Require Import base decidable list gmap.
Import ListNotations.

Local Open Scope Z_scope.
Set Warnings "-register-all,-clear-no-such-hyp".

(** ** Python text

    A Python [str] is a sequence of Unicode code points, so a string is a
    list of integers; [len] is the number of code points.  String literals of
    the source are written [u "..."] and decoded from the UTF-8 bytes of the
    literal. *)

Module Py.

Abbreviation str := (list Z).

Definition byte_of (a : ascii) : Z := Z.of_N (N_of_ascii a).

Fixpoint utf8_decode (bs : list Z) : str :=
  match bs with
  | [] => []
  | b0 :: t0 =>
      if b0 <? 0x80 then b0 :: utf8_decode t0
      else if b0 <? 0xE0 then
        match t0 with
        | b1 :: t1 => ((b0 - 0xC0) * 64 + (b1 - 0x80)) :: utf8_decode t1
        | _ => []
        end
      else if b0 <? 0xF0 then
        match t0 with
        | b1 :: b2 :: t2 =>
            ((b0 - 0xE0) * 4096 + (b1 - 0x80) * 64 + (b2 - 0x80)) :: utf8_decode t2
        | _ => []
        end
      else
        match t0 with
        | b1 :: b2 :: b3 :: t3 =>
            ((b0 - 0xF0) * 262144 + (b1 - 0x80) * 4096 + (b2 - 0x80) * 64 + (b3 - 0x80))
              :: utf8_decode t3
        | _ => []
        end
  end.

Definition u (s : string) : str :=
  utf8_decode (List.map byte_of (list_ascii_of_string s)).

(** Truthiness of a string: [if s:] holds for the non-empty ones. *)
Definition truthy (s : str) : bool :=
  match s with [] => false | _ :: _ => true end.

Definition str_eqb (a b : str) : bool := bool_decide (a = b).

(** [x in l] for a list of strings. *)
Definition in_list (x : str) (l : list str) : bool := existsb (str_eqb x) l.

(** [str.isspace] on one code point, which is also the class [\s] of [re] on
    text patterns (CPython decides both with Py_UNICODE_ISSPACE). *)
Definition isspace (c : Z) : bool :=
  ((9 <=? c) && (c <=? 13)) || ((28 <=? c) && (c <=? 32))
  || (c =? 0x85) || (c =? 0xA0) || (c =? 0x1680)
  || ((0x2000 <=? c) && (c <=? 0x200A))
  || (c =? 0x2028) || (c =? 0x2029) || (c =? 0x202F) || (c =? 0x205F)
  || (c =? 0x3000).

(** [s.lstrip(chars)], [s.rstrip(chars)], [s.strip()], with the stripped
    class given as a predicate. *)
Fixpoint lstrip_by (p : Z -> bool) (s : str) : str :=
  match s with
  | [] => []
  | c :: t => if p c then lstrip_by p t else s
  end.

Fixpoint rstrip_by (p : Z -> bool) (s : str) : str :=
  match s with
  | [] => []
  | c :: t =>
      match rstrip_by p t with
      | [] => if p c then [] else [c]
      | t' => c :: t'
      end
  end.

Definition lstrip : str -> str := lstrip_by isspace.
Definition rstrip : str -> str := rstrip_by isspace.
Definition strip (s : str) : str := rstrip (lstrip s).

(** [s.split(sep)] for a one-character separator. *)
Fixpoint split_on (sep : Z) (s : str) : list str :=
  match s with
  | [] => [[]]
  | c :: t =>
      if c =? sep then [] :: split_on sep t
      else match split_on sep t with
           | seg :: rest => (c :: seg) :: rest
           | [] => [[c]]
           end
  end.

(** [sep.join(parts)]. *)
Fixpoint join (sep : str) (parts : list str) : str :=
  match parts with
  | [] => []
  | [p] => p
  | p :: rest => p ++ sep ++ join sep rest
  end.

Fixpoint startswith (s pre : str) : bool :=
  match pre, s with
  | [], _ => true
  | p :: pre', c :: s' => (c =? p) && startswith s' pre'
  | _ :: _, [] => false
  end.

Definition endswith (s suf : str) : bool := startswith (rev s) (rev suf).

(** [sub in s]. *)
Fixpoint contains (s sub : str) : bool :=
  startswith s sub ||
  match s with
  | [] => false
  | _ :: t => contains t sub
  end.

(** Case mapping of the Basic Latin letters. *)
Definition ascii_lower (c : Z) : Z :=
  if (65 <=? c) && (c <=? 90) then c + 32 else c.

(** [str(n)] for an integer. *)
Fixpoint str_of_uint (d : Decimal.uint) : str :=
  match d with
  | Decimal.Nil => []
  | Decimal.D0 d' => 48 :: str_of_uint d'
  | Decimal.D1 d' => 49 :: str_of_uint d'
  | Decimal.D2 d' => 50 :: str_of_uint d'
  | Decimal.D3 d' => 51 :: str_of_uint d'
  | Decimal.D4 d' => 52 :: str_of_uint d'
  | Decimal.D5 d' => 53 :: str_of_uint d'
  | Decimal.D6 d' => 54 :: str_of_uint d'
  | Decimal.D7 d' => 55 :: str_of_uint d'
  | Decimal.D8 d' => 56 :: str_of_uint d'
  | Decimal.D9 d' => 57 :: str_of_uint d'
  end.

Definition str_of_Z (n : Z) : str :=
  if n <? 0 then 45 :: str_of_uint (N.to_uint (Z.to_N (- n))) else str_of_uint (N.to_uint (Z.to_N n)).

(** [digits.zfill(width)] on a string without sign. *)
Definition zfill_digits (width : nat) (ds : str) : str :=
  repeat 48 (width - length ds)%nat ++ ds.

(** [s.zfill(3)] and the format [{n:03d}]: the sign, when there is one, comes
    first and counts in the width. *)
Definition zfill3 (s : str) : str :=
  match s with
  | 45 :: ds => 45 :: zfill_digits 2 ds
  | 43 :: ds => 43 :: zfill_digits 2 ds
  | _ => zfill_digits 3 s
  end.

Definition format_03d (n : Z) : str := zfill3 (str_of_Z n).

End Py.

Import Py.

(** ** Records

    A record is a Python [dict] from field name to value.  A [dict] keeps its
    keys in insertion order and assignment to a present key keeps the key's
    place, which [categorize_fields] relies on when two keys normalise to the
    same name; so a dict is an association list with distinct keys. *)

Module Dict.

Definition t (V : Type) := list (str * V).

Definition empty {V} : t V := [].

(** [d.get(k)]: [None] when the key is absent. *)
Fixpoint get {V} (d : t V) (k : str) : option V :=
  match d with
  | [] => None
  | (k', v) :: rest => if str_eqb k' k then Some v else get rest k
  end.

(** [k in d]. *)
Definition has {V} (d : t V) (k : str) : bool :=
  match get d k with Some _ => true | None => false end.

(** [d[k] = v]. *)
Fixpoint put {V} (d : t V) (k : str) (v : V) : t V :=
  match d with
  | [] => [(k, v)]
  | (k', v') :: rest =>
      if str_eqb k' k then (k', v) :: rest else (k', v') :: put rest k v
  end.

(** [del d[k]]. *)
Fixpoint del {V} (d : t V) (k : str) : t V :=
  match d with
  | [] => []
  | (k', v') :: rest => if str_eqb k' k then rest else (k', v') :: del rest k
  end.

(** [d.update(other)]. *)
Definition update {V} (d other : t V) : t V :=
  fold_left (fun acc kv => put acc (fst kv) (snd kv)) other d.

Definition keys {V} (d : t V) : list str := List.map fst d.

End Dict.

(** The values a record holds: text, the grouping number, the media and tag
    sequences, and the nested container of the legacy [more_info] layout. *)
Inductive value : Type :=
| VStr (s : str)
| VInt (n : Z)
| VList (l : list str)
| VDict (d : list (str * value)).

Abbreviation record := (Dict.t value).

(** [bool(v)] *)
Definition value_truthy (v : value) : bool :=
  match v with
  | VStr s => truthy s
  | VInt n => negb (n =? 0)
  | VList l => match l with [] => false | _ => true end
  | VDict d => match d with [] => false | _ => true end
  end.

(** ** scp_parser.py *)

(** The character tables of the Unicode database that the parser consults
    through the Python runtime, which are no part of the repository:
    [str.lower], and the classes [\w] and [\d] of [re] on text patterns. *)
Record TextDB : Type := {
  lower : str -> str;
  re_word : Z -> bool;
  re_digit : Z -> bool
}.

(** What the development assumes of the tables.  [basic] code points are
    Basic Latin and the CJK Unified Ideographs U+4E00..U+9FFF, the two
    scripts of the synonym table: lower-casing a text made of them maps the
    letters A-Z to a-z and nothing else, and lower-casing any text keeps its
    ideographs; on Basic Latin [\w] is [[a-zA-Z0-9_]] and [\d] is [[0-9]]. *)
Definition basic (c : Z) : Prop :=
  0 <= c < 128 \/ 0x4E00 <= c <= 0x9FFF.

Definition basicb (c : Z) : bool :=
  ((0 <=? c) && (c <? 128)) || ((0x4E00 <=? c) && (c <=? 0x9FFF)).

Definition ascii_word (c : Z) : bool :=
  ((48 <=? c) && (c <=? 57)) || ((65 <=? c) && (c <=? 90))
  || ((97 <=? c) && (c <=? 122)) || (c =? 95).

Definition ascii_digit (c : Z) : bool := (48 <=? c) && (c <=? 57).

Record TextDB_ok (U : TextDB) : Prop := {
  lower_basic : forall s, Forall basic s -> lower U s = List.map ascii_lower s;
  lower_ideograph : forall s c, 0x4E00 <= c <= 0x9FFF -> c ∈ s -> c ∈ lower U s;
  re_word_ascii : forall c, 0 <= c < 128 -> re_word U c = ascii_word c;
  re_digit_ascii : forall c, 0 <= c < 128 -> re_digit U c = ascii_digit c
}.

(** The tables restricted to the two scripts: exact on [basic] text. *)
Definition basic_db : TextDB := {|
  lower := List.map ascii_lower;
  re_word := fun c => ascii_word c || ((0x4E00 <=? c) && (c <=? 0x9FFF));
  re_digit := ascii_digit
|}.

Module SCPParser.

Definition FIELD_MAPPING : list (str * str) := Eval vm_compute in
  [ (u "项目编号", u "id"); (u "項目編號", u "id"); (u "编号", u "id");
    (u "編號", u "id"); (u "scp编号", u "id"); (u "scp編號", u "id");
    (u "item #", u "id"); (u "item number", u "id");
    (u "项目等级", u "class"); (u "項目等級", u "class"); (u "等级", u "class");
    (u "等級", u "class"); (u "对象等级", u "class"); (u "對象等級", u "class");
    (u "object class", u "class"); (u "classification", u "class");
    (u "特殊收容措施", u "containment"); (u "特殊收容程序", u "containment");
    (u "收容措施", u "containment"); (u "收容程序", u "containment");
    (u "收容", u "containment");
    (u "special containment procedures", u "containment");
    (u "containment", u "containment");
    (u "containment procedures", u "containment");
    (u "描述", u "description"); (u "項目描述", u "description");
    (u "项目描述", u "description"); (u "说明", u "description");
    (u "詳述", u "description"); (u "description", u "description");
    (u "附录", u "addendum"); (u "附錄", u "addendum");
    (u "实验记录", u "experiment_log"); (u "實驗記錄", u "experiment_log");
    (u "访谈记录", u "interview_log"); (u "訪談記錄", u "interview_log");
    (u "事件记录", u "incident_log"); (u "事件記錄", u "incident_log");
    (u "更新记录", u "update_log"); (u "更新記錄", u "update_log");
    (u "历史", u "history"); (u "歷史", u "history");
    (u "发现", u "discovery"); (u "發現", u "discovery");
    (u "註", u "notes"); (u "注", u "notes"); (u "备注", u "notes");
    (u "記錄開始", u "record_start"); (u "记录开始", u "record_start");
    (u "記錄結束", u "record_end"); (u "记录结束", u "record_end") ].

Definition STANDARD_FIELDS : list str := Eval vm_compute in
  [ u "id"; u "class"; u "description"; u "containment"; u "addendum";
    u "experiment_log"; u "interview_log"; u "incident_log";
    u "update_log"; u "history"; u "discovery"; u "notes";
    u "error"; u "warning"; u "series"; u "name"; u "images"; u "tags" ].

(** [RE_REDACT]: the alternatives, in the order of the pattern. *)
Definition REDACT_MARKERS : list str := Eval vm_compute in
  [ u "[数据删除]"; u "[资料删除]"; u "[已编辑]"; u "[删除]";
    u "[REDACTED]"; u "[DATA EXPUNGED]" ].

Definition REDACTED : str := Eval vm_compute in u "[REDACTED]".

(** Whether the subject character [c] matches the literal [p] of a pattern
    compiled with [re.IGNORECASE].  The literals of the source's patterns are
    brackets, a space, a hyphen, ideographs (all caseless) and the letters
    a c d e g n p r s t u x, of which only s has a case variant outside
    Basic Latin (U+017F, the long s). *)
Definition ci_match (p c : Z) : bool :=
  (ascii_lower c =? ascii_lower p)
  || ((ascii_lower p =? 115) && (c =? 0x17F)).

Fixpoint ci_prefix (pat s : str) : bool :=
  match pat, s with
  | [], _ => true
  | p :: pat', c :: s' => ci_match p c && ci_prefix pat' s'
  | _ :: _, [] => false
  end.

(** The length of the alternative of [RE_REDACT] that matches at the head of
    [s], when one does. *)
Definition match_marker (s : str) : option nat :=
  option_map (@length Z) (List.find (fun pat => ci_prefix pat s) REDACT_MARKERS).

(** [RE_REDACT.sub('[REDACTED]', s)]: the matches are replaced from left to
    right; [skip] counts the characters of the current match still to drop. *)
Fixpoint redact_from (skip : nat) (s : str) : str :=
  match s with
  | [] => []
  | c :: t =>
      match skip with
      | S k => redact_from k t
      | O =>
          match match_marker s with
          | Some n => REDACTED ++ redact_from (Nat.pred n) t
          | None => c :: redact_from O t
          end
      end
  end.

Definition redact_sub (s : str) : str := redact_from O s.

(** [RE_WS.sub(' ', s)]: every maximal run of white space becomes one space;
    [in_ws] tells that the previous character was white space. *)
Fixpoint ws_from (in_ws : bool) (s : str) : str :=
  match s with
  | [] => []
  | c :: t =>
      if isspace c then (if in_ws then ws_from true t else 32 :: ws_from true t)
      else c :: ws_from false t
  end.

Definition ws_sub (s : str) : str := ws_from false s.

Definition is_colon (c : Z) : bool := (c =? 0xFF1A) || (c =? 58).

(** [RE_COLON_PREFIX.sub('', s)]: the pattern is anchored at the start, so it
    matches at most once. *)
Definition colon_prefix_sub (s : str) : str :=
  match s with
  | c :: t => if is_colon c then lstrip t else s
  | [] => []
  end.

Definition clean_value (value : str) : str :=
  if negb (truthy value) then []
  else
    let value := redact_sub value in
    let value := ws_sub value in
    let value := colon_prefix_sub value in
    strip value.

(** [re.sub(r'[^\w\u4e00-\u9fff]', '_', key)] *)
Definition sub_nonword (U : TextDB) (key : str) : str :=
  List.map (fun c => if re_word U c || ((0x4E00 <=? c) && (c <=? 0x9FFF)) then c else 95) key.

Definition normalize_key (U : TextDB) (key : str) : str :=
  if negb (truthy key) then []
  else
    let key := rstrip_by is_colon (strip key) in
    let key_lower := lower U key in
    match List.find (fun entry => str_eqb (lower U (fst entry)) key_lower) FIELD_MAPPING with
    | Some (_, standard_key) => standard_key
    | None => lower U (sub_nonword U key)
    end.

Definition SENTENCE_END : Z := 0x3002.

(** The loop of [deduplicate_content] over the trimmed, non-empty sentences. *)
Fixpoint unique_from (seen : gset str) (sentences : list str) : list str :=
  match sentences with
  | [] => []
  | sentence :: rest =>
      if bool_decide (sentence ∉ seen) && (5 <? Z.of_nat (length sentence)) then
        sentence :: unique_from ({[ sentence ]} ∪ seen) rest
      else unique_from seen rest
  end.

Definition unique_sentences (content : str) : list str :=
  let sentences :=
    List.map strip (List.filter (fun s => truthy (strip s)) (split_on SENTENCE_END content)) in
  unique_from ∅ sentences.

Definition deduplicate_content (content : str) : str :=
  if negb (truthy content) then content
  else
    let unique := unique_sentences content in
    join [SENTENCE_END] unique ++ (match unique with [] => [] | _ => [SENTENCE_END] end).

(** [re.search(r'scp-(\d+)', url, re.IGNORECASE)]: the digits of the leftmost
    match, the group being greedy. *)
Fixpoint take_while (p : Z -> bool) (s : str) : str :=
  match s with
  | [] => []
  | c :: t => if p c then c :: take_while p t else []
  end.

Definition match_scp_at (U : TextDB) (s : str) : option str :=
  match s with
  | c1 :: c2 :: c3 :: c4 :: t =>
      if ci_match 115 c1 && ci_match 99 c2 && ci_match 112 c3 && ci_match 45 c4 then
        match take_while (re_digit U) t with
        | [] => None
        | digits => Some digits
        end
      else None
  | _ => None
  end.

Fixpoint search_scp (U : TextDB) (s : str) : option str :=
  match match_scp_at U s with
  | Some digits => Some digits
  | None =>
      match s with
      | [] => None
      | _ :: t => search_scp U t
      end
  end.

Definition SCP_PREFIX : str := Eval vm_compute in u "SCP-".

Definition extract_id_from_url (U : TextDB) (url : str) : str :=
  match search_scp U url with
  | Some digits => SCP_PREFIX ++ zfill3 digits
  | None => []
  end.

Definition K_id : str := Eval vm_compute in u "id".
Definition K_description : str := Eval vm_compute in u "description".
Definition K_containment : str := Eval vm_compute in u "containment".
Definition K_more_info : str := Eval vm_compute in u "more_info".

Definition dedup_field (result : record) (field : str) : record :=
  match Dict.get result field with
  | Some (VStr text) => Dict.put result field (VStr (deduplicate_content text))
  | _ => result
  end.

Definition ensure_required_fields (U : TextDB) (data : record) (scp_id : Z) (url : str)
  : record :=
  let result := data in
  let id_missing :=
    match Dict.get result K_id with
    | None => true
    | Some v => negb (value_truthy v)
    end in
  let result :=
    if id_missing then
      if truthy url then
        let extracted_id := extract_id_from_url U url in
        if truthy extracted_id then Dict.put result K_id (VStr extracted_id)
        else Dict.put result K_id (VStr (SCP_PREFIX ++ format_03d scp_id))
      else Dict.put result K_id (VStr (SCP_PREFIX ++ format_03d scp_id))
    else result in
  fold_left dedup_field [K_description; K_containment] result.

(** The body of the second loop of [categorize_fields]. *)
Definition categorize_step (U : TextDB) (result : record) (kv : str * value) : record :=
  if str_eqb (fst kv) K_more_info then result
  else Dict.put result (normalize_key U (fst kv)) (snd kv).

Definition categorize_fields (U : TextDB) (data : record) : record :=
  let result : record := Dict.empty in
  let result :=
    match Dict.get data K_more_info with
    | Some (VDict existing_more_info) =>
        fold_left (fun acc kv => Dict.put acc (normalize_key U (fst kv)) (snd kv))
          existing_more_info result
    | _ => result
    end in
  fold_left (categorize_step U) data result.

(** A content block as the parser reads it: [element.get_text()], and the
    text of the first [strong] descendant when [element.find('strong')]
    finds one. *)
Record block : Type := {
  get_text : str;
  find_strong : option str
}.

Definition STOP_OPEN : Z := 0xAB.
Definition STOP_SINGLE : Z := 0x2039.

(** The stop test of the loop: one of the first two stop indicators occurs in
    the text, and the text starts with one of the two. *)
Definition stops (element_text : str) : bool :=
  (contains element_text [STOP_OPEN] || contains element_text [STOP_SINGLE])
  && (startswith element_text [STOP_OPEN] || startswith element_text [STOP_SINGLE]).

(** [if current_key:] on a cursor that is [None] or a string. *)
Definition key_open (current_key : option str) : bool :=
  match current_key with
  | Some k => truthy k
  | None => false
  end.

(** Saving the field under the cursor. *)
Definition flush (U : TextDB) (result : record) (current_key : option str)
  (current_value : str) : record :=
  match current_key with
  | Some k =>
      if truthy k then
        let normalized_key := normalize_key U k in
        let cleaned_value := clean_value current_value in
        if truthy normalized_key && truthy cleaned_value
        then Dict.put result normalized_key (VStr cleaned_value)
        else result
      else result
  | None => result
  end.

Fixpoint parse_loop (U : TextDB) (elements : list block) (result : record)
  (current_key : option str) (current_value : str) : record * option str * str :=
  match elements with
  | [] => (result, current_key, current_value)
  | element :: rest =>
      let element_text := strip (get_text element) in
      if negb (truthy element_text) then parse_loop U rest result current_key current_value
      else if stops element_text then (result, current_key, current_value)
      else
        match find_strong element with
        | Some strong_text =>
            let result := flush U result current_key current_value in
            let current_key := strip strong_text in
            let current_value := strip (skipn (length current_key) element_text) in
            parse_loop U rest result (Some current_key) current_value
        | None =>
            if key_open current_key then
              let current_value :=
                if truthy current_value && negb (endswith current_value [32])
                then current_value ++ [32] else current_value in
              parse_loop U rest result current_key (current_value ++ element_text)
            else parse_loop U rest result current_key current_value
        end
  end.

(** The fields read from the blocks: the loop and the flush of the last
    field. *)
Definition parsed_fields (U : TextDB) (elements : list block) : record :=
  let '(result, current_key, current_value) := parse_loop U elements Dict.empty None [] in
  flush U result current_key current_value.

Definition parse_page_content (U : TextDB) (elements : list block) (scp_id : Z) (url : str)
  : record :=
  let result := parsed_fields U elements in
  let result := ensure_required_fields U result scp_id url in
  categorize_fields U result.

End SCPParser.

(** ** SCPValidator *)

Module SCPValidator.

Definition REQUIRED_FIELDS : list str := Eval vm_compute in [ u "id" ].
Definition RECOMMENDED_FIELDS : list str := Eval vm_compute in
  [ u "class"; u "containment"; u "description" ].
Definition K_validation_issues : str := Eval vm_compute in u "validation_issues".
Definition MSG_REQUIRED : str := Eval vm_compute in u "缺少必需字段: ".
Definition MSG_RECOMMENDED : str := Eval vm_compute in u "缺少推荐字段: ".
Definition COMMA_SPACE : str := Eval vm_compute in u ", ".

(** [field not in data or not data[field]].  The subscript raises [KeyError]
    on an absent key, which is [None] here. *)
Definition missing (data : record) (field : str) : option bool :=
  if negb (Dict.has data field) then Some true
  else
    match Dict.get data field with
    | Some v => Some (negb (value_truthy v))
    | None => None
    end.

(** The fields of [fields] that are missing, in order. *)
Fixpoint missing_of (data : record) (fields : list str) : option (list str) :=
  match fields with
  | [] => Some []
  | field :: rest =>
      match missing data field with
      | None => None
      | Some b =>
          match missing_of data rest with
          | None => None
          | Some l => Some (if b then field :: l else l)
          end
      end
  end.

Definition issues_of (missing_required missing_recommended : list str) : list str :=
  List.map (fun field => MSG_REQUIRED ++ field) missing_required
  ++ (match missing_recommended with
      | [] => []
      | _ => [MSG_RECOMMENDED ++ join COMMA_SPACE missing_recommended]
      end).

(** [validate]: [None] stands for an exception escaping the function. *)
Definition validate (data : record) : option record :=
  match missing_of data REQUIRED_FIELDS with
  | None => None
  | Some missing_required =>
      match missing_of data RECOMMENDED_FIELDS with
      | None => None
      | Some missing_recommended =>
          let issues := issues_of missing_required missing_recommended in
          match issues with
          | [] => Some data
          | _ => Some (Dict.put data K_validation_issues (VList issues))
          end
      end
  end.

End SCPValidator.

(** ** temp_scraper.py *)

Module Scraper.

Abbreviation bytes := (list Z).

(** *** The document tree and the network

    What the scraper asks of its collaborators: the attributes of an [img]
    element, the links (with an [href]) of a subtree, the content region
    [div#page-content] with its blocks, images and links, and the link texts
    of [div.page-tags]. *)
Record img : Type := {
  img_src : option str;
  img_data_src : option str;
  img_data_image : option str;
  img_srcset : option str;
  img_alt : option str;
  img_title : option str
}.

Record link : Type := { href : str; link_text : str }.

Record content : Type := {
  content_elements : list SCPParser.block;
  content_imgs : list img;
  content_links : list link
}.

Record soup : Type := {
  page_content : option content;
  page_tags : option (list str)
}.

(** A listing page once parsed: its links and its text. *)
Record listing : Type := { listing_links : list link; listing_text : str }.

Record reply : Type := { reply_url : str; reply_content : bytes }.

(** The collaborators.  [session_get log url] is the outcome of
    [session.get(url, timeout=10)] followed by [raise_for_status()], after the
    requests of [log] (latest first): the message of the exception or the
    reply.  [parse_document] and [parse_listing] are [None] when the parser
    raises (it rejects some markup): [scrape_scp] lets the exception through,
    [get_scp_name_from_series] catches it.  [urljoin] is
    [None] when [urllib.parse.urljoin] raises [ValueError], as it does on a
    malformed reference.  [set_order] is the order in which [list(s)]
    enumerates the set built by adding the given strings in turn: CPython
    fixes none. *)
Record Web : Type := {
  session_get : list str -> str -> str + reply;
  parse_document : bytes -> option soup;
  parse_listing : bytes -> option listing;
  urljoin : str -> str -> option str;
  set_order : list str -> list str
}.

(** An enumeration of a set lists each member once. *)
Definition set_order_ok (order : list str -> list str) : Prop :=
  forall l, NoDup (order l) /\ (forall x, x ∈ order l <-> x ∈ l).

Definition base_url : str := Eval vm_compute in u "http://scp-wiki-cn.wikidot.com/scp-".
Definition base_series_url : str := Eval vm_compute in u "http://scp-wiki-cn.wikidot.com/scp-series".
Definition IMAGE_EXTS : list str := Eval vm_compute in
  [ u ".jpg"; u ".jpeg"; u ".png"; u ".gif"; u ".webp"; u ".svg" ].
Definition S_scp : str := Eval vm_compute in u "scp".
Definition S_scp_dash : str := Eval vm_compute in u "scp-".
Definition S_http : str := Eval vm_compute in u "http://".
Definition S_https : str := Eval vm_compute in u "https://".
Definition S_dash_sep : str := Eval vm_compute in u " - ".
Definition S_tag_path : str := Eval vm_compute in u "/tag/".

Definition harmonize_id (_id : Z) : str := zfill3 (str_of_Z _id).

Definition get_series_number (_id : Z) : Z :=
  let series := (_id / 1000) + 1 in
  Z.max 1 (Z.min series 9).

Definition get_series_url (series_number : Z) : str :=
  if series_number =? 1 then base_series_url
  else base_series_url ++ [45] ++ str_of_Z series_number.

(** *** The series cache

    [functools.lru_cache(maxsize=16)] around [fetch_series_page]: the entries
    from the most to the least recently used.  A hit moves the entry to the
    front; a miss calls the function and stores the result, dropping the
    least recently used entry when the cache is full. *)
Definition MAXSIZE : nat := 16.

Abbreviation lru := (list (Z * bytes)).

Fixpoint lru_get (c : lru) (k : Z) : option bytes :=
  match c with
  | [] => None
  | (k', v) :: rest => if k' =? k then Some v else lru_get rest k
  end.

Fixpoint lru_remove (c : lru) (k : Z) : lru :=
  match c with
  | [] => []
  | (k', v) :: rest => if k' =? k then rest else (k', v) :: lru_remove rest k
  end.

Definition lru_touch (c : lru) (k : Z) (v : bytes) : lru := (k, v) :: lru_remove c k.

Definition lru_store (c : lru) (k : Z) (v : bytes) : lru :=
  match lru_get c k with
  | Some _ => c
  | None => if (MAXSIZE <=? length c)%nat then (k, v) :: removelast c else (k, v) :: c
  end.

(** The state shared by the calls of one run: the cache and the requests
    sent so far, latest first. *)
Record world : Type := { cache : lru; requests : list str }.

Definition initial_world : world := {| cache := []; requests := [] |}.

(** The body of [fetch_series_page]: any failure of the request gives the
    empty bytes. *)
Definition fetch_series_body (W : Web) (series_number : Z) (log : list str) : bytes :=
  match session_get W log (get_series_url series_number) with
  | inr r => reply_content r
  | inl _ => []
  end.

Definition fetch_series_page (W : Web) (series_number : Z) (w : world) : bytes * world :=
  match lru_get (cache w) series_number with
  | Some page => (page, {| cache := lru_touch (cache w) series_number page;
                           requests := requests w |})
  | None =>
      let page := fetch_series_body W series_number (requests w) in
      (page, {| cache := lru_store (cache w) series_number page;
                requests := get_series_url series_number :: requests w |})
  end.

(** [s.split(sep, 1)] when [sep] occurs in [s]: the text before and after its
    first occurrence. *)
Fixpoint split_first (sep s : str) : option (str * str) :=
  if startswith s sep then Some ([], skipn (length sep) s)
  else
    match s with
    | [] => None
    | c :: t =>
        match split_first sep t with
        | Some (before, after) => Some (c :: before, after)
        | None => None
        end
    end.

(** [RE_CLEAN_NAME.sub('', s)] on a text without line break: what precedes
    the first middle dot or bullet. *)
Definition clean_name_sub (s : str) : str :=
  SCPParser.take_while (fun c => negb ((c =? 0xB7) || (c =? 0x2022))) s.

(** The first loop of [get_scp_name_from_series], over the links. *)
Fixpoint name_from_links (scp_link_pattern : str) (links : list link) : option str :=
  match links with
  | [] => None
  | l :: rest =>
      if contains (href l) scp_link_pattern then
        let text := strip (link_text l) in
        match split_first S_dash_sep text with
        | Some (_, name_part) => Some (strip name_part)
        | None => name_from_links scp_link_pattern rest
        end
      else name_from_links scp_link_pattern rest
  end.

(** The second loop, over the lines of the page text. *)
Fixpoint name_from_lines (scp_token : str) (lines : list str) : option str :=
  match lines with
  | [] => None
  | line :: rest =>
      if contains line scp_token then
        match split_first S_dash_sep line with
        | Some (_, after) =>
            let name_part := strip (clean_name_sub (strip after)) in
            if truthy name_part then Some name_part
            else name_from_lines scp_token rest
        | None => name_from_lines scp_token rest
        end
      else name_from_lines scp_token rest
  end.

Definition name_in_listing (page : listing) (_id : Z) : str :=
  let scp_id_formatted := harmonize_id _id in
  match name_from_links (S_scp_dash ++ scp_id_formatted) (listing_links page) with
  | Some name_part => name_part
  | None =>
      match name_from_lines (SCPParser.SCP_PREFIX ++ scp_id_formatted)
              (split_on 10 (listing_text page)) with
      | Some name_part => name_part
      | None => []
      end
  end.

(** [get_scp_name_from_series]: every exception raised inside is caught and
    gives the empty name. *)
Definition get_scp_name_from_series (W : Web) (_id : Z) (w : world) : str * world :=
  let series_number := get_series_number _id in
  let '(page, w) := fetch_series_page W series_number w in
  if negb (truthy page) then ([], w)
  else
    match parse_listing W page with
    | Some parsed => (name_in_listing parsed _id, w)
    | None => ([], w)
    end.

(** *** Images *)

Definition attr (a : option str) : str :=
  match a with Some v => v | None => [] end.

(** The strings [_extract_urls_from_img] adds to its set, in the order of the
    additions. *)
Definition img_candidates (img_tag : img) : list str :=
  let src := strip (attr (img_src img_tag)) in
  let lazy :=
    List.filter truthy
      [strip (attr (img_data_src img_tag)); strip (attr (img_data_image img_tag))] in
  let srcset := strip (attr (img_srcset img_tag)) in
  let parts :=
    if truthy srcset then
      List.filter truthy
        (List.map (fun part => strip (hd [] (split_on 32 (strip part))))
           (split_on 44 srcset))
    else [] in
  (if truthy src then [src] else []) ++ lazy ++ parts.

Definition _extract_urls_from_img (W : Web) (img_tag : img) : list str :=
  set_order W (img_candidates img_tag).

(** The test of [_normalize_and_filter_urls] on an absolute URL. *)
Definition is_image_url (U : TextDB) (full : str) : bool :=
  (startswith full S_http || startswith full S_https)
  && existsb (fun ext => endswith (lower U full) ext) IMAGE_EXTS.

(** [_normalize_and_filter_urls]: [None] stands for the [ValueError] of
    [urljoin] escaping the function. *)
Fixpoint _normalize_and_filter_urls (W : Web) (U : TextDB) (urls : list str)
  (page_url : str) : option (list str) :=
  match urls with
  | [] => Some []
  | url :: rest =>
      match urljoin W page_url url with
      | None => None
      | Some full =>
          match _normalize_and_filter_urls W U rest page_url with
          | None => None
          | Some abs_urls => Some (if is_image_url U full then full :: abs_urls else abs_urls)
          end
      end
  end.

Definition _is_relevant_image (U : TextDB) (url alt title scp_id_formatted : str) : bool :=
  let url_lower := if truthy url then lower U url else [] in
  if contains url_lower (S_scp_dash ++ scp_id_formatted) then true
  else if contains url_lower S_scp then true
  else if truthy alt || truthy title then
    let alt_lower := if truthy alt then lower U alt else [] in
    let title_lower := if truthy title then lower U title else [] in
    contains alt_lower S_scp || contains title_lower S_scp
  else false.

(** The inner loop of [extract_images_from_soup]: [ordered] is kept in
    reverse here, the latest addition first. *)
Fixpoint add_unseen (keep : str -> bool) (urls : list str) (ordered : list str)
  (seen : gset str) : list str * gset str :=
  match urls with
  | [] => (ordered, seen)
  | url :: rest =>
      if keep url && bool_decide (url ∉ seen)
      then add_unseen keep rest (url :: ordered) ({[ url ]} ∪ seen)
      else add_unseen keep rest ordered seen
  end.

Fixpoint images_loop (W : Web) (U : TextDB) (scp_id_formatted page_url : str)
  (imgs : list img) (ordered : list str) (seen : gset str) : option (list str * gset str) :=
  match imgs with
  | [] => Some (ordered, seen)
  | img_tag :: rest =>
      let candidates := _extract_urls_from_img W img_tag in
      match _normalize_and_filter_urls W U candidates page_url with
      | None => None
      | Some normalized =>
          let alt := attr (img_alt img_tag) in
          let title := attr (img_title img_tag) in
          let '(ordered, seen) :=
            add_unseen (fun url => _is_relevant_image U url alt title scp_id_formatted)
              normalized ordered seen in
          images_loop W U scp_id_formatted page_url rest ordered seen
      end
  end.

(** [extract_images_from_soup]: [None] stands for the [ValueError] of
    [urljoin] escaping the function, which catches nothing. *)
Definition extract_images_from_soup (W : Web) (U : TextDB) (page : option content)
  (scp_id : Z) (page_url : str) : option (list str) :=
  match page with
  | None => Some []
  | Some page =>
      let scp_id_formatted := harmonize_id scp_id in
      match images_loop W U scp_id_formatted page_url (content_imgs page) [] ∅ with
      | None => None
      | Some (ordered, _) => Some (rev ordered)
      end
  end.

(** *** Tags *)

Definition filtered_tags : list str := Eval vm_compute in
  [ u "scp"; u "safe"; u "euclid"; u "keter"; u "thaumiel"; u "apollyon";
    u "archon"; u "neutralized"; u "explained"; u "decommissioned" ].

(** One pass over link texts; [tags] grows at its end. *)
Definition add_tag (U : TextDB) (tags : list str) (text : str) : list str :=
  let tag_text := strip text in
  if truthy tag_text && negb (in_list (lower U tag_text) filtered_tags)
     && negb (in_list tag_text tags)
  then tags ++ [tag_text] else tags.

Definition extract_tags_from_soup (U : TextDB) (doc : soup) : list str :=
  let tags :=
    match page_tags doc with
    | Some texts => fold_left (add_tag U) texts []
    | None => []
    end in
  match tags, page_content doc with
  | [], Some page =>
      fold_left
        (fun tags l => if contains (href l) S_tag_path then add_tag U tags (link_text l) else tags)
        (content_links page) tags
  | _, _ => tags
  end.

(** *** scrape_scp *)

Definition K_error : str := Eval vm_compute in u "error".
Definition K_warning : str := Eval vm_compute in u "warning".
Definition K_series : str := Eval vm_compute in u "series".
Definition K_name : str := Eval vm_compute in u "name".
Definition K_images : str := Eval vm_compute in u "images".
Definition K_tags : str := Eval vm_compute in u "tags".
Definition MSG_REQUEST_FAILED : str := Eval vm_compute in u "请求失败: ".
Definition MSG_NO_CONTENT : str := Eval vm_compute in u "未找到页面内容".
Definition MSG_NO_FIELDS : str := Eval vm_compute in u "未能提取到标准SCP字段".

Definition affix_additional (results : record) : record :=
  match Dict.get results SCPParser.K_more_info with
  | Some (VDict existing_more_info) =>
      let merged :=
        fold_left
          (fun acc kv => if Dict.has acc (fst kv) then acc else Dict.put acc (fst kv) (snd kv))
          existing_more_info results in
      Dict.del merged SCPParser.K_more_info
  | _ => results
  end.

(** [not result_dict or all(key == 'error' for key in result_dict.keys())] *)
Definition no_valid_field (result_dict : record) : bool :=
  match result_dict with
  | [] => true
  | _ => forallb (fun key => str_eqb key K_error) (Dict.keys result_dict)
  end.

(** The record of [scrape_scp] as it stands when the test for the warning is
    reached: the series, the name found in the listing, the fallback id, the
    parsed fields, the images and the tags.  The test is not reached, and the
    result is [None], when the extraction of the images raises. *)
Definition collected_fields (W : Web) (U : TextDB) (id : Z) (scp_name : str)
  (response : reply) (doc : soup) (page : content) : option record :=
  let result_dict : record := Dict.empty in
  let series_number := get_series_number id in
  let result_dict := Dict.put result_dict K_series (VInt series_number) in
  let result_dict :=
    if truthy scp_name then Dict.put result_dict K_name (VStr scp_name) else result_dict in
  let result_dict :=
    Dict.put result_dict SCPParser.K_id (VStr (SCPParser.SCP_PREFIX ++ format_03d id)) in
  let elements := content_elements page in
  let parsed := SCPParser.parse_page_content U elements id (reply_url response) in
  let result_dict := Dict.update result_dict parsed in
  match extract_images_from_soup W U (Some page) id (reply_url response) with
  | None => None
  | Some images =>
      let result_dict :=
        match images with
        | [] => result_dict
        | _ => Dict.put result_dict K_images (VList images)
        end in
      let tags := extract_tags_from_soup U doc in
      Some match tags with
           | [] => result_dict
           | _ => Dict.put result_dict K_tags (VList tags)
           end
  end.

(** From the outcome of the request to the value returned; [None] stands for
    an exception escaping the function. *)
Definition record_of_response (W : Web) (U : TextDB) (id : Z) (scp_name : str)
  (response : str + reply) : option record :=
  match response with
  | inl e => Some [(K_error, VStr (MSG_REQUEST_FAILED ++ e))]
  | inr response =>
      match parse_document W (reply_content response) with
      | None => None
      | Some doc =>
          match page_content doc with
          | None => Some [(K_error, VStr MSG_NO_CONTENT)]
          | Some page =>
              match collected_fields W U id scp_name response doc page with
              | None => None
              | Some result_dict =>
                  let result_dict :=
                    if no_valid_field result_dict
                    then Dict.put result_dict K_warning (VStr MSG_NO_FIELDS)
                    else result_dict in
                  let result_dict := affix_additional result_dict in
                  SCPValidator.validate result_dict
              end
          end
      end
  end.

Definition scrape_scp (W : Web) (U : TextDB) (id : Z) (w : world) : option record * world :=
  let _id := harmonize_id id in
  let url := base_url ++ _id in
  let '(scp_name, w) := get_scp_name_from_series W id w in
  let response := session_get W (requests w) url in
  (record_of_response W U id scp_name response,
   {| cache := cache w; requests := url :: requests w |}).

(** The test of the main loop on the outcome of a task: the record is stored
    when it is non-empty and has no [error] key. *)
Definition is_success (data : record) : bool :=
  match data with
  | [] => false
  | _ => negb (Dict.has data K_error)
  end.

(** A run: calls of [get_scp_name_from_series] and of [scrape_scp] one after
    the other, on the world the previous call left. *)
Inductive call (W : Web) (U : TextDB) : world -> world -> Prop :=
| call_name (_id : Z) (w : world) :
    call W U w (snd (get_scp_name_from_series W _id w))
| call_scrape (id : Z) (w : world) :
    call W U w (snd (scrape_scp W U id w)).

Inductive run (W : Web) (U : TextDB) : world -> world -> Prop :=
| run_done (w : world) : run W U w w
| run_call (w1 w2 w3 : world) : run W U w1 w2 -> call W U w2 w3 -> run W U w1 w3.

(** The cache of a run: distinct keys, all of them grouping numbers. *)
Definition cache_ok (c : lru) : Prop :=
  NoDup (List.map fst c) /\ Forall (fun k => 1 <= k <= 9) (List.map fst c).

End Scraper.

(** ** The main block

    The main block submits [scrape_scp] for every identifier of a range to a
    pool of threads and handles the futures as they complete, in an order the
    pool decides. *)

Module Main.

Import Scraper.

(** The two collections of the main block: [db], keyed by [str(scp_id)], and
    [failed_ids]. *)
Record tally : Type := { db : Dict.t record; failed_ids : list Z }.

(** The body of the loop over the completed futures.  [future.result()] is a
    record, or [None] here when the task raised. *)
Definition collect_one (acc : tally) (completed : Z * option record) : tally :=
  let scp_id := fst completed in
  match snd completed with
  | Some data =>
      if is_success data
      then {| db := Dict.put (db acc) (str_of_Z scp_id) data; failed_ids := failed_ids acc |}
      else {| db := db acc; failed_ids := failed_ids acc ++ [scp_id] |}
  | None => {| db := db acc; failed_ids := failed_ids acc ++ [scp_id] |}
  end.

(** The loop, over the futures in the order of their completion. *)
Definition collect (completed : list (Z * option record)) : tally :=
  fold_left collect_one completed {| db := Dict.empty; failed_ids := [] |}.

(** Whether a completed future goes to [db]. *)
Definition stored (completed : Z * option record) : bool :=
  match snd completed with
  | Some data => is_success data
  | None => false
  end.

End Main.

(** ** Tasks sharing the series cache

    The main block runs [scrape_scp] on a pool of threads, and every task
    calls [fetch_series_page] through the wrapper of [lru_cache].  The wrapper
    holds its lock while it looks the key up and while it stores a result,
    and not while the wrapped function runs: a task that misses leaves the
    lock, performs the request, and takes the lock again to store the page
    (the store skips a key that another task has stored meanwhile, which is
    the first case of [lru_store]).  A task is modelled from its call of
    [fetch_series_page] to its return; the request and the store that follows
    are taken as one step. *)

Module Tasks.

Import Scraper.

Inductive task : Type :=
| Waiting (_id : Z)
| Calling (_id : Z)
| Returned (page : bytes).

Record pool : Type := {
  shared : world;
  tasks : list task
}.

Definition start (ids : list Z) : pool :=
  {| shared := initial_world; tasks := List.map Waiting ids |}.

Inductive step (W : Web) : pool -> pool -> Prop :=
| step_hit (p : pool) (i : nat) (_id : Z) (page : bytes) :
    tasks p !! i = Some (Waiting _id) ->
    lru_get (cache (shared p)) (get_series_number _id) = Some page ->
    step W p
      {| shared := {| cache := lru_touch (cache (shared p)) (get_series_number _id) page;
                      requests := requests (shared p) |};
         tasks := <[ i := Returned page ]> (tasks p) |}
| step_miss (p : pool) (i : nat) (_id : Z) :
    tasks p !! i = Some (Waiting _id) ->
    lru_get (cache (shared p)) (get_series_number _id) = None ->
    step W p {| shared := shared p; tasks := <[ i := Calling _id ]> (tasks p) |}
| step_call (p : pool) (i : nat) (_id : Z) :
    tasks p !! i = Some (Calling _id) ->
    let series_number := get_series_number _id in
    let page := fetch_series_body W series_number (requests (shared p)) in
    step W p
      {| shared := {| cache := lru_store (cache (shared p)) series_number page;
                      requests := get_series_url series_number :: requests (shared p) |};
         tasks := <[ i := Returned page ]> (tasks p) |}.

Inductive steps (W : Web) : pool -> pool -> Prop :=
| steps_refl (p : pool) : steps W p p
| steps_next (p q r : pool) : steps W p q -> step W q r -> steps W p r.

(** The requests of the listing page of a grouping sent so far. *)
Definition fetches (series_number : Z) (p : pool) : nat :=
  length (List.filter (fun url => str_eqb url (get_series_url series_number))
            (requests (shared p))).

(** The tasks of a pool in a given phase for a grouping. *)
Definition waiting_for (series_number : Z) (t : task) : bool :=
  match t with
  | Waiting _id => get_series_number _id =? series_number
  | _ => false
  end.

Definition calling_for (series_number : Z) (t : task) : bool :=
  match t with
  | Calling _id => get_series_number _id =? series_number
  | _ => false
  end.

Definition count_tasks (f : task -> bool) (p : pool) : nat :=
  length (List.filter f (tasks p)).

Definition weight (f : task -> bool) (t : task) : nat := if f t then 1%nat else 0%nat.

End Tasks.

(** ** Sample collaborators

    A network on which every request fails or every request is answered with
    an empty document, a document parser that finds what it is given, URLs
    that are already absolute, and two enumeration orders for sets. *)

Module Samples.

Import Scraper.

Fixpoint dedup_first (l : list str) : list str :=
  match l with
  | [] => []
  | x :: rest => x :: List.filter (fun y => negb (str_eqb x y)) (dedup_first rest)
  end.

Definition offline (doc : soup) (order : list str -> list str) : Web := {|
  session_get := fun _ _ => inl (u "timeout");
  parse_document := fun _ => Some doc;
  parse_listing := fun _ => None;
  urljoin := fun _ url => Some url;
  set_order := order
|}.

Definition online (doc : soup) (order : list str -> list str) : Web := {|
  session_get := fun _ url => inr {| reply_url := url; reply_content := [60; 62] |};
  parse_document := fun _ => Some doc;
  parse_listing := fun _ => Some {| listing_links := []; listing_text := [] |};
  urljoin := fun _ url => Some url;
  set_order := order
|}.

Definition insertion_order : list str -> list str := dedup_first.
Definition reverse_order (l : list str) : list str := rev (dedup_first l).

(** A network whose first request fails and whose later requests are
    answered with [page], read as the listing [parsed]. *)
Definition flaky (page : bytes) (parsed : listing) : Web := {|
  session_get := fun log url =>
    match log with
    | [] => inl (u "timeout")
    | _ => inr {| reply_url := url; reply_content := page |}
    end;
  parse_document := fun _ => Some {| page_content := None; page_tags := None |};
  parse_listing := fun _ => Some parsed;
  urljoin := fun _ url => Some url;
  set_order := insertion_order
|}.

Definition empty_content : content :=
  {| content_elements := []; content_imgs := []; content_links := [] |}.

Definition empty_page : soup :=
  {| page_content := Some empty_content; page_tags := None |}.

End Samples.

(** ** The design document's wording

    The definitions below follow the sentences of the design document, to be
    compared with the functions above. *)

Module Design.

Import Scraper.

(** "clamped to [lo, hi]" *)
Definition clamp (lo hi x : Z) : Z :=
  if x <? lo then lo else if hi <? x then hi else x.

(** "a constant prefix followed by a zero-padded 3-digit number" *)
Definition is_designation (s : str) : bool :=
  startswith s SCPParser.SCP_PREFIX
  && (3 <=? length (skipn 4 s))%nat
  && forallb ascii_digit (skipn 4 s).

(** "for each resulting segment, trim, discard if shorter than 6 characters,
    discard if an identical segment has already been kept" *)
Fixpoint keep_segments (kept : list str) (segments : list str) : list str :=
  match segments with
  | [] => []
  | segment :: rest =>
      let trimmed := strip segment in
      if (6 <=? length trimmed)%nat && negb (in_list trimmed kept)
      then trimmed :: keep_segments (kept ++ [trimmed]) rest
      else keep_segments kept rest
  end.

(** "rejoin kept segments with the terminator, appending one trailing
    terminator if any segment survived" *)
Definition deduplicated (content : str) : str :=
  let kept := keep_segments [] (split_on SCPParser.SENTENCE_END content) in
  join [SCPParser.SENTENCE_END] kept
  ++ (if bool_decide (kept = []) then [] else [SCPParser.SENTENCE_END]).

(** "a raw label matching a known synonym": after trimming and stripping the
    trailing colons, the label and the synonym are equal up to letter case. *)
Definition matches_synonym (U : TextDB) (label pattern : str) : Prop :=
  lower U pattern = lower U (rstrip_by SCPParser.is_colon (strip label)).

Definition no_synonym (U : TextDB) (label : str) : Prop :=
  forall entry, entry ∈ SCPParser.FIELD_MAPPING -> ~ matches_synonym U label (fst entry).

Definition is_ideograph (c : Z) : Prop := 0x4E00 <= c <= 0x9FFF.

(** "the label spells a canonical name": the label, trimmed and without its
    trailing colons, reads one of the canonical names character by character,
    up to letter case, with any character that is neither of the word class
    nor an ideograph in the place of an underscore. *)
Definition spells_char (U : TextDB) (c x : Z) : Prop :=
  ascii_lower c = x \/ (x = 95 /\ re_word U c = false /\ ~ is_ideograph c).

Definition spells_canonical (U : TextDB) (label : str) : Prop :=
  exists name,
    name ∈ SCPParser.STANDARD_FIELDS
    /\ Forall2 (spells_char U) (rstrip_by SCPParser.is_colon (strip label)) name.

(** "missing or empty" *)
Definition absent_or_empty (data : record) (field : str) : bool :=
  match Dict.get data field with
  | None => true
  | Some v => negb (value_truthy v)
  end.

(** Whether a spelling of the marker [pat] occurs in [s], in any letter case. *)
Fixpoint has_marker (pat s : str) : bool :=
  SCPParser.ci_prefix pat s ||
  match s with
  | [] => false
  | _ :: t => has_marker pat t
  end.

Definition DATA_EXPUNGED : str := Eval vm_compute in u "[DATA EXPUNGED]".

Definition starts_with_colon (s : str) : bool :=
  match s with
  | c :: _ => SCPParser.is_colon c
  | [] => false
  end.

(** "Preserve first-seen order across elements; global de-duplication by
    exact URL string": the URLs of each element in turn, each URL at its
    first occurrence. *)
Fixpoint first_seen (seen : list str) (urls : list str) : list str :=
  match urls with
  | [] => []
  | url :: rest =>
      if in_list url seen then first_seen seen rest
      else url :: first_seen (url :: seen) rest
  end.

(** The relevant URLs one element contributes, in the order in which the
    element's set of candidates is enumerated; [None] when a candidate makes
    [urljoin] raise. *)
Definition element_urls (W : Web) (U : TextDB) (scp_id : Z) (page_url : str)
  (img_tag : img) : option (list str) :=
  List.filter
    (fun url => _is_relevant_image U url (attr (img_alt img_tag)) (attr (img_title img_tag))
                  (harmonize_id scp_id))
  <$> _normalize_and_filter_urls W U (_extract_urls_from_img W img_tag) page_url.

(** The same with the candidates in the order of the attributes. *)
Definition element_urls_in_attribute_order (W : Web) (U : TextDB) (scp_id : Z)
  (page_url : str) (img_tag : img) : option (list str) :=
  List.filter
    (fun url => _is_relevant_image U url (attr (img_alt img_tag)) (attr (img_title img_tag))
                  (harmonize_id scp_id))
  <$> _normalize_and_filter_urls W U (img_candidates img_tag) page_url.

(** "the digits of the URL's first scp-<digits> token".  A token is the
    letters s, c, p in either case and a hyphen, followed by at least one
    digit (matching without regard to case also takes the long s, U+017F,
    for an s).  In [first_scp_token] the URL reads [pre], the letters of a
    token, its [digits] (all the digits that follow) and [rest], and no token
    starts inside [pre]. *)
Definition reads_letter (letter c : Z) : Prop :=
  ascii_lower c = letter \/ (letter = 115 /\ c = 0x17F).

Definition token_letters (t : str) : Prop :=
  exists c1 c2 c3,
    t = [c1; c2; c3; 45]
    /\ reads_letter 115 c1 /\ reads_letter 99 c2 /\ reads_letter 112 c3.

Definition first_scp_token (U : TextDB) (url pre digits rest : str) : Prop :=
  exists t,
    url = pre ++ t ++ digits ++ rest
    /\ token_letters t
    /\ digits <> []
    /\ Forall (fun d => re_digit U d = true) digits
    /\ match rest with d :: _ => re_digit U d = false | [] => True end
    /\ forall a t' d b,
         url = a ++ t' ++ d :: b -> (length a < length pre)%nat ->
         token_letters t' -> re_digit U d = false.

Definition no_scp_token (U : TextDB) (url : str) : Prop :=
  forall a t d b, url = a ++ t ++ d :: b -> token_letters t -> re_digit U d = false.

(** The candidates of an element in words: a non-empty text that is the
    trimmed [src], [data-src] or [data-image] attribute, or the trimmed first
    token of an entry of the comma-separated [srcset] attribute. *)
Definition candidate_of (img_tag : img) (candidate : str) : Prop :=
  candidate <> []
  /\ (candidate = strip (attr (img_src img_tag))
      \/ candidate = strip (attr (img_data_src img_tag))
      \/ candidate = strip (attr (img_data_image img_tag))
      \/ exists part,
           part ∈ split_on 44 (strip (attr (img_srcset img_tag)))
           /\ candidate = strip (hd [] (split_on 32 (strip part)))).

(** The texts that qualify as tags: non-empty, and not one of the filtered
    tags once in lower case. *)
Definition admissible_tag (U : TextDB) (t : str) : Prop :=
  t <> [] /\ lower U t ∉ filtered_tags.

End Design.

(** ** Invariants

    What the proofs below maintain about texts and records. *)

Module Invariants.

(** A text in which every marker of [RE_REDACT] that matches somewhere is the
    canonical token itself, in upper case. *)
Definition canonical_at (t : str) : Prop :=
  forall m, m ∈ SCPParser.REDACT_MARKERS -> SCPParser.ci_prefix m t = true ->
            m = SCPParser.REDACTED /\ startswith t SCPParser.REDACTED = true.

Definition only_canonical (s : str) : Prop :=
  forall t, t `suffix_of` s -> canonical_at t.

(** A text in which every white space character is a single space that no
    white space follows. *)
Fixpoint spaced (s : str) : bool :=
  match s with
  | [] => true
  | c :: t =>
      (if isspace c
       then (c =? 32) && match t with d :: _ => negb (isspace d) | [] => true end
       else true)
      && spaced t
  end.

(** Records as the parser builds them: [filled] values are non-empty texts,
    and after [ensure_required_fields] every value is a text that is
    non-empty unless it is one of the two de-duplicated fields. *)
Definition filled (v : value) : Prop := exists s, v = VStr s /\ truthy s = true.

Definition ensured (kv : str * value) : Prop :=
  exists s, snd kv = VStr s
            /\ (truthy s = true \/ fst kv = SCPParser.K_description
                \/ fst kv = SCPParser.K_containment).

End Invariants.

(** * Properties *)

(** ** Strings and dictionaries *)

Lemma str_eqb_eq (a b : str) : str_eqb a b = true <-> a = b.
Proof. unfold str_eqb. apply bool_decide_eq_true. Qed.

Lemma str_eqb_refl (a : str) : str_eqb a a = true.
Proof. apply str_eqb_eq. reflexivity. Qed.

Lemma str_eqb_neq (a b : str) : str_eqb a b = false <-> a <> b.
Proof. unfold str_eqb. apply bool_decide_eq_false. Qed.

Lemma in_list_spec (x : str) (l : list str) : in_list x l = true <-> x ∈ l.
Proof.
  unfold in_list. rewrite existsb_exists, list_elem_of_In. split.
  - intros (y & Hy & E). apply str_eqb_eq in E. by subst.
  - intros H. exists x. split; [done | apply str_eqb_refl].
Qed.

Module DictFacts.

Section Facts.

Context {V : Type}.
Implicit Types (d : Dict.t V) (k : str) (v : V).

Lemma get_put_eq d k v : Dict.get (Dict.put d k v) k = Some v.
Proof.
  induction d as [|[k' v'] d IH]; simpl.
  - by rewrite str_eqb_refl.
  - destruct (str_eqb k' k) eqn:E; simpl; rewrite E; auto.
Qed.

Lemma get_put_ne d k k' v : k <> k' -> Dict.get (Dict.put d k v) k' = Dict.get d k'.
Proof.
  intros Hne. induction d as [|[k0 v0] d IH]; simpl.
  - apply str_eqb_neq in Hne. by rewrite Hne.
  - destruct (str_eqb k0 k) eqn:E; simpl.
    + apply str_eqb_eq in E. subst k0. apply str_eqb_neq in Hne. by rewrite Hne.
    + destruct (str_eqb k0 k'); auto.
Qed.

Lemma get_put d k k' v :
  Dict.get (Dict.put d k v) k' = if str_eqb k k' then Some v else Dict.get d k'.
Proof.
  destruct (str_eqb k k') eqn:E.
  - apply str_eqb_eq in E. subst. apply get_put_eq.
  - apply str_eqb_neq in E. by apply get_put_ne.
Qed.

Lemma has_put d k k' v : Dict.has d k' = true -> Dict.has (Dict.put d k v) k' = true.
Proof.
  unfold Dict.has. rewrite get_put. destruct (str_eqb k k'); [done|]. auto.
Qed.

Lemma has_put_same d k v : Dict.has (Dict.put d k v) k = true.
Proof. unfold Dict.has. by rewrite get_put_eq. Qed.

Lemma has_update d other k : Dict.has d k = true -> Dict.has (Dict.update d other) k = true.
Proof.
  unfold Dict.update. revert d. induction other as [|[k0 v0] other IH]; simpl; [done|].
  intros d H. apply IH. by apply has_put.
Qed.

Lemma has_keys d k : Dict.has d k = true <-> k ∈ Dict.keys d.
Proof.
  unfold Dict.has, Dict.keys. induction d as [|[k0 v0] d IH]; simpl.
  - split; [done | intros H; inversion H].
  - destruct (str_eqb k0 k) eqn:E.
    + apply str_eqb_eq in E. subst. split; [intros _; left | done].
    + apply str_eqb_neq in E. rewrite IH. split.
      * by right.
      * intros H. inversion H; subst; [congruence | done].
Qed.

End Facts.

End DictFacts.

(** ** The grouping number *)

Module SeriesProps.

Import Scraper Design.

(** C8.  For every integer identifier the grouping number is the identifier
    integer-divided by 1000, plus one, clamped to the interval from 1 to 9:
    it never leaves that interval, 1500 gives 2 and 15000 gives 9. *)
Theorem get_series_number_clamps (n : Z) :
  get_series_number n = clamp 1 9 (n / 1000 + 1)
  /\ 1 <= get_series_number n <= 9
  /\ get_series_number 1500 = 2
  /\ get_series_number 15000 = 9.
Proof.
  repeat split; try reflexivity; unfold get_series_number, clamp;
    destruct (Z.ltb_spec (n / 1000 + 1) 1); try destruct (Z.ltb_spec 9 (n / 1000 + 1)); lia.
Qed.

Lemma get_series_number_range (n : Z) : 1 <= get_series_number n <= 9.
Proof. unfold get_series_number. lia. Qed.

End SeriesProps.

(** ** The validator *)

Module ValidatorProps.

Import SCPValidator Design.

Lemma missing_total (data : record) (field : str) :
  missing data field = Some (absent_or_empty data field).
Proof.
  unfold missing, absent_or_empty, Dict.has. by destruct (Dict.get data field).
Qed.

Lemma missing_of_total (data : record) (fields : list str) :
  missing_of data fields = Some (List.filter (absent_or_empty data) fields).
Proof.
  induction fields as [|f fields IH]; simpl; [done|].
  rewrite missing_total, IH. by destruct (absent_or_empty data f).
Qed.

Lemma issues_of_nil (req rec : list str) : issues_of req rec = [] -> req = [] /\ rec = [].
Proof.
  unfold issues_of. destruct req; simpl; [|done]. destruct rec; [done|]. discriminate.
Qed.

Lemma absent_or_empty_false (data : record) (field : str) (v : value) :
  Dict.get data field = Some v -> value_truthy v = true -> absent_or_empty data field = false.
Proof. unfold absent_or_empty. intros -> ->. reflexivity. Qed.

Lemma validate_total (data : record) :
  validate data =
    Some (match issues_of (List.filter (absent_or_empty data) REQUIRED_FIELDS)
                  (List.filter (absent_or_empty data) RECOMMENDED_FIELDS) with
          | [] => data
          | issues => Dict.put data K_validation_issues (VList issues)
          end).
Proof.
  unfold validate. rewrite !missing_of_total.
  by destruct (issues_of _ _).
Qed.

(** C7.  [validate] never fails; its result agrees with the input on every
    key other than [validation_issues]; it is the input itself unless a
    required or recommended field is missing or empty, in which case a
    non-empty sequence of issues is stored under [validation_issues].  A
    record with only [id] set gets one issue that names the three recommended
    fields; a record with [id], [class], [containment] and [description] set
    and non-empty is returned as it is, without a [validation_issues] key. *)
Theorem validate_frame (data : record) :
  exists out,
    validate data = Some out
    /\ (forall k, k <> K_validation_issues -> Dict.get out k = Dict.get data k)
    /\ (out = data
        \/ exists issues field,
             issues <> []
             /\ out = Dict.put data K_validation_issues (VList issues)
             /\ field ∈ REQUIRED_FIELDS ++ RECOMMENDED_FIELDS
             /\ absent_or_empty data field = true)
    /\ ((forall field, field ∈ REQUIRED_FIELDS ++ RECOMMENDED_FIELDS ->
           absent_or_empty data field = false) -> out = data)
    /\ (forall id_value, truthy id_value = true ->
          validate [(u "id", VStr id_value)] =
            Some [(u "id", VStr id_value);
                  (u "validation_issues",
                   VList [u "缺少推荐字段: class, containment, description"])])
    /\ (forall v1 v2 v3 v4,
          value_truthy v1 = true -> value_truthy v2 = true ->
          value_truthy v3 = true -> value_truthy v4 = true ->
          let full := [(u "id", v1); (u "class", v2); (u "containment", v3);
                       (u "description", v4)] in
          validate full = Some full /\ Dict.has full (u "validation_issues") = false).
Proof.
  eexists. split; [apply validate_total|].
  unfold REQUIRED_FIELDS, RECOMMENDED_FIELDS. cbn [List.filter].
  repeat split.
  - intros k Hk. destruct (issues_of _ _); [done|].
    by rewrite DictFacts.get_put_ne.
  - destruct (absent_or_empty data [105; 100]) eqn:E1;
    destruct (absent_or_empty data [99; 108; 97; 115; 115]) eqn:E2;
    destruct (absent_or_empty data [99; 111; 110; 116; 97; 105; 110; 109; 101; 110; 116]) eqn:E3;
    destruct (absent_or_empty data [100; 101; 115; 99; 114; 105; 112; 116; 105; 111; 110]) eqn:E4;
    cbn; try (by left); right; eexists _, _;
      (split; [|split; [reflexivity|split; [|eassumption]]]); try done;
      cbn [app]; rewrite !elem_of_cons; tauto.
  - intros Hall.
    rewrite !Hall by (cbn [app]; rewrite !elem_of_cons; tauto). done.
  - intros [|c idv] Hid; [done|]. reflexivity.
  - rewrite validate_total. unfold REQUIRED_FIELDS, RECOMMENDED_FIELDS.
    cbn [List.filter].
    rewrite (absent_or_empty_false _ _ v1), (absent_or_empty_false _ _ v2),
      (absent_or_empty_false _ _ v3), (absent_or_empty_false _ _ v4); done.
Qed.

End ValidatorProps.

(** ** Sentence de-duplication *)

Module DedupProps.

Import SCPParser Design.

Lemma truthy_length (s : str) : truthy s = false -> length s = 0%nat.
Proof. by destruct s. Qed.

Lemma unique_from_keep (segments : list str) :
  forall (seen : gset str) (kept : list str),
    (forall x, x ∈ seen <-> x ∈ kept) ->
    unique_from seen
      (List.map strip (List.filter (fun s => truthy (strip s)) segments))
    = keep_segments kept segments.
Proof.
  induction segments as [|seg segments IH]; intros seen kept Hseen; [done|].
  cbn [List.filter keep_segments].
  destruct (truthy (strip seg)) eqn:Et.
  - cbn [List.map unique_from].
    assert (bool_decide (strip seg ∉ seen) = negb (in_list (strip seg) kept)) as ->.
    { destruct (in_list (strip seg) kept) eqn:E.
      - apply in_list_spec, Hseen in E. by apply bool_decide_eq_false_2; intros ?.
      - apply bool_decide_eq_true_2. rewrite Hseen, <- in_list_spec. congruence. }
    assert ((5 <? Z.of_nat (length (strip seg))) = (6 <=? length (strip seg))%nat) as ->.
    { destruct (Nat.leb_spec 6 (length (strip seg))); lia. }
    rewrite andb_comm.
    destruct (_ && _); [f_equal|]; apply IH; [|done].
    intros x. rewrite elem_of_union, elem_of_singleton, elem_of_app, list_elem_of_singleton, Hseen.
    tauto.
  - rewrite (truthy_length _ Et). cbn. by apply IH.
Qed.

Lemma deduplicate_content_deduplicated (content : str) :
  deduplicate_content content = deduplicated content.
Proof.
  unfold deduplicate_content, deduplicated, unique_sentences.
  destruct content as [|c content]; [reflexivity|].
  cbn [truthy negb].
  rewrite (unique_from_keep _ ∅ []) by set_solver.
  by destruct (keep_segments _ _).
Qed.

Lemma unique_from_spec (l : list str) :
  forall seen : gset str,
    NoDup (unique_from seen l)
    /\ sublist (unique_from seen l) l
    /\ (forall x, x ∈ unique_from seen l <-> x ∈ l /\ (x ∉ seen) /\ (6 <= length x)%nat).
Proof.
  induction l as [|s l IH]; intros seen; cbn [unique_from].
  - split; [constructor|]. split; [constructor|]. intros x. rewrite elem_of_nil. tauto.
  - destruct (bool_decide (s ∉ seen)) eqn:Es; cbn [andb].
    + apply bool_decide_eq_true in Es.
      destruct (Z.ltb_spec 5 (Z.of_nat (length s))) as [Hl|Hl].
      * destruct (IH ({[s]} ∪ seen)) as (Hnd & Hsub & Hin).
        split; [|split].
        -- constructor; [|done]. rewrite Hin. set_solver.
        -- by constructor.
        -- intros x. rewrite !elem_of_cons, Hin.
           destruct (decide (x = s)) as [->|Hne]; [|set_solver].
           split; [intros _|by left]. split; [by left|]. split; [done|lia].
      * destruct (IH seen) as (Hnd & Hsub & Hin).
        split; [done|]. split; [by constructor|].
        intros x. rewrite elem_of_cons, Hin.
        destruct (decide (x = s)) as [->|Hne]; [|tauto].
        split; intros (_ & _ & ?); lia.
    + apply bool_decide_eq_false in Es.
      destruct (IH seen) as (Hnd & Hsub & Hin).
      split; [done|]. split; [by constructor|].
      intros x. rewrite elem_of_cons, Hin.
      destruct (decide (x = s)) as [->|Hne]; [tauto|]. tauto.
Qed.

Lemma trimmed_sentences (segments : list str) :
  let l := List.map strip (List.filter (fun s => truthy (strip s)) segments) in
  sublist l (List.map strip segments)
  /\ (forall x, x ∈ l <-> x ∈ List.map strip segments /\ x <> []).
Proof.
  induction segments as [|s segments [IH1 IH2]]; cbn [List.filter List.map].
  - split; [constructor|]. intros x. rewrite elem_of_nil. tauto.
  - destruct (truthy (strip s)) eqn:E; cbn [List.map].
    + split; [by constructor|]. intros x. rewrite !elem_of_cons, IH2.
      destruct (decide (x = strip s)) as [->|]; [|tauto].
      destruct (strip s); [done|]. intuition congruence.
    + split; [by constructor|]. intros x. rewrite elem_of_cons, IH2.
      destruct (strip s) eqn:E'; [|done]. intuition congruence.
Qed.

(** C5.  [deduplicate_content] is the function of the design document: split
    on the sentence terminator, trim, keep a segment when it has at least 6
    characters and was not kept before, join with the terminator and close
    with one terminator when a segment was kept.  The kept sentences are
    pairwise distinct, come in the order of the input, and are the trimmed
    segments of at least 6 characters, so that a sentence written twice is
    kept once. *)
Theorem deduplicate_content_refines (content : str) :
  deduplicate_content content = deduplicated content
  /\ (let kept := unique_sentences content in
      let segments := List.map strip (split_on SENTENCE_END content) in
      deduplicate_content content
        = join [SENTENCE_END] kept ++ (if bool_decide (kept = []) then [] else [SENTENCE_END])
      /\ NoDup kept
      /\ sublist kept segments
      /\ (forall x, x ∈ kept <-> x ∈ segments /\ (6 <= length x)%nat))
  /\ deduplicate_content (u "一二三四五六。一二三四五六。") = u "一二三四五六。".
Proof.
  split; [apply deduplicate_content_deduplicated|]. split; [|reflexivity].
  cbn zeta. split; [|unfold unique_sentences].
  - unfold deduplicate_content. destruct content; [reflexivity|].
    cbn [truthy negb]. by destruct (unique_sentences _).
  - destruct (unique_from_spec
                (List.map strip (List.filter (fun s => truthy (strip s))
                                   (split_on SENTENCE_END content))) ∅)
      as (Hnd & Hsub & Hin).
    destruct (trimmed_sentences (split_on SENTENCE_END content)) as [Hs Hm].
    cbn zeta in Hs, Hm.
    split; [done|]. split; [by etrans|].
    intros x. rewrite Hin, Hm. split.
    + tauto.
    + intros [? ?]. split; [split; [done|]|split; [set_solver|done]].
      intros ->. simpl in *. lia.
Qed.

End DedupProps.

(** ** Key normalisation *)

Module TextFacts.

Lemma basic_db_ok : TextDB_ok basic_db.
Proof.
  split; cbn.
  - done.
  - intros s c Hc Hin. apply list_elem_of_fmap. exists c. split; [|done].
    unfold ascii_lower. destruct (Z.leb_spec 65 c), (Z.leb_spec c 90); cbn; lia.
  - intros c Hc. destruct (Z.leb_spec 0x4E00 c); cbn; [lia|]. by rewrite orb_false_r.
  - done.
Qed.

Lemma elem_of_lstrip_by (p : Z -> bool) (s : str) (c : Z) :
  c ∈ s -> p c = false -> c ∈ lstrip_by p s.
Proof.
  induction s as [|x s IH]; cbn; [done|]. intros Hin Hp.
  destruct (p x) eqn:E; [|done].
  apply elem_of_cons in Hin as [->|Hin]; [congruence|auto].
Qed.

Lemma elem_of_rstrip_by (p : Z -> bool) (s : str) (c : Z) :
  c ∈ s -> p c = false -> c ∈ rstrip_by p s.
Proof.
  induction s as [|x s IH]; cbn; [done|]. intros Hin Hp.
  apply elem_of_cons in Hin as [->|Hin].
  - destruct (rstrip_by p s); [rewrite Hp|]; left.
  - specialize (IH Hin Hp). destruct (rstrip_by p s); [by apply elem_of_nil in IH|].
    by right.
Qed.

Lemma elem_of_strip (s : str) (c : Z) : c ∈ s -> isspace c = false -> c ∈ strip s.
Proof.
  intros. unfold strip, rstrip, lstrip.
  apply elem_of_rstrip_by; [by apply elem_of_lstrip_by|done].
Qed.

Lemma ideograph_not_space (c : Z) : Design.is_ideograph c -> isspace c = false.
Proof. unfold Design.is_ideograph, isspace. lia. Qed.

Lemma ideograph_not_colon (c : Z) : Design.is_ideograph c -> SCPParser.is_colon c = false.
Proof. unfold Design.is_ideograph, SCPParser.is_colon. lia. Qed.

Lemma find_none {A} (f : A -> bool) (l : list A) :
  (forall x, x ∈ l -> f x = false) -> List.find f l = None.
Proof.
  induction l as [|a l IH]; cbn; [done|]. intros H.
  rewrite (H a) by left. apply IH. intros x Hx. apply H. by right.
Qed.

Lemma find_ext {A} (f g : A -> bool) (l : list A) :
  (forall x, x ∈ l -> f x = g x) -> List.find f l = List.find g l.
Proof.
  induction l as [|a l IH]; cbn; [done|]. intros H.
  rewrite (H a) by left. destruct (g a); [done|]. apply IH. intros x Hx. apply H. by right.
Qed.

End TextFacts.

(** ** The record assembler *)

Module TransferFacts.

Import SCPParser TextFacts.

Lemma basicb_basic (c : Z) : basicb c = true -> basic c.
Proof. unfold basicb, basic. lia. Qed.

Lemma forallb_basic (s : str) : forallb basicb s = true -> Forall basic s.
Proof.
  rewrite forallb_forall, Forall_forall. intros H c Hc.
  apply basicb_basic, H. by apply list_elem_of_In.
Qed.

Lemma Forall_lstrip_by (P : Z -> Prop) (p : Z -> bool) (s : str) :
  Forall P s -> Forall P (lstrip_by p s).
Proof.
  induction 1 as [|c s Hc Hs IH]; cbn; [done|]. destruct (p c); [done|by constructor].
Qed.

Lemma Forall_rstrip_by (P : Z -> Prop) (p : Z -> bool) (s : str) :
  Forall P s -> Forall P (rstrip_by p s).
Proof.
  induction 1 as [|c s Hc Hs IH]; cbn; [done|].
  destruct (rstrip_by p s); [destruct (p c); by repeat constructor|by constructor].
Qed.

Lemma Forall_strip (P : Z -> Prop) (s : str) : Forall P s -> Forall P (strip s).
Proof. intros. by apply Forall_rstrip_by, Forall_lstrip_by. Qed.

Lemma ascii_lower_basic (c : Z) : basic c -> basic (ascii_lower c).
Proof. unfold basic, ascii_lower. intros H. destruct (_ && _) eqn:E; lia. Qed.

Lemma field_mapping_basic : Forall (fun entry => Forall basic (fst entry)) FIELD_MAPPING.
Proof.
  apply Forall_forall. intros entry Hin. apply forallb_basic.
  assert (forallb (fun e => forallb basicb (fst e)) FIELD_MAPPING = true) as H
    by (vm_compute; reflexivity).
  rewrite forallb_forall in H. apply H. by apply list_elem_of_In.
Qed.

Section Transfer.

Variable U : TextDB.
Hypothesis HU : TextDB_ok U.

Lemma sub_nonword_basic (key : str) :
  Forall basic key ->
  sub_nonword U key = sub_nonword basic_db key /\ Forall basic (sub_nonword U key).
Proof.
  induction 1 as [|c key Hc Hkey [IH1 IH2]]; cbn; [done|].
  assert (re_word U c || (19968 <=? c) && (c <=? 40959)
          = ascii_word c || (19968 <=? c) && (c <=? 40959) || (19968 <=? c) && (c <=? 40959)) as E.
  { destruct Hc as [Hc|Hc].
    - rewrite (re_word_ascii U HU) by done.
      by destruct (ascii_word c), ((19968 <=? c) && (c <=? 40959)).
    - assert ((19968 <=? c) && (c <=? 40959) = true) as ->
        by (apply andb_true_iff; split; apply Z.leb_le; lia).
      by rewrite !orb_true_r. }
  split; [f_equal; [by rewrite E|apply IH1]|].
  constructor; [|done].
  destruct (_ || _); [done|]. left. lia.
Qed.

(** On a text of the two scripts the key does not depend on the tables. *)
Lemma normalize_key_basic (key : str) :
  Forall basic key -> normalize_key U key = normalize_key basic_db key.
Proof.
  intros Hkey. unfold normalize_key. destruct (negb (truthy key)); [done|].
  assert (Forall basic (rstrip_by is_colon (strip key))) as Hk
    by by apply Forall_rstrip_by, Forall_strip.
  rewrite (lower_basic U HU _ Hk).
  erewrite find_ext.
  2:{ intros entry Hin. pose proof field_mapping_basic as Hf.
      rewrite Forall_forall in Hf. rewrite (lower_basic U HU _ (Hf _ Hin)). reflexivity. }
  cbn [lower basic_db].
  destruct (List.find _ _); [done|].
  destruct (sub_nonword_basic _ Hk) as [E Hb].
  rewrite (lower_basic U HU _ Hb), E. done.
Qed.

Lemma normalize_key_id : normalize_key U K_id = K_id.
Proof. rewrite normalize_key_basic by (apply forallb_basic; reflexivity). reflexivity. Qed.

Lemma normalize_key_description : normalize_key U K_description = K_description.
Proof. rewrite normalize_key_basic by (apply forallb_basic; reflexivity). reflexivity. Qed.

Lemma normalize_key_containment : normalize_key U K_containment = K_containment.
Proof. rewrite normalize_key_basic by (apply forallb_basic; reflexivity). reflexivity. Qed.

End Transfer.

End TransferFacts.

(** ** The fallback key *)

Module KeyProps.

Import SCPParser Design TextFacts TransferFacts.

Lemma standard_fields_ascii :
  Forall (Forall (fun c => c < 128)) STANDARD_FIELDS.
Proof. unfold STANDARD_FIELDS. repeat (constructor; try lia). Qed.

Lemma standard_fields_alphabet :
  Forall (Forall (fun x => x = 95 \/ 97 <= x <= 122)) STANDARD_FIELDS.
Proof. unfold STANDARD_FIELDS. repeat (constructor; try lia). Qed.

Lemma no_synonym_find (U : TextDB) (label : str) :
  no_synonym U label ->
  List.find
    (fun entry => str_eqb (lower U (fst entry)) (lower U (rstrip_by is_colon (strip label))))
    FIELD_MAPPING = None.
Proof.
  intros H. apply find_none. intros entry Hin. apply str_eqb_neq. by apply H.
Qed.

(** The fallback key of a label without synonym. *)
Lemma normalize_key_fallback (U : TextDB) (label : str) :
  truthy label = true -> no_synonym U label ->
  normalize_key U label = lower U (sub_nonword U (rstrip_by is_colon (strip label))).
Proof.
  intros Ht H. unfold normalize_key. rewrite Ht. cbn [negb].
  by rewrite no_synonym_find.
Qed.

Lemma fallback_key_ideograph (U : TextDB) (label : str) (c : Z) :
  TextDB_ok U -> c ∈ label -> is_ideograph c ->
  lower U (sub_nonword U (rstrip_by is_colon (strip label))) ∉ STANDARD_FIELDS.
Proof.
  intros HU Hc Hi Hin.
  assert (c ∈ lower U (sub_nonword U (rstrip_by is_colon (strip label)))) as Hc'.
  { apply (lower_ideograph U HU); [done|].
    unfold sub_nonword. apply list_elem_of_fmap. exists c. split.
    - unfold is_ideograph in Hi.
      destruct (Z.leb_spec 0x4E00 c), (Z.leb_spec c 0x9FFF); try lia.
      by rewrite orb_true_r.
    - apply elem_of_rstrip_by; [|by apply ideograph_not_colon].
      apply elem_of_strip; [done|by apply ideograph_not_space]. }
  pose proof standard_fields_ascii as Hs.
  rewrite Forall_forall in Hs. specialize (Hs _ Hin).
  rewrite Forall_forall in Hs. specialize (Hs _ Hc'). unfold is_ideograph in Hi. lia.
Qed.

(** One character of the fallback key, against one character of a canonical
    name. *)
Lemma fallback_char_spells (U : TextDB) (c x : Z) :
  TextDB_ok U -> basic c ->
  spells_char U c (ascii_lower (if re_word U c || ((0x4E00 <=? c) && (c <=? 0x9FFF))
                                then c else 95))
  /\ (x = 95 \/ 97 <= x <= 122 ->
      spells_char U c x ->
      ascii_lower (if re_word U c || ((0x4E00 <=? c) && (c <=? 0x9FFF)) then c else 95) = x).
Proof.
  intros HU Hb. unfold spells_char, is_ideograph.
  destruct (re_word U c) eqn:Ew; cbn [orb].
  { split; [by left|]. intros Hx [?|(_ & ? & _)]; done. }
  destruct ((19968 <=? c) && (c <=? 40959)) eqn:Ei.
  { split; [by left|]. intros Hx [?|(_ & _ & Hn)]; [done|]. exfalso. apply Hn. lia. }
  change (ascii_lower 95) with 95. split; [right; repeat split; lia|].
  intros Hx [Hl|(-> & _)]; [|done].
  assert (0 <= c < 128) as Hc by (unfold basic in Hb; lia).
  rewrite (re_word_ascii U HU c Hc) in Ew. unfold ascii_word in Ew.
  unfold ascii_lower in Hl. destruct ((65 <=? c) && (c <=? 90)) eqn:E; lia.
Qed.

Lemma fallback_key_spells (U : TextDB) (key name : str) :
  TextDB_ok U -> Forall basic key ->
  Forall2 (spells_char U) key (lower U (sub_nonword U key))
  /\ (Forall (fun x => x = 95 \/ 97 <= x <= 122) name ->
      Forall2 (spells_char U) key name -> lower U (sub_nonword U key) = name).
Proof.
  intros HU Hb.
  destruct (sub_nonword_basic U HU key Hb) as [_ Hs].
  rewrite (lower_basic U HU _ Hs). unfold sub_nonword. rewrite List.map_map. split.
  - clear Hs. induction Hb as [|c key Hc Hb IH]; cbn [List.map]; constructor; [|done].
    by apply fallback_char_spells.
  - intros Hn H2. clear Hs. revert Hb Hn.
    induction H2 as [|c x key name Hcx H2 IH]; intros Hb Hn; cbn [List.map]; [done|].
    apply Forall_cons in Hb as [Hc Hb]. apply Forall_cons in Hn as [Hx Hn].
    f_equal; [|by apply IH]. by apply (fallback_char_spells U c x HU Hc).
Qed.

(** C4, as the code has it.  A label that matches no synonym gets the
    fallback key: the trimmed label with every character outside the word
    class and the ideographs replaced by an underscore, in lower case.  The
    fallback key of a label with an ideograph is never a canonical name.  For
    a label of Basic Latin characters and ideographs the fallback key is a
    canonical name exactly when the label spells one, up to letter case and
    with any other character in the place of an underscore. *)
Theorem fallback_key_not_canonical (U : TextDB) (label : str) :
  TextDB_ok U -> label <> [] -> no_synonym U label ->
  normalize_key U label = lower U (sub_nonword U (rstrip_by is_colon (strip label)))
  /\ (forall c, c ∈ label -> is_ideograph c -> normalize_key U label ∉ STANDARD_FIELDS)
  /\ (Forall basic (rstrip_by is_colon (strip label)) ->
      (normalize_key U label ∈ STANDARD_FIELDS <-> spells_canonical U label)).
Proof.
  intros HU Hne Hno.
  assert (truthy label = true) as Ht by by destruct label.
  rewrite normalize_key_fallback by done.
  split; [done|]. split; [intros c; by apply fallback_key_ideograph|].
  intros Hb. unfold spells_canonical. split.
  - intros Hin. eexists. split; [exact Hin|].
    by apply (fallback_key_spells U _ [] HU Hb).
  - intros (name & Hin & H2).
    pose proof standard_fields_alphabet as Ha. rewrite Forall_forall in Ha.
    by rewrite (proj2 (fallback_key_spells U _ name HU Hb) (Ha _ Hin) H2).
Qed.

Lemma no_synonym_basic_db (label : str) :
  List.find
    (fun entry => str_eqb (lower basic_db (fst entry))
                    (lower basic_db (rstrip_by is_colon (strip label))))
    FIELD_MAPPING = None ->
  no_synonym basic_db label.
Proof.
  intros H entry Hin Hm. unfold matches_synonym in Hm.
  apply list_elem_of_In in Hin.
  eapply List.find_none in H; [|exact Hin]. cbn beta in H.
  apply str_eqb_neq in H. done.
Qed.

(** Three labels without synonym: "异常等级" has ideographs, "Recovery Log #2"
    spells no canonical name, "Experiment Log" spells [experiment_log]. *)
Lemma fallback_key_not_canonical_witness :
  normalize_key basic_db (u "异常等级") = u "异常等级"
  /\ (normalize_key basic_db (u "异常等级") ∉ STANDARD_FIELDS)
  /\ normalize_key basic_db (u "Recovery Log #2") = u "recovery_log__2"
  /\ ~ spells_canonical basic_db (u "Recovery Log #2")
  /\ spells_canonical basic_db (u "Experiment Log").
Proof.
  destruct (fallback_key_not_canonical basic_db (u "异常等级") basic_db_ok) as (H1 & H2 & _);
    [discriminate|apply no_synonym_basic_db; vm_compute; reflexivity|].
  destruct (fallback_key_not_canonical basic_db (u "Recovery Log #2") basic_db_ok)
    as (H3 & _ & H4);
    [discriminate|apply no_synonym_basic_db; vm_compute; reflexivity|].
  destruct (fallback_key_not_canonical basic_db (u "Experiment Log") basic_db_ok)
    as (_ & _ & H5);
    [discriminate|apply no_synonym_basic_db; vm_compute; reflexivity|].
  split; [rewrite H1; vm_compute; reflexivity|].
  split; [apply (H2 24322); [vm_compute; left|unfold is_ideograph; lia]|].
  split; [rewrite H3; vm_compute; reflexivity|].
  split.
  - intros Hs. apply H4 in Hs; [|apply forallb_basic; vm_compute; reflexivity].
    apply in_list_spec in Hs. vm_compute in Hs. discriminate Hs.
  - apply H5; [apply forallb_basic; vm_compute; reflexivity|].
    apply in_list_spec. vm_compute. reflexivity.
Defined.

(** C4 as stated fails: the label "class" matches no synonym and its fallback
    key is the canonical name [class]; so does "Experiment Log". *)
Lemma fallback_key_collides :
  no_synonym basic_db (u "class")
  /\ normalize_key basic_db (u "class") = u "class"
  /\ u "class" ∈ STANDARD_FIELDS
  /\ no_synonym basic_db (u "Experiment Log")
  /\ normalize_key basic_db (u "Experiment Log") = u "experiment_log"
  /\ u "experiment_log" ∈ STANDARD_FIELDS.
Proof.
  split; [apply no_synonym_basic_db; vm_compute; reflexivity|].
  split; [vm_compute; reflexivity|].
  split; [apply in_list_spec; vm_compute; reflexivity|].
  split; [apply no_synonym_basic_db; vm_compute; reflexivity|].
  split; [vm_compute; reflexivity|].
  apply in_list_spec; vm_compute; reflexivity.
Qed.

End KeyProps.


Module ParseProps.

Import SCPParser Design Invariants TextFacts TransferFacts.

Lemma put_Forall {V} (P : str * V -> Prop) (d : Dict.t V) (k : str) (v : V) :
  Forall P d -> (forall k', P (k', v)) -> Forall P (Dict.put d k v).
Proof.
  intros Hd Hv. induction Hd as [|[k0 v0] d H0 Hd IH]; cbn.
  - by repeat constructor.
  - destruct (str_eqb k0 k); constructor; auto.
Qed.

Lemma put_Forall_key {V} (P : str * V -> Prop) (d : Dict.t V) (k : str) (v : V) :
  Forall P d -> P (k, v) -> Forall P (Dict.put d k v).
Proof.
  intros Hd Hv. induction Hd as [|[k0 v0] d H0 Hd IH]; cbn.
  - by repeat constructor.
  - destruct (str_eqb k0 k) eqn:E; constructor; auto.
    apply str_eqb_eq in E. by subst.
Qed.

Lemma get_elem {V} (d : Dict.t V) (k : str) (v : V) : Dict.get d k = Some v -> (k, v) ∈ d.
Proof.
  induction d as [|[k0 v0] d IH]; cbn; [done|].
  destruct (str_eqb k0 k) eqn:E.
  - apply str_eqb_eq in E. intros ?. simplify_eq. left.
  - intros H. right. auto.
Qed.

Section Parse.

Variable U : TextDB.
Hypothesis HU : TextDB_ok U.

Lemma flush_filled (result : record) (current_key : option str) (current_value : str) :
  Forall (fun kv => filled (snd kv)) result ->
  Forall (fun kv => filled (snd kv)) (flush U result current_key current_value).
Proof.
  intros H. unfold flush. destruct current_key as [k|]; [|done].
  destruct (truthy k); [|done].
  destruct (truthy (normalize_key U k)); [|done]. cbn [andb].
  destruct (truthy (clean_value current_value)) eqn:E; [|done].
  apply put_Forall; [done|]. intros ?. by eexists.
Qed.

Lemma parse_loop_filled (elements : list block) :
  forall result current_key current_value,
    Forall (fun kv => filled (snd kv)) result ->
    Forall (fun kv => filled (snd kv)) (parse_loop U elements result current_key current_value).1.1.
Proof.
  induction elements as [|e elements IH]; intros result ck cv H; cbn [parse_loop]; [done|].
  destruct (negb (truthy (strip (get_text e)))); [by apply IH|].
  destruct (stops (strip (get_text e))); [done|].
  destruct (find_strong e).
  - apply IH. by apply flush_filled.
  - destruct (key_open ck); by apply IH.
Qed.

(** Without emphasised label the cursor never opens. *)
Lemma parse_loop_no_label (elements : list block) :
  (forall e, e ∈ elements -> find_strong e = None) ->
  forall result current_value,
    parse_loop U elements result None current_value = (result, None, current_value).
Proof.
  induction elements as [|e elements IH]; intros H result cv; cbn [parse_loop]; [done|].
  assert (forall e', e' ∈ elements -> find_strong e' = None) as H' by (intros; apply H; by right).
  destruct (negb (truthy (strip (get_text e)))); [by apply IH|].
  destruct (stops (strip (get_text e))); [done|].
  rewrite (H e) by left. cbn [key_open]. by apply IH.
Qed.

Lemma dedup_field_ensured (result : record) (field : str) :
  field = K_description \/ field = K_containment ->
  Forall ensured result -> Forall ensured (dedup_field result field).
Proof.
  intros Hf H. unfold dedup_field. destruct (Dict.get result field) as [[s| | |]|]; try done.
  apply put_Forall_key; [done|]. eexists. split; [reflexivity|]. cbn. tauto.
Qed.

Lemma dedup_field_get_id (result : record) (field : str) :
  field <> K_id -> Dict.get (dedup_field result field) K_id = Dict.get result K_id.
Proof.
  intros Hf. unfold dedup_field. destruct (Dict.get result field) as [[s| | |]|]; try done.
  by rewrite DictFacts.get_put_ne.
Qed.

Lemma scp_prefix_truthy (s : str) : truthy (SCP_PREFIX ++ s) = true.
Proof. reflexivity. Qed.

Lemma ensure_required_fields_id (data : record) (scp_id : Z) (url : str) :
  Forall (fun kv => filled (snd kv)) data ->
  let result := ensure_required_fields U data scp_id url in
  Forall ensured result
  /\ exists s, Dict.get result K_id = Some (VStr s) /\ truthy s = true.
Proof.
  intros Hd. cbn zeta. unfold ensure_required_fields. cbn [fold_left].
  set (r := if _ : bool then _ else data).
  assert (Forall ensured r /\ exists s, Dict.get r K_id = Some (VStr s) /\ truthy s = true)
    as [Hr (s & Hs & Ht)].
  { assert (Forall ensured data) as He.
    { eapply Forall_impl; [exact Hd|]. intros kv (s & E & Hs). exists s. tauto. }
    assert (forall s, truthy s = true ->
              Forall ensured (Dict.put data K_id (VStr s))
              /\ exists s', Dict.get (Dict.put data K_id (VStr s)) K_id = Some (VStr s')
                            /\ truthy s' = true) as Hput.
    { intros s Hs. split.
      - apply put_Forall; [done|]. intros k'. exists s. cbn. tauto.
      - exists s. by rewrite DictFacts.get_put_eq. }
    subst r. destruct (Dict.get data K_id) as [v|] eqn:Eg.
    - destruct (value_truthy v) eqn:Ev; cbn [negb].
      + split; [done|]. pose proof (get_elem _ _ _ Eg) as Hin. rewrite Forall_forall in Hd.
        destruct (Hd _ Hin) as (s & E & Hs). cbn in E. subst v. by exists s.
      + destruct (truthy url); [destruct (truthy (extract_id_from_url U url)) eqn:Ex|];
          by apply Hput.
    - destruct (truthy url); [destruct (truthy (extract_id_from_url U url)) eqn:Ex|];
        by apply Hput. }
  split.
  - apply dedup_field_ensured; [tauto|]. apply dedup_field_ensured; [tauto|done].
  - exists s. by rewrite !dedup_field_get_id.
Qed.

Lemma categorize_loop_id (data : record) :
  forall acc : record,
    Forall (fun kv => normalize_key U (fst kv) = K_id -> filled (snd kv)) data ->
    (exists v, Dict.get acc K_id = Some v /\ filled v)
    \/ (exists kv, kv ∈ data /\ normalize_key U (fst kv) = K_id /\ fst kv <> K_more_info) ->
    exists v, Dict.get (fold_left (categorize_step U) data acc) K_id = Some v /\ filled v.
Proof.
  induction data as [|kv data IH]; intros acc Hd Hex; cbn [fold_left].
  - destruct Hex as [Hex|(kv & Hin & _)]; [done|by apply elem_of_nil in Hin].
  - apply Forall_cons in Hd as [Hkv Hd]. apply IH; [done|].
    unfold categorize_step at 1.
    destruct (str_eqb (fst kv) K_more_info) eqn:Em.
    + destruct Hex as [Hex|(kv' & Hin & Hn & Hm)]; [by left|].
      apply elem_of_cons in Hin as [->|Hin]; [|right; eauto].
      apply str_eqb_eq in Em. done.
    + rewrite DictFacts.get_put.
      destruct (str_eqb (normalize_key U (fst kv)) K_id) eqn:En.
      * left. apply str_eqb_eq in En. eauto.
      * apply str_eqb_neq in En.
        destruct Hex as [Hex|(kv' & Hin & Hn & Hm)]; [by left|].
        apply elem_of_cons in Hin as [->|Hin]; [done|right; eauto].
Qed.

Lemma categorize_fields_id (data : record) :
  Forall ensured data ->
  (exists s, Dict.get data K_id = Some (VStr s) /\ truthy s = true) ->
  exists s, Dict.get (categorize_fields U data) K_id = Some (VStr s) /\ truthy s = true.
Proof.
  intros Hd (s & Hs & Ht). unfold categorize_fields.
  assert (match Dict.get data K_more_info with
          | Some (VDict existing_more_info) =>
              fold_left (fun acc kv => Dict.put acc (normalize_key U (fst kv)) (snd kv))
                existing_more_info (Dict.empty : record)
          | _ => Dict.empty
          end = []) as ->.
  { destruct (Dict.get data K_more_info) as [v|] eqn:E; [|done].
    apply get_elem in E. rewrite Forall_forall in Hd.
    destruct (Hd _ E) as (s' & E' & _). cbn in E'. by subst. }
  destruct (categorize_loop_id data []) as (v & Hv & (s' & -> & Hs')).
  - eapply Forall_impl; [exact Hd|]. intros [k v] (s' & E & H) Hn. cbn in *. subst v.
    exists s'. split; [done|]. destruct H as [H|[->| ->]]; [done|..].
    + by rewrite (normalize_key_description U HU) in Hn.
    + by rewrite (normalize_key_containment U HU) in Hn.
  - right. exists (K_id, VStr s). split; [by apply get_elem|].
    split; [apply (normalize_key_id U HU)|done].
  - exists s'. done.
Qed.

Lemma parsed_fields_filled (elements : list block) :
  Forall (fun kv => filled (snd kv)) (parsed_fields U elements).
Proof.
  unfold parsed_fields.
  pose proof (parse_loop_filled elements Dict.empty None [] (Forall_nil_2 _)) as Hl.
  destruct (parse_loop U elements Dict.empty None []) as [[result ck] cv]. cbn in Hl.
  by apply flush_filled.
Qed.

Lemma parse_page_content_has_id (elements : list block) (scp_id : Z) (url : str) :
  exists s, Dict.get (parse_page_content U elements scp_id url) K_id = Some (VStr s)
            /\ truthy s = true.
Proof.
  unfold parse_page_content.
  destruct (ensure_required_fields_id _ scp_id url (parsed_fields_filled elements))
    as [He Hid].
  by apply categorize_fields_id.
Qed.

(** An absent key is added at the end, and a present one keeps the end as it
    is. *)
Lemma put_absent {V} (d : Dict.t V) (k : str) (v : V) :
  Dict.get d k = None -> Dict.put d k v = d ++ [(k, v)].
Proof.
  induction d as [|[k0 v0] d IH]; cbn; [done|].
  destruct (str_eqb k0 k); [done|]. intros H. by rewrite IH.
Qed.

Lemma put_keeps_last {V} (d : Dict.t V) (k0 k : str) (v0 v : V) :
  k <> k0 -> Dict.get (d ++ [(k0, v0)]) k <> None ->
  exists d', Dict.put (d ++ [(k0, v0)]) k v = d' ++ [(k0, v0)].
Proof.
  intros Hne. induction d as [|[k1 v1] d IH]; cbn.
  - destruct (str_eqb k0 k) eqn:E; [|done]. apply str_eqb_eq in E. congruence.
  - destruct (str_eqb k1 k).
    + intros _. by exists ((k1, v) :: d).
    + intros H. destruct (IH H) as [d' ->]. by exists ((k1, v1) :: d').
Qed.

Lemma dedup_field_keeps_last (d : record) (k0 field : str) (v0 : value) :
  field <> k0 -> exists d', dedup_field (d ++ [(k0, v0)]) field = d' ++ [(k0, v0)].
Proof.
  intros Hne. unfold dedup_field.
  destruct (Dict.get (d ++ [(k0, v0)]) field) as [[s| | |]|] eqn:E; eauto.
  apply put_keeps_last; [done|]. by rewrite E.
Qed.

(** A record whose last field is [id] keeps that [id] when it is flattened. *)
Lemma categorize_fields_last_id (d : record) (v : value) :
  Dict.get (categorize_fields U (d ++ [(K_id, v)])) K_id = Some v.
Proof.
  unfold categorize_fields. rewrite fold_left_app. cbn [fold_left].
  unfold categorize_step at 1. cbn [fst snd].
  change (str_eqb K_id K_more_info) with false. cbn iota.
  rewrite (normalize_key_id U HU). apply DictFacts.get_put_eq.
Qed.

(** An [id] read from the blocks is left in place by
    [ensure_required_fields]. *)
Lemma ensure_required_fields_keeps_id (elements : list block) (scp_id : Z) (url : str)
  (v : value) :
  Dict.get (parsed_fields U elements) K_id = Some v ->
  Dict.get (ensure_required_fields U (parsed_fields U elements) scp_id url) K_id = Some v.
Proof.
  intros Hv. unfold ensure_required_fields. rewrite Hv. cbn [fold_left].
  pose proof (parsed_fields_filled elements) as Hf. rewrite Forall_forall in Hf.
  destruct (Hf _ (get_elem _ _ _ Hv)) as (s & E & Hs). cbn in E. subst v.
  cbn [value_truthy]. rewrite Hs. cbn [negb].
  by rewrite !dedup_field_get_id.
Qed.

(** When the blocks give no [id], the [id] is the one of the URL or of the
    identifier. *)
Lemma parse_page_content_fills_id (elements : list block) (scp_id : Z) (url : str) :
  Dict.get (parsed_fields U elements) K_id = None ->
  let from_url := extract_id_from_url U url in
  Dict.get (parse_page_content U elements scp_id url) K_id
  = Some (VStr (if truthy from_url then from_url else SCP_PREFIX ++ format_03d scp_id)).
Proof.
  intros Hno. cbn zeta. unfold parse_page_content, ensure_required_fields. rewrite Hno.
  cbn [fold_left].
  assert (forall v, Dict.get
                      (categorize_fields U
                         (dedup_field (dedup_field (Dict.put (parsed_fields U elements) K_id v)
                                         K_description) K_containment)) K_id = Some v) as Hc.
  { intros v. rewrite put_absent by done.
    destruct (dedup_field_keeps_last (parsed_fields U elements) K_id K_description v)
      as [d1 ->]; [done|].
    destruct (dedup_field_keeps_last d1 K_id K_containment v) as [d2 ->]; [done|].
    apply categorize_fields_last_id. }
  destruct url as [|c url]; cbn [truthy]; [by rewrite Hc|].
  destruct (truthy (extract_id_from_url U (c :: url))); by rewrite Hc.
Qed.

Lemma parse_page_content_no_label (elements : list block) (scp_id : Z) (url : str) :
  (forall e, e ∈ elements -> find_strong e = None) ->
  let from_url := extract_id_from_url U url in
  parse_page_content U elements scp_id url
  = [(K_id, VStr (if truthy from_url then from_url else SCP_PREFIX ++ format_03d scp_id))].
Proof.
  intros H. cbn zeta. unfold parse_page_content, parsed_fields.
  rewrite parse_loop_no_label by done.
  cbn [flush]. unfold ensure_required_fields. cbn [Dict.get Dict.empty].
  assert (forall v, categorize_fields U
                      (fold_left dedup_field [K_description; K_containment]
                         (Dict.put [] K_id v)) = [(K_id, v)]) as Hc.
  { intros v.
    assert (fold_left dedup_field [K_description; K_containment] (Dict.put [] K_id v)
            = [(K_id, v)]) as -> by reflexivity.
    unfold categorize_fields.
    change (Dict.get [(K_id, v)] K_more_info) with (@None value).
    cbn [fold_left]. unfold categorize_step. cbn [fst snd].
    change (str_eqb K_id K_more_info) with false. cbn iota.
    rewrite (normalize_key_id U HU). reflexivity. }
  destruct url as [|c url]; cbn [truthy]; [by rewrite Hc|].
  destruct (truthy (extract_id_from_url U (c :: url))); by rewrite Hc.
Qed.

Lemma take_while_spec (p : Z -> bool) (s : str) :
  Forall (fun c => p c = true /\ c ∈ s) (take_while p s).
Proof.
  induction s as [|c s IH]; cbn; [constructor|].
  destruct (p c) eqn:E; [|constructor].
  constructor; [split; [done|left]|].
  eapply Forall_impl; [exact IH|]. intros x [? ?]. split; [done|by right].
Qed.

Lemma search_scp_digits (url : str) (digits : str) :
  search_scp U url = Some digits ->
  digits <> [] /\ Forall (fun c => re_digit U c = true /\ c ∈ url) digits.
Proof.
  induction url as [|c url IH]; cbn [search_scp]; [done|].
  destruct (match_scp_at U (c :: url)) as [ds|] eqn:E.
  - intros [= ->]. unfold match_scp_at in E.
    destruct url as [|c2 [|c3 [|c4 t]]]; try done.
    destruct (_ && _); [|done].
    destruct (take_while (re_digit U) t) as [|d ds] eqn:Et; [done|].
    injection E as <-. split; [done|]. rewrite <- Et.
    eapply Forall_impl; [apply take_while_spec|].
    intros x [? ?]. split; [done|]. by do 4 right.
  - intros H. destruct (IH H) as [? Hf]. split; [done|].
    eapply Forall_impl; [exact Hf|]. intros x [? ?]. split; [done|by right].
Qed.

Lemma str_of_uint_digits (d : Decimal.uint) : forallb ascii_digit (str_of_uint d) = true.
Proof. induction d; cbn; done. Qed.

Lemma zfill3_digits (s : str) :
  forallb ascii_digit s = true ->
  zfill3 s = zfill_digits 3 s
  /\ forallb ascii_digit (zfill_digits 3 s) = true
  /\ (3 <= length (zfill_digits 3 s))%nat.
Proof.
  intros H. split; [|split].
  - destruct s as [|c s]; [done|]. cbn in H. apply andb_true_iff in H as [Hc _].
    unfold ascii_digit in Hc.
    assert (c = 48 \/ c = 49 \/ c = 50 \/ c = 51 \/ c = 52 \/ c = 53 \/ c = 54
            \/ c = 55 \/ c = 56 \/ c = 57) as Hd by lia.
    repeat (destruct Hd as [->|Hd]; [reflexivity|]). by subst.
  - unfold zfill_digits. rewrite forallb_app, H, andb_true_r.
    apply forallb_forall. intros x Hx. apply repeat_spec in Hx. by subst.
  - unfold zfill_digits. rewrite length_app, repeat_length. lia.
Qed.

Lemma designation_of_digits (s : str) :
  forallb ascii_digit s = true -> is_designation (SCP_PREFIX ++ zfill3 s) = true.
Proof.
  intros H. destruct (zfill3_digits s H) as (-> & Hd & Hl).
  assert (forall x, is_designation (SCP_PREFIX ++ x)
                    = (3 <=? length x)%nat && forallb ascii_digit x) as E
    by (intros [|c x]; reflexivity).
  rewrite E, Hd, andb_true_r. by apply Nat.leb_le.
Qed.

Lemma format_03d_designation (n : Z) :
  0 <= n -> is_designation (SCP_PREFIX ++ format_03d n) = true.
Proof.
  intros Hn. unfold format_03d, str_of_Z.
  destruct (Z.ltb_spec n 0); [lia|]. apply designation_of_digits, str_of_uint_digits.
Qed.

Lemma extract_id_designation (url : str) :
  Forall (fun c => 0 <= c < 128) url ->
  extract_id_from_url U url = [] \/ is_designation (extract_id_from_url U url) = true.
Proof.
  intros Hurl. unfold extract_id_from_url.
  destruct (search_scp U url) as [digits|] eqn:E; [right|by left].
  apply search_scp_digits in E as [_ Hd]. apply designation_of_digits.
  apply forallb_forall. intros c Hc. apply list_elem_of_In in Hc.
  rewrite Forall_forall in Hd. destruct (Hd _ Hc) as [Hr Hin].
  rewrite Forall_forall in Hurl. by rewrite <- (re_digit_ascii U HU) by auto.
Qed.

(** *** The first token of a URL *)

Lemma ascii_lower_range (c : Z) :
  (65 <= c <= 90 /\ ascii_lower c = c + 32) \/ (~ 65 <= c <= 90 /\ ascii_lower c = c).
Proof. unfold ascii_lower. destruct ((65 <=? c) && (c <=? 90)) eqn:E; [left|right]; lia. Qed.

Lemma ci_match_reads (letter c : Z) :
  letter = 115 \/ letter = 99 \/ letter = 112 ->
  ci_match letter c = true <-> reads_letter letter c.
Proof.
  intros Hl. unfold ci_match, reads_letter.
  assert (ascii_lower letter = letter) as ->
    by (destruct Hl as [->|[->| ->]]; reflexivity).
  rewrite orb_true_iff, andb_true_iff, !Z.eqb_eq. tauto.
Qed.

Lemma ci_match_hyphen (c : Z) : ci_match 45 c = true <-> c = 45.
Proof.
  unfold ci_match. change (ascii_lower 45) with 45. change (45 =? 115) with false.
  rewrite andb_false_l, orb_false_r, Z.eqb_eq.
  destruct (ascii_lower_range c) as [[? ->]|[? ->]]; lia.
Qed.

Lemma take_while_app (p : Z -> bool) (ds rest : str) :
  Forall (fun d => p d = true) ds ->
  match rest with d :: _ => p d = false | [] => True end ->
  take_while p (ds ++ rest) = ds.
Proof.
  intros Hd Hr. induction Hd as [|d ds Hp Hd IH]; cbn [app take_while].
  - destruct rest as [|d rest]; [done|]. cbn. by rewrite Hr.
  - by rewrite Hp, IH.
Qed.

Lemma match_scp_at_token (t digits rest : str) :
  token_letters t -> digits <> [] ->
  Forall (fun d => re_digit U d = true) digits ->
  match rest with d :: _ => re_digit U d = false | [] => True end ->
  match_scp_at U (t ++ digits ++ rest) = Some digits.
Proof.
  intros (c1 & c2 & c3 & -> & H1 & H2 & H3) Hne Hd Hr. cbn [app match_scp_at].
  apply ci_match_reads in H1, H2, H3; try tauto.
  rewrite H1, H2, H3, (proj2 (ci_match_hyphen 45) eq_refl). cbn [andb].
  rewrite take_while_app by done. by destruct digits.
Qed.

Lemma match_scp_at_inv (s digits : str) :
  match_scp_at U s = Some digits ->
  exists t d b, s = t ++ d :: b /\ token_letters t /\ re_digit U d = true.
Proof.
  unfold match_scp_at. destruct s as [|c1 [|c2 [|c3 [|c4 s]]]]; try done.
  destruct (ci_match 115 c1) eqn:E1; [|done]. destruct (ci_match 99 c2) eqn:E2; [|done].
  destruct (ci_match 112 c3) eqn:E3; [|done]. destruct (ci_match 45 c4) eqn:E4; [|done].
  cbn [andb]. destruct s as [|d b]; [done|]. cbn [take_while].
  destruct (re_digit U d) eqn:Ed; [|done]. intros _.
  apply ci_match_hyphen in E4 as ->.
  apply ci_match_reads in E1, E2, E3; try tauto.
  exists [c1; c2; c3; 45], d, b. split; [done|]. split; [|done].
  by exists c1, c2, c3.
Qed.

Lemma search_scp_unfold (s : str) :
  search_scp U s
  = match match_scp_at U s with
    | Some digits => Some digits
    | None => match s with [] => None | _ :: t => search_scp U t end
    end.
Proof. by destruct s. Qed.

Lemma search_scp_first (pre : str) :
  forall (before s digits : str),
    match_scp_at U s = Some digits ->
    (forall a t d b,
       before ++ pre ++ s = a ++ t ++ d :: b -> (length a < length (before ++ pre))%nat ->
       token_letters t -> re_digit U d = false) ->
    search_scp U (pre ++ s) = Some digits.
Proof.
  induction pre as [|c pre IH]; intros before s digits Hm Hno.
  - cbn [app]. by rewrite search_scp_unfold, Hm.
  - cbn [app]. rewrite search_scp_unfold.
    destruct (match_scp_at U (c :: pre ++ s)) as [ds|] eqn:E.
    + apply match_scp_at_inv in E as (t & d & b & E & Ht & Hd).
      rewrite (Hno before t d b) in Hd; [done| | |done].
      * cbn [app]. by rewrite E.
      * rewrite length_app. cbn [length]. lia.
    + apply (IH (before ++ [c])); [done|].
      intros a t d b Ha Hl Ht. apply (Hno a t d b); [| |done].
      * by rewrite <- Ha, <- !app_assoc.
      * rewrite !length_app in *. cbn [length] in *. lia.
Qed.

Lemma search_scp_none (s : str) :
  forall before : str,
    (forall a t d b, before ++ s = a ++ t ++ d :: b -> token_letters t ->
                     re_digit U d = false) ->
    search_scp U s = None.
Proof.
  induction s as [|c s IH]; intros before Hno; rewrite search_scp_unfold.
  - done.
  - destruct (match_scp_at U (c :: s)) as [ds|] eqn:E.
    + apply match_scp_at_inv in E as (t & d & b & E & Ht & Hd).
      rewrite (Hno before t d b) in Hd; [done| |done]. by rewrite E.
    + apply (IH (before ++ [c])). intros a t d b Ha Ht. apply (Hno a t d b); [|done].
      by rewrite <- Ha, <- !app_assoc.
Qed.

Lemma zfill3_unsigned (d : Z) (ds : str) :
  d <> 45 -> d <> 43 -> zfill3 (d :: ds) = zfill_digits 3 (d :: ds).
Proof.
  intros H1 H2. unfold zfill3. destruct d as [|p|p]; try done.
  do 6 (try (destruct p as [p|p|]; try done)).
Qed.

Lemma extract_id_first_token (url pre digits rest : str) :
  first_scp_token U url pre digits rest ->
  extract_id_from_url U url = SCP_PREFIX ++ repeat 48 (3 - length digits) ++ digits.
Proof.
  intros (t & -> & Ht & Hne & Hd & Hr & Hno). unfold extract_id_from_url.
  rewrite (search_scp_first pre [] (t ++ digits ++ rest) digits).
  - destruct digits as [|d ds]; [done|]. apply Forall_cons in Hd as [Hd0 _].
    rewrite zfill3_unsigned; [done|..]; intros ->;
      rewrite (re_digit_ascii U HU) in Hd0 by lia; done.
  - by apply match_scp_at_token.
  - intros a t' d b. cbn [app]. apply (Hno a t' d b).
Qed.

Lemma extract_id_no_token (url : str) :
  no_scp_token U url -> extract_id_from_url U url = [].
Proof.
  intros Hno. unfold extract_id_from_url. by rewrite (search_scp_none url []).
Qed.

End Parse.

(** C2, as the code has it.  For every block sequence, identifier and URL the
    record has an [id] that is a non-empty text.  When the fields read from
    the blocks have no [id], the [id] is the digits of the first scp-digits
    token of the URL, zero-padded to 3 digits after [SCP-], when the URL has
    one, and otherwise the identifier in the format [SCP-%03d]; both have the
    shape of a designation (for a URL of Basic Latin characters and a
    non-negative identifier).  When no block has an emphasised label the
    record is that [id] alone, and identifier 7 with an empty URL gives
    [SCP-007].  An [id] read from the blocks is left as it is by
    [ensure_required_fields], whatever its shape. *)
Theorem parse_page_content_id (U : TextDB) (elements : list block) (scp_id : Z) (url : str) :
  TextDB_ok U ->
  (exists s, Dict.get (parse_page_content U elements scp_id url) K_id = Some (VStr s)
             /\ truthy s = true)
  /\ (forall v, Dict.get (parsed_fields U elements) K_id = Some v ->
        Dict.get (ensure_required_fields U (parsed_fields U elements) scp_id url) K_id
        = Some v)
  /\ (Dict.get (parsed_fields U elements) K_id = None ->
      let from_url := extract_id_from_url U url in
      Dict.get (parse_page_content U elements scp_id url) K_id
      = Some (VStr (if truthy from_url then from_url else SCP_PREFIX ++ format_03d scp_id)))
  /\ ((forall e, e ∈ elements -> find_strong e = None) ->
      let from_url := extract_id_from_url U url in
      parse_page_content U elements scp_id url
      = [(K_id, VStr (if truthy from_url then from_url else SCP_PREFIX ++ format_03d scp_id))])
  /\ (0 <= scp_id -> is_designation (SCP_PREFIX ++ format_03d scp_id) = true)
  /\ (Forall (fun c => 0 <= c < 128) url ->
      extract_id_from_url U url = [] \/ is_designation (extract_id_from_url U url) = true)
  /\ parse_page_content U [] 7 [] = [(u "id", VStr (u "SCP-007"))]
  /\ (forall pre digits rest,
        first_scp_token U url pre digits rest ->
        extract_id_from_url U url
        = SCP_PREFIX ++ repeat 48 (3 - length digits) ++ digits)
  /\ (no_scp_token U url -> extract_id_from_url U url = [])
  /\ (Dict.get (parsed_fields U elements) K_id = None ->
      forall pre digits rest,
        first_scp_token U url pre digits rest ->
        Dict.get (parse_page_content U elements scp_id url) K_id
        = Some (VStr (SCP_PREFIX ++ repeat 48 (3 - length digits) ++ digits)))
  /\ (Dict.get (parsed_fields U elements) K_id = None ->
      no_scp_token U url ->
      Dict.get (parse_page_content U elements scp_id url) K_id
      = Some (VStr (SCP_PREFIX ++ format_03d scp_id))).
Proof.
  intros HU. split; [by apply parse_page_content_has_id|].
  split; [intros v; by apply ensure_required_fields_keeps_id|].
  split; [by apply parse_page_content_fills_id|].
  split; [by apply parse_page_content_no_label|].
  split; [apply format_03d_designation|].
  split; [by apply extract_id_designation|].
  split.
  { rewrite (parse_page_content_no_label U HU) by (intros e He; by apply elem_of_nil in He).
    reflexivity. }
  split; [intros pre digits rest; by apply extract_id_first_token|].
  split; [by apply extract_id_no_token|].
  split.
  - intros Hno pre digits rest Ht.
    rewrite (parse_page_content_fills_id U HU) by done. cbn zeta.
    by rewrite (extract_id_first_token U HU url pre digits rest Ht).
  - intros Hno Hnt. rewrite (parse_page_content_fills_id U HU) by done. cbn zeta.
    by rewrite (extract_id_no_token U url Hnt).
Qed.

(** A document that supplies its [id], and one without label whose address
    holds the token [SCP-8] after a slash, read with the tables of the two
    scripts. *)
Lemma parse_page_content_id_witness :
  (exists s,
     Dict.get
       (parse_page_content basic_db
          [ {| get_text := u "项目编号：SCP-173"; find_strong := Some (u "项目编号：") |} ]
          173 (u "http://scp-wiki-cn.wikidot.com/scp-173")) K_id = Some (VStr s)
     /\ truthy s = true)
  /\ first_scp_token basic_db (u "/SCP-8.jpg") (u "/") (u "8") (u ".jpg")
  /\ Dict.get (parse_page_content basic_db [] 7 (u "/SCP-8.jpg")) K_id
     = Some (VStr (u "SCP-008")).
Proof.
  split.
  { exact (proj1 (parse_page_content_id basic_db
                    [ {| get_text := u "项目编号：SCP-173";
                         find_strong := Some (u "项目编号：") |} ]
                    173 (u "http://scp-wiki-cn.wikidot.com/scp-173") basic_db_ok)). }
  assert (first_scp_token basic_db (u "/SCP-8.jpg") (u "/") (u "8") (u ".jpg")) as Ht.
  { exists (u "SCP-"). split; [vm_compute; reflexivity|]. split.
    { exists 83, 67, 80. split; [vm_compute; reflexivity|].
      repeat split; left; reflexivity. }
    split; [discriminate|]. split; [repeat constructor|]. split; [reflexivity|].
    intros a t' d b E Hl (c1 & c2 & c3 & -> & H1 & _).
    destruct a as [|x a];
      [|change (length (u "/")) with 1%nat in Hl; cbn [length] in Hl; lia].
    vm_compute in E. injection E as <- _.
    destruct H1 as [H1|[_ H1]]; vm_compute in H1; discriminate H1. }
  split; [exact Ht|].
  destruct (parse_page_content_id basic_db [] 7 (u "/SCP-8.jpg") basic_db_ok)
    as (_ & _ & _ & _ & _ & _ & _ & _ & _ & H & _).
  rewrite (H eq_refl (u "/") (u "8") (u ".jpg") Ht). reflexivity.
Defined.

(** C2 as stated fails: the [id] a document supplies under an id label is
    kept whatever its shape, and without label the digits of the URL win over
    the identifier. *)
Lemma parse_page_content_id_not_designation :
  Dict.get
    (parse_page_content basic_db
       [ {| get_text := u "项目编号：待定"; find_strong := Some (u "项目编号：") |} ] 7 [])
    K_id = Some (VStr (u "待定"))
  /\ is_designation (u "待定") = false
  /\ parse_page_content basic_db [] 7 (u "http://scp-wiki-cn.wikidot.com/scp-008")
     = [(K_id, VStr (u "SCP-008"))].
Proof. repeat split; vm_compute; reflexivity. Qed.

End ParseProps.

(** ** The value sanitiser *)

Module CleanProps.

Import SCPParser Design Invariants.

(** *** White space *)

Lemma ws_from_true_head (s : str) :
  match ws_from true s with d :: _ => isspace d = false | [] => True end.
Proof.
  induction s as [|c s IH]; cbn; [done|]. destruct (isspace c) eqn:E; done.
Qed.

Lemma ws_from_spaced (s : str) : forall b, spaced (ws_from b s) = true.
Proof.
  induction s as [|c s IH]; intros b; cbn [ws_from]; [done|].
  destruct (isspace c) eqn:E.
  - destruct b; [apply IH|]. cbn [spaced]. rewrite IH, andb_true_r.
    change (isspace 32) with true. cbn [Z.eqb Pos.eqb andb].
    pose proof (ws_from_true_head s) as H. destruct (ws_from true s); [done|].
    by rewrite H.
  - cbn [spaced]. by rewrite E, IH.
Qed.

Lemma spaced_tail (c : Z) (s : str) : spaced (c :: s) = true -> spaced s = true.
Proof. cbn [spaced]. intros H. by apply andb_true_iff in H as [_ H]. Qed.

Lemma spaced_ws_from (s : str) :
  spaced s = true ->
  ws_from false s = s
  /\ (match s with d :: _ => isspace d = false | [] => True end -> ws_from true s = s).
Proof.
  induction s as [|c s IH]; [done|]. intros H.
  pose proof (spaced_tail _ _ H) as Ht. destruct (IH Ht) as [IH1 IH2].
  cbn [spaced] in H. apply andb_true_iff in H as [H _].
  cbn [ws_from]. destruct (isspace c) eqn:E.
  - apply andb_true_iff in H as [Hc Hd]. apply Z.eqb_eq in Hc. subst c.
    split; [|done]. f_equal. apply IH2. destruct s; [done|]. by apply negb_true_iff.
  - split; [|intros _]; by rewrite IH1.
Qed.

Lemma spaced_lstrip_by (p : Z -> bool) (s : str) :
  spaced s = true -> spaced (lstrip_by p s) = true.
Proof.
  induction s as [|c s IH]; [done|]. intros H. cbn [lstrip_by].
  destruct (p c); [|done]. apply IH. by eapply spaced_tail.
Qed.

Lemma rstrip_by_head (p : Z -> bool) (s : str) (d : Z) (r : str) :
  rstrip_by p s = d :: r -> exists r', s = d :: r'.
Proof.
  destruct s as [|c s]; cbn; [done|].
  destruct (rstrip_by p s); [destruct (p c)|]; intros [= -> _]; eauto.
Qed.

Lemma spaced_rstrip_by (p : Z -> bool) (s : str) :
  spaced s = true -> spaced (rstrip_by p s) = true.
Proof.
  induction s as [|c s IH]; [done|]. intros H.
  pose proof (IH (spaced_tail _ _ H)) as IH'.
  cbn [spaced] in H. apply andb_true_iff in H as [H _].
  cbn [rstrip_by]. destruct (rstrip_by p s) as [|d r] eqn:E.
  - destruct (p c); [done|]. cbn [spaced]. rewrite andb_true_r.
    destruct (isspace c); [|done]. apply andb_true_iff in H as [-> _]. done.
  - cbn [spaced] in *. rewrite IH', andb_true_r.
    destruct (isspace c); [|done]. apply andb_true_iff in H as [-> H]. cbn [andb].
    apply rstrip_by_head in E as [r' ->]. done.
Qed.

Lemma lstrip_by_fixed (p : Z -> bool) (s : str) :
  match s with d :: _ => p d = false | [] => True end -> lstrip_by p s = s.
Proof. destruct s as [|d s]; cbn; [done|]. by intros ->. Qed.

Lemma lstrip_by_head (p : Z -> bool) (s : str) :
  match lstrip_by p s with d :: _ => p d = false | [] => True end.
Proof.
  induction s as [|c s IH]; cbn; [done|]. destruct (p c) eqn:E; done.
Qed.

Lemma rstrip_by_idem (p : Z -> bool) (s : str) :
  rstrip_by p (rstrip_by p s) = rstrip_by p s.
Proof.
  induction s as [|c s IH]; cbn [rstrip_by]; [done|].
  destruct (rstrip_by p s) as [|d r] eqn:E.
  - destruct (p c) eqn:Ec; [done|]. cbn. by rewrite Ec.
  - cbn [rstrip_by]. cbn [rstrip_by] in IH. by rewrite IH.
Qed.

Lemma strip_idem (s : str) : strip (strip s) = strip s.
Proof.
  unfold strip, rstrip, lstrip.
  rewrite (lstrip_by_fixed isspace (rstrip_by isspace (lstrip_by isspace s))).
  - apply rstrip_by_idem.
  - pose proof (lstrip_by_head isspace s) as H.
    destruct (rstrip_by isspace (lstrip_by isspace s)) as [|d r] eqn:E; [done|].
    apply rstrip_by_head in E as [r' E]. by rewrite E in H.
Qed.

Lemma spaced_colon_prefix_sub (s : str) :
  spaced s = true -> spaced (colon_prefix_sub s) = true.
Proof.
  destruct s as [|c s]; [done|]. intros H. cbn [colon_prefix_sub].
  destruct (is_colon c); [|done]. apply spaced_lstrip_by. by eapply spaced_tail.
Qed.

(** *** Redaction markers *)

Lemma redact_from_skip (s : str) :
  forall k, redact_from k s = redact_from O (drop k s).
Proof.
  induction s as [|c s IH]; intros [|k]; try done. cbn [redact_from drop]. apply IH.
Qed.

Lemma match_marker_Some (s : str) (n : nat) :
  match_marker s = Some n ->
  exists m, m ∈ REDACT_MARKERS /\ ci_prefix m s = true /\ n = length m.
Proof.
  unfold match_marker. destruct (List.find _ _) as [m|] eqn:E; [|done].
  intros [= <-]. apply List.find_some in E as [Hin Hm]. exists m.
  by rewrite list_elem_of_In.
Qed.

Lemma match_marker_None (s : str) (m : str) :
  match_marker s = None -> m ∈ REDACT_MARKERS -> ci_prefix m s = false.
Proof.
  unfold match_marker. destruct (List.find _ _) as [m'|] eqn:E; [done|].
  intros _ Hin. apply list_elem_of_In in Hin. by eapply List.find_none in E.
Qed.

Lemma ci_prefix_length (m s : str) : ci_prefix m s = true -> (length m <= length s)%nat.
Proof.
  revert s. induction m as [|p m IH]; intros [|c s]; cbn; try done; try lia.
  intros H. apply andb_true_iff in H as [_ H]. apply IH in H. lia.
Qed.

Lemma ci_prefix_app (m s z : str) : ci_prefix m s = true -> ci_prefix m (s ++ z) = true.
Proof.
  revert s. induction m as [|p m IH]; intros [|c s]; cbn; try done.
  intros H. apply andb_true_iff in H as [-> H]. by apply IH.
Qed.

Lemma startswith_app_inv (a z m : str) :
  startswith (a ++ z) m = true -> (length m <= length a)%nat -> startswith a m = true.
Proof.
  revert a. induction m as [|p m IH]; intros [|c a]; cbn; try done; try lia.
  intros H Hl. apply andb_true_iff in H as [-> H]. apply IH; [done|lia].
Qed.

Lemma startswith_spec (s m : str) : startswith s m = true <-> exists r, s = m ++ r.
Proof.
  revert s. induction m as [|p m IH]; intros s.
  - destruct s; cbn; split; eauto.
  - destruct s as [|c s]; cbn.
    + split; [done|]. by intros [r ?].
    + rewrite andb_true_iff, IH, Z.eqb_eq. split.
      * intros [-> [r ->]]. eauto.
      * intros [r [= -> ->]]. eauto.
Qed.

(** The markers: an opening bracket, then characters that no opening bracket
    matches. *)
Lemma marker_shape (m : str) :
  m ∈ REDACT_MARKERS ->
  exists body, m = 91 :: body /\ Forall (fun p => ci_match p 91 = false) body.
Proof.
  unfold REDACT_MARKERS. rewrite !elem_of_cons, elem_of_nil.
  intros [->|[->|[->|[->|[->|[->|[]]]]]]]; eexists; (split; [reflexivity|]);
    repeat constructor.
Qed.

Lemma ci_match_bracket (c : Z) : ci_match 91 c = true -> c = 91.
Proof.
  unfold ci_match. change (ascii_lower 91) with 91. unfold ascii_lower.
  destruct ((65 <=? c) && (c <=? 90)) eqn:E; lia.
Qed.

(** A marker found in the output behind a bracket was in the input. *)
Lemma ci_prefix_redact (body : str) :
  Forall (fun p => ci_match p 91 = false) body ->
  forall t, ci_prefix body (redact_from O t) = true -> ci_prefix body t = true.
Proof.
  induction 1 as [|p body Hp Hbody IH]; intros t; [done|].
  destruct t as [|d t]; [done|]. cbn [redact_from].
  destruct (match_marker (d :: t)) as [n|] eqn:E.
  - cbn. by rewrite Hp.
  - cbn. intros H. apply andb_true_iff in H as [-> H]. by apply IH.
Qed.

(** At the canonical token only the canonical marker matches. *)
Lemma canonical_at_token (r : str) : canonical_at (REDACTED ++ r).
Proof.
  intros m Hm. unfold REDACT_MARKERS in Hm. rewrite !elem_of_cons, elem_of_nil in Hm.
  destruct Hm as [->|[->|[->|[->|[->|[->|[]]]]]]]; cbn; try done.
  intros _. split; [done|]. apply startswith_spec. by exists r.
Qed.

Lemma canonical_at_no_bracket (c : Z) (r : str) : c <> 91 -> canonical_at (c :: r).
Proof.
  intros Hc m Hm Hp. apply marker_shape in Hm as (body & -> & _).
  cbn in Hp. apply andb_true_iff in Hp as [Hp _]. by apply ci_match_bracket in Hp.
Qed.

Lemma suffix_cons_cases (t : str) (c : Z) (s : str) :
  t `suffix_of` c :: s -> t = c :: s \/ t `suffix_of` s.
Proof.
  intros [[|d k] Hk]; [by left|right]. injection Hk as -> ->. by exists k.
Qed.

Lemma only_canonical_cons (c : Z) (s : str) :
  canonical_at (c :: s) -> only_canonical s -> only_canonical (c :: s).
Proof.
  intros Hc Hs t Ht. apply suffix_cons_cases in Ht as [->|Ht]; [done|by apply Hs].
Qed.

Lemma only_canonical_token (r : str) : only_canonical r -> only_canonical (REDACTED ++ r).
Proof.
  intros Hr. unfold REDACTED. cbn [app].
  apply only_canonical_cons; [apply (canonical_at_token r)|].
  repeat (apply only_canonical_cons; [by apply canonical_at_no_bracket|]). done.
Qed.

Lemma redact_from_canonical (n : nat) :
  forall s, (length s <= n)%nat -> only_canonical (redact_from O s).
Proof.
  induction n as [|n IH]; intros s Hl.
  - destruct s; [|cbn in Hl; lia]. intros t Ht. apply suffix_nil_inv in Ht as ->.
    intros m Hm Hp. apply marker_shape in Hm as (body & -> & _). done.
  - destruct s as [|c s]; [apply (IH []); cbn; lia|]. cbn in Hl.
    cbn [redact_from]. destruct (match_marker (c :: s)) as [k|] eqn:E.
    + rewrite redact_from_skip. apply only_canonical_token, IH.
      rewrite length_drop. lia.
    + apply only_canonical_cons; [|apply IH; lia].
      intros m Hm Hp. pose proof (match_marker_None _ _ E Hm) as Hno.
      apply marker_shape in Hm as (body & -> & Hb).
      cbn in Hp, Hno. apply andb_true_iff in Hp as [Hc Hp].
      apply (ci_prefix_redact _ Hb) in Hp. by rewrite Hc, Hp in Hno.
Qed.

Lemma redact_sub_canonical (s : str) : only_canonical (redact_sub s).
Proof. by apply (redact_from_canonical (length s)). Qed.

(** A text with canonical tokens only is left as it is. *)
Lemma only_canonical_fixed (n : nat) :
  forall s, (length s <= n)%nat -> only_canonical s -> redact_from O s = s.
Proof.
  induction n as [|n IH]; intros s Hl Hs.
  - destruct s; [done|cbn in Hl; lia].
  - destruct s as [|c s]; [done|]. cbn in Hl. cbn [redact_from].
    destruct (match_marker (c :: s)) as [k|] eqn:E.
    + apply match_marker_Some in E as (m & Hm & Hp & ->).
      destruct (Hs (c :: s) ltac:(done) m Hm Hp) as [-> Hst].
      apply startswith_spec in Hst as [r Hr].
      rewrite redact_from_skip.
      assert (drop (Nat.pred (length REDACTED)) s = r) as ->.
      { unfold REDACTED in Hr |- *. cbn in Hr. injection Hr as -> ->. done. }
      rewrite Hr. f_equal. apply IH.
      * apply (f_equal length) in Hr. rewrite length_app in Hr. cbn in Hr. lia.
      * intros t Ht. apply Hs. rewrite Hr. by apply suffix_app_r.
    + f_equal. apply IH; [lia|]. intros t Ht. apply Hs. by apply suffix_cons_r.
Qed.

(** *** Markers across the white-space pass *)

Lemma ci_match_space (p c : Z) : ci_match p c = true -> isspace p = false -> isspace c = false.
Proof.
  unfold ci_match, ascii_lower, isspace.
  destruct ((65 <=? c) && (c <=? 90)) eqn:Ec; destruct ((65 <=? p) && (p <=? 90)) eqn:Ep; lia.
Qed.

Lemma ci_prefix_ws_from (m : str) :
  Forall (fun p => isspace p = false) m ->
  forall t, ci_prefix m (ws_from false t) = true -> ci_prefix m t = true.
Proof.
  induction 1 as [|p m Hp Hm IH]; intros t; [done|].
  destruct t as [|c t]; [done|]. cbn [ws_from].
  destruct (isspace c) eqn:E; cbn [ci_prefix]; intros H; apply andb_true_iff in H as [Hc H].
  - pose proof (ci_match_space _ _ Hc Hp) as Hx. vm_compute in Hx. done.
  - rewrite Hc. by apply IH.
Qed.

Lemma startswith_ws_from (m : str) :
  Forall (fun p => isspace p = false) m ->
  forall t, startswith t m = true -> startswith (ws_from false t) m = true.
Proof.
  induction 1 as [|p m Hp Hm IH]; intros t.
  - intros _. by destruct (ws_from false t).
  - destruct t as [|c t]; [done|]. cbn [startswith]. intros H.
    apply andb_true_iff in H as [Hc H]. apply Z.eqb_eq in Hc. subst c.
    cbn [ws_from]. rewrite Hp. cbn [startswith]. rewrite Z.eqb_refl. by apply IH.
Qed.

Lemma ws_from_suffix (x : str) :
  forall b d r,
    d :: r `suffix_of` ws_from b x -> isspace d = false ->
    exists t, t `suffix_of` x /\ d :: r = ws_from false t.
Proof.
  induction x as [|c x IH]; intros b d r Hs Hd; cbn [ws_from] in Hs.
  - by apply suffix_nil_inv in Hs.
  - destruct (isspace c) eqn:E.
    + assert (d :: r `suffix_of` ws_from true x) as Hs'.
      { destruct b; [done|]. apply suffix_cons_cases in Hs as [Hs|Hs]; [|done].
        injection Hs as -> _. cbn in Hd. done. }
      destruct (IH _ _ _ Hs' Hd) as (t & Ht & Heq). exists t. split; [|done].
      by apply suffix_cons_r.
    + apply suffix_cons_cases in Hs as [Hs|Hs].
      * exists (c :: x). split; [done|]. cbn [ws_from]. by rewrite E.
      * destruct (IH _ _ _ Hs Hd) as (t & Ht & Heq). exists t. split; [|done].
        by apply suffix_cons_r.
Qed.

Lemma marker_no_space (m : str) :
  m ∈ REDACT_MARKERS -> m <> DATA_EXPUNGED -> Forall (fun p => isspace p = false) m.
Proof.
  unfold REDACT_MARKERS. rewrite !elem_of_cons, elem_of_nil.
  intros [->|[->|[->|[->|[->|[->|[]]]]]]] Hne; try done; repeat constructor.
Qed.

Lemma ws_sub_markers (x : str) :
  only_canonical x ->
  forall t m,
    t `suffix_of` ws_sub x -> m ∈ REDACT_MARKERS -> m <> DATA_EXPUNGED ->
    ci_prefix m t = true ->
    m = REDACTED /\ startswith t REDACTED = true.
Proof.
  intros Hx t m Ht Hm Hne Hp.
  pose proof (marker_no_space m Hm Hne) as Hns.
  destruct (marker_shape m Hm) as (body & Em & _).
  destruct t as [|d r]; [by rewrite Em in Hp|].
  assert (isspace d = false) as Hd.
  { rewrite Em in Hp. cbn in Hp. apply andb_true_iff in Hp as [Hp _].
    apply ci_match_bracket in Hp. by subst. }
  destruct (ws_from_suffix _ _ _ _ Ht Hd) as (t & Hts & Heq).
  rewrite Heq in Hp |- *. apply (ci_prefix_ws_from _ Hns) in Hp.
  destruct (Hx t Hts m Hm Hp) as [-> Hst]. split; [done|].
  by apply (startswith_ws_from _ Hns).
Qed.

(** *** The sanitised value within the text after the two substitutions *)

Lemma lstrip_by_suffix (p : Z -> bool) (s : str) : lstrip_by p s `suffix_of` s.
Proof.
  induction s as [|c s IH]; cbn; [done|]. destruct (p c); [by apply suffix_cons_r|done].
Qed.

Lemma rstrip_by_prefix (p : Z -> bool) (s : str) : rstrip_by p s `prefix_of` s.
Proof.
  induction s as [|c s IH]; cbn; [done|].
  destruct (rstrip_by p s) as [|d r].
  - destruct (p c); [apply prefix_nil|]. by apply prefix_cons, prefix_nil.
  - by apply prefix_cons.
Qed.

Lemma colon_prefix_sub_suffix (s : str) : colon_prefix_sub s `suffix_of` s.
Proof.
  destruct s as [|c s]; cbn; [done|]. destruct (is_colon c); [|done].
  apply suffix_cons_r, lstrip_by_suffix.
Qed.

Lemma sanitized_within (v : str) :
  exists z, strip (colon_prefix_sub v) ++ z `suffix_of` v.
Proof.
  destruct (rstrip_by_prefix isspace (lstrip (colon_prefix_sub v))) as [z Hz].
  exists z. unfold strip, rstrip. rewrite <- Hz.
  etrans; [apply lstrip_by_suffix|apply colon_prefix_sub_suffix].
Qed.

Lemma has_marker_false (m s t : str) :
  has_marker m s = false -> t `suffix_of` s -> ci_prefix m t = false.
Proof.
  induction s as [|c s IH]; cbn [has_marker]; intros H Ht.
  - apply suffix_nil_inv in Ht as ->. by apply orb_false_iff in H as [H _].
  - apply orb_false_iff in H as [H1 H2].
    apply suffix_cons_cases in Ht as [->|Ht]; [done|by apply IH].
Qed.

Lemma sanitized_only_canonical (s : str) :
  let c := strip (colon_prefix_sub (ws_sub (redact_sub s))) in
  has_marker DATA_EXPUNGED c = false -> only_canonical c.
Proof.
  intros c Hde t Ht m Hm Hp.
  destruct (decide (m = DATA_EXPUNGED)) as [->|Hne].
  { by rewrite (has_marker_false _ _ _ Hde Ht) in Hp. }
  destruct (sanitized_within (ws_sub (redact_sub s))) as [z Hz]. fold c in Hz.
  assert (t ++ z `suffix_of` ws_sub (redact_sub s)) as Htz.
  { etrans; [|exact Hz]. by apply suffix_app. }
  destruct (ws_sub_markers _ (redact_sub_canonical s) _ m Htz Hm Hne (ci_prefix_app _ _ z Hp))
    as [-> Hst].
  split; [done|]. apply (startswith_app_inv _ z); [done|]. by apply ci_prefix_length.
Qed.

(** C3, as the code has it.  Sanitising a sanitised value returns it
    unchanged when the sanitised value does not begin with a colon (the
    pattern strips one leading colon only) and holds no spelling of
    [[DATA EXPUNGED]] (one can appear when the white space between the two
    words is collapsed, after the markers were replaced). *)
Theorem clean_value_idempotent (s : str) :
  starts_with_colon (clean_value s) = false ->
  has_marker DATA_EXPUNGED (clean_value s) = false ->
  clean_value (clean_value s) = clean_value s.
Proof.
  destruct s as [|a s]; [intros _ _; reflexivity|].
  change (clean_value (a :: s))
    with (strip (colon_prefix_sub (ws_sub (redact_sub (a :: s))))).
  set (c := strip (colon_prefix_sub (ws_sub (redact_sub (a :: s))))).
  intros Hcolon Hde. unfold clean_value. destruct (negb (truthy c)) eqn:Ec.
  { destruct c; [done|discriminate]. }
  assert (redact_sub c = c) as ->.
  { apply (only_canonical_fixed (length c)); [done|]. by apply sanitized_only_canonical. }
  assert (spaced c = true) as Hsp.
  { apply spaced_rstrip_by, spaced_lstrip_by, spaced_colon_prefix_sub, ws_from_spaced. }
  assert (ws_sub c = c) as -> by by apply spaced_ws_from.
  assert (colon_prefix_sub c = c) as ->.
  { destruct c as [|d r]; [done|]. cbn in Hcolon |- *. by rewrite Hcolon. }
  apply strip_idem.
Qed.

(** A value with a marker, a run of white space and one leading colon. *)
Lemma clean_value_idempotent_witness :
  clean_value (u "： [数据删除]  收容于   标准收容间 ") = u "[REDACTED] 收容于 标准收容间"
  /\ clean_value (clean_value (u "： [数据删除]  收容于   标准收容间 "))
     = clean_value (u "： [数据删除]  收容于   标准收容间 ").
Proof.
  split; [vm_compute; reflexivity|].
  apply clean_value_idempotent; vm_compute; reflexivity.
Defined.

(** C3 as stated fails: of two leading colons one is stripped at each pass,
    and a marker whose two words are two spaces apart is only recognised at
    the second pass. *)
Lemma clean_value_not_idempotent :
  clean_value (u "::a") = u ":a"
  /\ clean_value (clean_value (u "::a")) = u "a"
  /\ clean_value (u "[DATA  EXPUNGED]") = u "[DATA EXPUNGED]"
  /\ clean_value (clean_value (u "[DATA  EXPUNGED]")) = u "[REDACTED]".
Proof. repeat split; vm_compute; reflexivity. Qed.

End CleanProps.

(** ** The scraper *)

Module ScrapeProps.

Import Scraper Design Samples.

Lemma no_valid_field_false (d : record) (k : str) :
  Dict.has d k = true -> k <> K_error -> no_valid_field d = false.
Proof.
  intros Hk Hne. unfold no_valid_field. destruct d as [|kv d]; [done|].
  apply not_true_is_false. rewrite forallb_forall. intros H.
  apply DictFacts.has_keys, list_elem_of_In, H, str_eqb_eq in Hk. done.
Qed.

Lemma collected_fields_series (W : Web) (U : TextDB) (id : Z) (scp_name : str)
  (response : reply) (doc : soup) (page : content) (collected : record) :
  collected_fields W U id scp_name response doc page = Some collected ->
  Dict.has collected K_series = true.
Proof.
  unfold collected_fields.
  destruct (extract_images_from_soup _ _ _ _ _) as [images|]; [|done].
  intros H. injection H as <-.
  destruct (extract_tags_from_soup U doc); [|apply DictFacts.has_put];
    (destruct images; [|apply DictFacts.has_put]);
    apply DictFacts.has_update; by destruct (truthy scp_name).
Qed.

(** C1, on the code.  When the warning test of [scrape_scp] is reached the
    record already holds [series] (and [id]), so the test never succeeds and
    the warning is never stored: a document whose content region yields no
    field, no image and no tag comes back with [series], [id] and the
    validation issues only. *)
Theorem warning_test_never_holds (W : Web) (U : TextDB) (id : Z) (scp_name : str)
  (response : reply) (doc : soup) (page : content) :
  (forall collected,
     collected_fields W U id scp_name response doc page = Some collected ->
     no_valid_field collected = false)
  /\ fst (scrape_scp (online empty_page insertion_order) basic_db 7 initial_world)
     = Some [(u "series", VInt 1); (u "id", VStr (u "SCP-007"));
             (u "validation_issues",
              VList [u "缺少推荐字段: class, containment, description"])]
  /\ (forall r, fst (scrape_scp (online empty_page insertion_order) basic_db 7 initial_world)
                = Some r -> Dict.has r K_warning = false /\ is_success r = true).
Proof.
  split; [|split].
  - intros collected Hc.
    eapply no_valid_field_false; [by eapply collected_fields_series|done].
  - vm_compute. reflexivity.
  - intros r. vm_compute. intros [= <-]. done.
Qed.

(** *** Images *)

Lemma first_seen_ext (l : list str) :
  forall s1 s2, (forall x, x ∈ s1 <-> x ∈ s2) -> first_seen s1 l = first_seen s2 l.
Proof.
  induction l as [|url l IH]; intros s1 s2 H; cbn [first_seen]; [done|].
  assert (in_list url s1 = in_list url s2) as ->.
  { apply eq_true_iff_eq. by rewrite !in_list_spec. }
  destruct (in_list url s2); [by apply IH|]. f_equal. apply IH.
  intros x. rewrite !elem_of_cons, H. done.
Qed.

Lemma first_seen_spec (l : list str) :
  forall seen,
    NoDup (first_seen seen l)
    /\ (forall x, x ∈ first_seen seen l <-> x ∈ l /\ x ∉ seen).
Proof.
  induction l as [|url l IH]; intros seen; cbn [first_seen].
  - split; [constructor|]. intros x. rewrite elem_of_nil. tauto.
  - destruct (in_list url seen) eqn:E.
    + apply in_list_spec in E. destruct (IH seen) as [Hnd Hin]. split; [done|].
      intros x. rewrite Hin, elem_of_cons. split; [tauto|].
      intros [[->|?] ?]; [done|tauto].
    + assert (url ∉ seen) as Hn by (rewrite <- in_list_spec; congruence).
      destruct (IH (url :: seen)) as [Hnd Hin]. split.
      * constructor; [|done]. rewrite Hin, elem_of_cons. tauto.
      * intros x. rewrite !elem_of_cons, Hin, elem_of_cons.
        destruct (decide (x = url)) as [->|]; tauto.
Qed.

Lemma first_seen_app (a b : list str) :
  forall seen,
    first_seen seen (a ++ b)
    = first_seen seen a ++ first_seen (rev (first_seen seen a) ++ seen) b.
Proof.
  induction a as [|url a IH]; intros seen; cbn [first_seen app]; [done|].
  destruct (in_list url seen) eqn:E; [apply IH|].
  cbn [app]. f_equal. rewrite IH. f_equal. apply first_seen_ext.
  intros x. cbn [rev]. rewrite !elem_of_app, !elem_of_cons, elem_of_nil. tauto.
Qed.

Lemma add_unseen_spec (keep : str -> bool) (urls : list str) :
  forall (ordered : list str) (seen : gset str),
    (forall x, x ∈ seen <-> x ∈ ordered) ->
    (add_unseen keep urls ordered seen).1
      = rev (first_seen ordered (List.filter keep urls)) ++ ordered
    /\ (forall x, x ∈ (add_unseen keep urls ordered seen).2
                  <-> x ∈ (add_unseen keep urls ordered seen).1).
Proof.
  induction urls as [|url urls IH]; intros ordered seen H; cbn [add_unseen List.filter].
  - done.
  - destruct (keep url) eqn:Ek; cbn [andb]; [|by apply IH].
    cbn [first_seen].
    assert (bool_decide (url ∉ seen) = negb (in_list url ordered)) as ->.
    { destruct (in_list url ordered) eqn:E.
      - apply in_list_spec, H in E. by apply bool_decide_eq_false_2; intros ?.
      - apply bool_decide_eq_true_2. rewrite H, <- in_list_spec. congruence. }
    destruct (in_list url ordered); cbn [negb]; [by apply IH|].
    destruct (IH (url :: ordered) ({[url]} ∪ seen)) as [IH1 IH2].
    { intros x. rewrite elem_of_union, elem_of_singleton, elem_of_cons, H. done. }
    split; [|done]. rewrite IH1. cbn [rev]. by rewrite <- app_assoc.
Qed.

Lemma images_loop_spec (W : Web) (U : TextDB) (scp_id : Z) (page_url : str)
  (imgs : list img) :
  forall (ordered : list str) (seen : gset str),
    (forall x, x ∈ seen <-> x ∈ ordered) ->
    fst <$> images_loop W U (harmonize_id scp_id) page_url imgs ordered seen
    = (fun lists => rev (first_seen ordered (concat lists)) ++ ordered)
      <$> mapM (element_urls W U scp_id page_url) imgs.
Proof.
  induction imgs as [|img_tag imgs IH]; intros ordered seen H; [done|].
  cbn [images_loop].
  change (mapM (element_urls W U scp_id page_url) (img_tag :: imgs))
    with (element_urls W U scp_id page_url img_tag
          ≫= fun y => mapM (element_urls W U scp_id page_url) imgs
                      ≫= fun k => mret (y :: k)).
  destruct (_normalize_and_filter_urls W U (_extract_urls_from_img W img_tag) page_url)
    as [normalized|] eqn:En.
  2:{ assert (element_urls W U scp_id page_url img_tag = None) as ->
        by (unfold element_urls; by rewrite En).
      done. }
  assert (element_urls W U scp_id page_url img_tag
          = Some (List.filter
                    (fun url => _is_relevant_image U url (attr (img_alt img_tag))
                                  (attr (img_title img_tag)) (harmonize_id scp_id))
                    normalized)) as ->
    by (unfold element_urls; by rewrite En).
  pose proof (add_unseen_spec
                (fun url => _is_relevant_image U url (attr (img_alt img_tag))
                              (attr (img_title img_tag)) (harmonize_id scp_id))
                normalized ordered seen H) as [H1 H2].
  destruct (add_unseen _ _ ordered seen) as [ordered' seen']. cbn [fst snd] in H1, H2.
  rewrite (IH ordered' seen' H2).
  destruct (mapM (element_urls W U scp_id page_url) imgs) as [lists|]; [|done].
  cbn. f_equal. rewrite first_seen_app, H1, rev_app_distr, <- app_assoc. done.
Qed.

Lemma extract_images_spec (W : Web) (U : TextDB) (page : content) (scp_id : Z)
  (page_url : str) :
  extract_images_from_soup W U (Some page) scp_id page_url
  = (fun lists => first_seen [] (concat lists))
    <$> mapM (element_urls W U scp_id page_url) (content_imgs page).
Proof.
  unfold extract_images_from_soup.
  pose proof (images_loop_spec W U scp_id page_url (content_imgs page) [] ∅) as H.
  destruct (images_loop _ _ _ _ _ _ _) as [[ordered seen]|];
    destruct (mapM _ _) as [lists|]; cbn in *;
    try (specialize (H ltac:(set_solver)); discriminate H); [|done].
  specialize (H ltac:(set_solver)). injection H as ->.
  by rewrite app_nil_r, rev_involutive.
Qed.

(** C9, as the code has it.  The URLs returned are those of the elements in
    document order, each URL at its first occurrence and none twice; the URLs
    of one element come in the order in which its set of candidates is
    enumerated.  (The call raises when [urljoin] raises on a candidate of an
    element, and then returns nothing.) *)
Theorem extract_images_first_seen (W : Web) (U : TextDB) (page : content) (scp_id : Z)
  (page_url : str) :
  let urls := extract_images_from_soup W U (Some page) scp_id page_url in
  let by_element := mapM (element_urls W U scp_id page_url) (content_imgs page) in
  urls = (fun lists => first_seen [] (concat lists)) <$> by_element
  /\ (forall found, urls = Some found -> NoDup found)
  /\ (forall found lists,
        urls = Some found -> by_element = Some lists ->
        forall url, url ∈ found <-> exists l, l ∈ lists /\ url ∈ l).
Proof.
  cbn zeta. rewrite extract_images_spec.
  destruct (mapM (element_urls W U scp_id page_url) (content_imgs page)) as [lists|];
    cbn; [|done].
  destruct (first_seen_spec (concat lists) []) as [Hnd Hin].
  split; [done|]. split; [by intros ? [= <-]|].
  intros found lists' [= <-] [= <-] url.
  rewrite Hin, list_elem_of_In, in_concat, elem_of_nil. split.
  - intros [(l & ? & ?) _]. exists l. by rewrite !list_elem_of_In.
  - intros (l & ? & ?). split; [|tauto]. exists l. by rewrite <- !list_elem_of_In.
Qed.

Lemma dedup_first_spec (l : list str) :
  NoDup (dedup_first l) /\ (forall x, x ∈ dedup_first l <-> x ∈ l).
Proof.
  induction l as [|a l [IH1 IH2]]; cbn [dedup_first].
  - split; [constructor|done].
  - assert (forall x, x ∈ List.filter (fun y => negb (str_eqb a y)) (dedup_first l)
                      <-> x <> a /\ x ∈ l) as Hf.
    { intros x. rewrite list_elem_of_In, filter_In, <- list_elem_of_In, IH2, negb_true_iff,
        str_eqb_neq. split; intros [? ?]; split; congruence. }
    split.
    + constructor; [rewrite Hf; tauto|].
      apply NoDup_ListNoDup, List.NoDup_filter, NoDup_ListNoDup, IH1.
    + intros x. rewrite !elem_of_cons, Hf. destruct (decide (x = a)); tauto.
Qed.

Lemma reverse_order_ok : set_order_ok reverse_order.
Proof.
  intros l. destruct (dedup_first_spec l) as [H1 H2]. unfold reverse_order. split.
  - by apply NoDup_ListNoDup, List.NoDup_rev, NoDup_ListNoDup.
  - intros x. by rewrite list_elem_of_In, <- in_rev, <- list_elem_of_In.
Qed.

(** C9 as stated fails within one element: the candidates of an element are
    collected in a set, and with a set that enumerates the later addition
    first the URL of [data-src] comes before the URL of [src]. *)
Lemma extract_images_not_attribute_order :
  let img_tag := {| img_src := Some (u "http://h/scp-1.png");
                    img_data_src := Some (u "http://h/scp-2.png");
                    img_data_image := None; img_srcset := None;
                    img_alt := None; img_title := None |} in
  let page := {| content_elements := []; content_imgs := [img_tag]; content_links := [] |} in
  let W := online empty_page reverse_order in
  set_order_ok (set_order W)
  /\ element_urls_in_attribute_order W basic_db 7 (u "http://h/scp-007") img_tag
     = Some [u "http://h/scp-1.png"; u "http://h/scp-2.png"]
  /\ extract_images_from_soup W basic_db (Some page) 7 (u "http://h/scp-007")
     = Some [u "http://h/scp-2.png"; u "http://h/scp-1.png"].
Proof.
  cbn zeta. split; [apply reverse_order_ok|]. split; vm_compute; reflexivity.
Qed.

End ScrapeProps.

(** ** The series cache in a run *)

Module CacheProps.

Import Scraper SeriesProps.

Lemma lru_get_None (c : lru) (k : Z) : lru_get c k = None <-> k ∉ List.map fst c.
Proof.
  induction c as [|[k' v] c IH]; cbn.
  - split; [intros _ H; by apply elem_of_nil in H|done].
  - rewrite not_elem_of_cons. destruct (Z.eqb_spec k' k) as [->|Hne].
    + split; [done|tauto].
    + rewrite IH. split; [intros; split; congruence|tauto].
Qed.

Lemma lru_remove_keys (c : lru) (k k' : Z) :
  k' ∈ List.map fst (lru_remove c k) -> k' ∈ List.map fst c.
Proof.
  induction c as [|[k0 v] c IH]; cbn; [done|].
  destruct (k0 =? k); cbn; rewrite ?elem_of_cons; tauto.
Qed.

Lemma lru_remove_ok (c : lru) (k : Z) :
  cache_ok c -> cache_ok (lru_remove c k) /\ k ∉ List.map fst (lru_remove c k).
Proof.
  unfold cache_ok. induction c as [|[k0 v] c IH]; cbn.
  - intros _. repeat split; try constructor. intros H. by apply elem_of_nil in H.
  - intros [Hnd Hr]. apply NoDup_cons in Hnd as [Hk0 Hnd]. apply Forall_cons in Hr as [Hk0r Hr].
    destruct (IH (conj Hnd Hr)) as [[IH1 IH2] IH3].
    destruct (Z.eqb_spec k0 k) as [->|Hne]; [done|]. cbn. repeat split.
    + constructor; [|done]. intros H. by apply lru_remove_keys in H.
    + by constructor.
    + rewrite not_elem_of_cons. split; [congruence|done].
Qed.

Lemma lru_get_remove (c : lru) (k k' : Z) :
  k <> k' -> lru_get (lru_remove c k) k' = lru_get c k'.
Proof.
  intros Hne. induction c as [|[k0 v] c IH]; cbn; [done|].
  destruct (Z.eqb_spec k0 k) as [->|H0]; cbn.
  - destruct (Z.eqb_spec k k'); [done|done].
  - by rewrite IH.
Qed.

Lemma cache_ok_length (c : lru) : cache_ok c -> (length c <= 9)%nat.
Proof.
  intros [Hnd Hr]. rewrite <- (length_map fst c).
  assert (List.map fst c ⊆+ [1; 2; 3; 4; 5; 6; 7; 8; 9]) as Hs.
  { apply NoDup_submseteq; [done|]. intros k Hk. rewrite Forall_forall in Hr.
    specialize (Hr k Hk). rewrite !elem_of_cons. lia. }
  apply submseteq_length in Hs. cbn in Hs. lia.
Qed.

Lemma lru_touch_ok (c : lru) (k : Z) (v : bytes) :
  cache_ok c -> 1 <= k <= 9 -> cache_ok (lru_touch c k v).
Proof.
  intros Hc Hk. destruct (lru_remove_ok c k Hc) as [[H1 H2] H3].
  unfold lru_touch, cache_ok. cbn. split; by constructor.
Qed.

Lemma lru_store_fresh (c : lru) (k : Z) (v : bytes) :
  cache_ok c -> lru_get c k = None -> lru_store c k v = (k, v) :: c.
Proof.
  intros Hc Hk. unfold lru_store. rewrite Hk.
  apply cache_ok_length in Hc. destruct (Nat.leb_spec MAXSIZE (length c)); [|done].
  unfold MAXSIZE in *. lia.
Qed.

Lemma lru_store_ok (c : lru) (k : Z) (v : bytes) :
  cache_ok c -> 1 <= k <= 9 -> cache_ok (lru_store c k v).
Proof.
  intros Hc Hk. destruct (lru_get c k) eqn:E.
  - unfold lru_store. by rewrite E.
  - rewrite lru_store_fresh by done. destruct Hc as [H1 H2].
    apply lru_get_None in E. unfold cache_ok. cbn. split; by constructor.
Qed.

(** The state after a call of [fetch_series_page]: the cache stays well
    formed, and a page once cached stays cached. *)
Lemma fetch_series_page_keeps (W : Web) (k g : Z) (w : world) (page : bytes) :
  1 <= k <= 9 -> cache_ok (cache w) -> lru_get (cache w) g = Some page ->
  cache_ok (cache (fetch_series_page W k w).2)
  /\ lru_get (cache (fetch_series_page W k w).2) g = Some page.
Proof.
  intros Hk Hc Hg. unfold fetch_series_page.
  destruct (lru_get (cache w) k) as [p|] eqn:E; cbn [snd cache].
  - split; [by apply lru_touch_ok|]. unfold lru_touch. cbn [lru_get].
    destruct (Z.eqb_spec k g) as [->|Hne]; [congruence|]. by rewrite lru_get_remove.
  - split; [by apply lru_store_ok|]. rewrite lru_store_fresh by done. cbn [lru_get].
    destruct (Z.eqb_spec k g) as [->|Hne]; [congruence|done].
Qed.

Lemma fetch_series_page_ok (W : Web) (k : Z) (w : world) :
  1 <= k <= 9 -> cache_ok (cache w) -> cache_ok (cache (fetch_series_page W k w).2).
Proof.
  intros Hk Hc. unfold fetch_series_page.
  destruct (lru_get (cache w) k) as [p|] eqn:E; cbn [snd cache].
  - by apply lru_touch_ok.
  - by apply lru_store_ok.
Qed.

Lemma name_world (W : Web) (_id : Z) (w : world) :
  (get_scp_name_from_series W _id w).2 = (fetch_series_page W (get_series_number _id) w).2.
Proof.
  unfold get_scp_name_from_series.
  destruct (fetch_series_page W (get_series_number _id) w) as [page w'].
  destruct (negb (truthy page)); [done|]. by destruct (parse_listing W page).
Qed.

Lemma scrape_cache (W : Web) (U : TextDB) (id : Z) (w : world) :
  cache (scrape_scp W U id w).2 = cache (get_scp_name_from_series W id w).2.
Proof.
  unfold scrape_scp. by destruct (get_scp_name_from_series W id w).
Qed.

Lemma call_cache (W : Web) (U : TextDB) (w w' : world) :
  call W U w w' ->
  exists _id, cache w' = cache (fetch_series_page W (get_series_number _id) w).2.
Proof.
  intros [_id w0|id w0]; [exists _id|exists id]; by rewrite ?scrape_cache, name_world.
Qed.

Lemma run_ok (W : Web) (U : TextDB) (w w' : world) :
  run W U w w' -> cache_ok (cache w) -> cache_ok (cache w').
Proof.
  induction 1 as [|w1 w2 w3 Hr IH Hc]; [done|]. intros H.
  apply call_cache in Hc as [_id ->].
  apply fetch_series_page_ok; [apply get_series_number_range|auto].
Qed.

Lemma run_keeps (W : Web) (U : TextDB) (g : Z) (page : bytes) (w w' : world) :
  run W U w w' -> cache_ok (cache w) -> lru_get (cache w) g = Some page ->
  lru_get (cache w') g = Some page.
Proof.
  induction 1 as [|w1 w2 w3 Hr IH Hc]; [done|]. intros H Hg.
  apply call_cache in Hc as [_id ->].
  apply fetch_series_page_keeps; [apply get_series_number_range|by eapply run_ok|auto].
Qed.

(** A name lookup that finds the empty page cached: no name, no request. *)
Lemma name_from_empty_page (W : Web) (_id : Z) (w : world) :
  lru_get (cache w) (get_series_number _id) = Some [] ->
  (get_scp_name_from_series W _id w).1 = []
  /\ requests (get_scp_name_from_series W _id w).2 = requests w.
Proof.
  intros H. unfold get_scp_name_from_series, fetch_series_page. by rewrite H.
Qed.

(** A sequential run: when the first fetch of a grouping's listing fails,
    the empty page is cached and every later lookup of the grouping in the
    run gives the empty name without a request. *)
Lemma failed_listing_sequential (W : Web) (U : TextDB) (w0 : world) (id0 : Z) :
  run W U initial_world w0 ->
  lru_get (cache w0) (get_series_number id0) = None ->
  (exists e, session_get W (requests w0) (get_series_url (get_series_number id0)) = inl e) ->
  (fetch_series_page W (get_series_number id0) w0).1 = []
  /\ (get_scp_name_from_series W id0 w0).1 = []
  /\ forall w1 w2 _id,
       w1 = (get_scp_name_from_series W id0 w0).2 \/ w1 = (scrape_scp W U id0 w0).2 ->
       run W U w1 w2 ->
       get_series_number _id = get_series_number id0 ->
       lru_get (cache w2) (get_series_number id0) = Some []
       /\ (get_scp_name_from_series W _id w2).1 = []
       /\ requests (get_scp_name_from_series W _id w2).2 = requests w2.
Proof.
  intros Hrun Hmiss [e He].
  assert (cache_ok (cache w0)) as Hok.
  { eapply run_ok; [exact Hrun|]. split; constructor. }
  assert (fetch_series_page W (get_series_number id0) w0
          = ([], {| cache := (get_series_number id0, []) :: cache w0;
                    requests := get_series_url (get_series_number id0) :: requests w0 |}))
    as Hf.
  { unfold fetch_series_page, fetch_series_body. rewrite Hmiss, He.
    by rewrite lru_store_fresh. }
  split; [by rewrite Hf|].
  split; [unfold get_scp_name_from_series; by rewrite Hf|].
  intros w1 w2 _id Hw1 Hr Hid.
  assert (cache w1 = (get_series_number id0, []) :: cache w0) as Hc1.
  { destruct Hw1 as [->| ->]; rewrite ?scrape_cache, name_world, Hf; done. }
  assert (lru_get (cache w2) (get_series_number id0) = Some []) as Hg.
  { eapply run_keeps; [exact Hr|..].
    - rewrite Hc1. destruct Hok as [H1 H2]. apply lru_get_None in Hmiss.
      pose proof (get_series_number_range id0).
      unfold cache_ok. cbn. split; by constructor.
    - rewrite Hc1. cbn. by rewrite Z.eqb_refl. }
  split; [done|]. apply name_from_empty_page. by rewrite Hid.
Qed.

(** The lookup returns a name in every case: an empty page and a listing
    that cannot be parsed give the empty name. *)
Lemma name_lookup_total (W : Web) (_id : Z) (w : world) :
  ((fetch_series_page W (get_series_number _id) w).1 = [] ->
   (get_scp_name_from_series W _id w).1 = [])
  /\ (parse_listing W (fetch_series_page W (get_series_number _id) w).1 = None ->
      (get_scp_name_from_series W _id w).1 = []).
Proof.
  unfold get_scp_name_from_series.
  destruct (fetch_series_page W (get_series_number _id) w) as [page w']. cbn [fst].
  split.
  - by intros ->.
  - intros Hp. destruct (negb (truthy page)); [done|]. by rewrite Hp.
Qed.

End CacheProps.

(** ** Tasks sharing the cache *)

Module TaskProps.

Import Scraper SeriesProps CacheProps Tasks.

Lemma get_series_url_inj (a b : Z) :
  1 <= a <= 9 -> 1 <= b <= 9 -> get_series_url a = get_series_url b -> a = b.
Proof.
  intros Ha Hb.
  assert (a = 1 \/ a = 2 \/ a = 3 \/ a = 4 \/ a = 5 \/ a = 6 \/ a = 7 \/ a = 8 \/ a = 9)
    as Ha' by lia.
  assert (b = 1 \/ b = 2 \/ b = 3 \/ b = 4 \/ b = 5 \/ b = 6 \/ b = 7 \/ b = 8 \/ b = 9)
    as Hb' by lia.
  clear Ha Hb.
  repeat (destruct Ha' as [->|Ha']); repeat (destruct Hb' as [->|Hb']); subst;
    intros H; try reflexivity; vm_compute in H; discriminate.
Qed.

Lemma count_insert (f : task -> bool) (l : list task) :
  forall (i : nat) (t t' : task),
    l !! i = Some t ->
    (length (List.filter f (<[i:=t']> l)) + weight f t
     = length (List.filter f l) + weight f t')%nat.
Proof.
  unfold weight.
  induction l as [|a l IH]; intros [|i] t t' H; cbn in H; try done.
  - injection H as ->. simpl. destruct (f t), (f t'); simpl; lia.
  - simpl. specialize (IH i t t' H). destruct (f a); simpl; lia.
Qed.

Lemma count_tasks_insert (f : task -> bool) (p : pool) (i : nat) (t t' : task) (w : world) :
  tasks p !! i = Some t ->
  (count_tasks f {| shared := w; tasks := <[i:=t']> (tasks p) |} + weight f t
   = count_tasks f p + weight f t')%nat.
Proof. intros H. unfold count_tasks. cbn [tasks]. by apply count_insert. Qed.

Lemma fetches_cons (k k' : Z) (c : lru) (log : list str) (ts : list task) :
  1 <= k <= 9 -> 1 <= k' <= 9 ->
  fetches k {| shared := {| cache := c; requests := get_series_url k' :: log |}; tasks := ts |}
  = ((if (k' =? k)%Z then 1 else 0)
     + length (List.filter (fun url => str_eqb url (get_series_url k)) log))%nat.
Proof.
  intros Hk Hk'. unfold fetches. cbn [shared requests List.filter].
  destruct (Z.eqb_spec k' k) as [->|Hne].
  - by rewrite str_eqb_refl.
  - destruct (str_eqb _ _) eqn:E; [|done].
    apply str_eqb_eq, get_series_url_inj in E; done.
Qed.

Lemma lru_get_touch (c : lru) (k k' : Z) (v : bytes) :
  lru_get c k <> None -> lru_get (lru_touch c k' v) k <> None.
Proof.
  intros H. unfold lru_touch. cbn [lru_get].
  destruct (Z.eqb_spec k' k) as [->|Hne]; [done|]. by rewrite lru_get_remove.
Qed.

Lemma lru_get_store (c : lru) (k k' : Z) (v : bytes) :
  lru_get c k <> None -> cache_ok c -> lru_get (lru_store c k' v) k <> None.
Proof.
  intros H Hc. destruct (lru_get c k') eqn:E.
  - unfold lru_store. by rewrite E.
  - rewrite lru_store_fresh by done. cbn [lru_get]. by destruct (k' =? k).
Qed.

Lemma step_cache_ok (W : Web) (p q : pool) :
  step W p q -> cache_ok (cache (shared p)) -> cache_ok (cache (shared q)).
Proof.
  intros [p0 i _id page Ht Hg|p0 i _id Ht Hg|p0 i _id Ht]; cbn [shared cache]; intros Hc.
  - apply lru_touch_ok; [done|apply get_series_number_range].
  - done.
  - apply lru_store_ok; [done|apply get_series_number_range].
Qed.

Lemma steps_cache_ok (W : Web) (p q : pool) :
  steps W p q -> cache_ok (cache (shared p)) -> cache_ok (cache (shared q)).
Proof.
  induction 1 as [|p q r Hs IH Hst]; [done|]. intros Hc. eapply step_cache_ok; eauto.
Qed.

(** One step: the fetches of a grouping, the calls in flight for it and the
    tasks still to ask for it never grow together; and once its page is
    cached, fetches and calls in flight do not grow either. *)
Lemma step_accounting (W : Web) (k : Z) (p q : pool) :
  step W p q -> 1 <= k <= 9 -> cache_ok (cache (shared p)) ->
  (fetches k q + count_tasks (calling_for k) q + count_tasks (waiting_for k) q
   <= fetches k p + count_tasks (calling_for k) p + count_tasks (waiting_for k) p)%nat
  /\ (lru_get (cache (shared p)) k <> None ->
      lru_get (cache (shared q)) k <> None
      /\ (fetches k q + count_tasks (calling_for k) q
          <= fetches k p + count_tasks (calling_for k) p)%nat).
Proof.
  intros [p0 i _id page Ht Hg|p0 i _id Ht Hg|p0 i _id Ht] Hk Hc.
  - pose proof (count_tasks_insert (calling_for k) p0 i _ (Returned page)
                  {| cache := lru_touch (cache (shared p0)) (get_series_number _id) page;
                     requests := requests (shared p0) |} Ht) as H1.
    pose proof (count_tasks_insert (waiting_for k) p0 i _ (Returned page)
                  {| cache := lru_touch (cache (shared p0)) (get_series_number _id) page;
                     requests := requests (shared p0) |} Ht) as H2.
    unfold weight in H1, H2. cbn [calling_for waiting_for] in H1, H2.
    unfold fetches in *. cbn [shared requests cache] in *.
    split; [destruct (_ =? _); lia|]. intros Hin. split; [by apply lru_get_touch|lia].
  - pose proof (count_tasks_insert (calling_for k) p0 i _ (Calling _id) (shared p0) Ht) as H1.
    pose proof (count_tasks_insert (waiting_for k) p0 i _ (Calling _id) (shared p0) Ht) as H2.
    unfold weight in H1, H2. cbn [calling_for waiting_for] in H1, H2.
    unfold fetches in *. cbn [shared requests cache] in *.
    split; [destruct (_ =? _); lia|]. intros Hin. split; [done|].
    destruct (Z.eqb_spec (get_series_number _id) k) as [E|_]; [|lia].
    rewrite E in Hg. done.
  - pose proof (count_tasks_insert (calling_for k) p0 i _ (Returned page)
                  {| cache := lru_store (cache (shared p0)) series_number page;
                     requests := get_series_url series_number :: requests (shared p0) |} Ht)
      as H1.
    pose proof (count_tasks_insert (waiting_for k) p0 i _ (Returned page)
                  {| cache := lru_store (cache (shared p0)) series_number page;
                     requests := get_series_url series_number :: requests (shared p0) |} Ht)
      as H2.
    unfold weight in H1, H2. cbn [calling_for waiting_for] in H1, H2.
    fold series_number in H1, H2. clearbody page.
    pose proof (get_series_number_range _id) as Hr. fold series_number in Hr.
    clearbody series_number.
    rewrite fetches_cons by done.
    unfold fetches. cbn [shared cache].
    split; [destruct (_ =? _); lia|]. intros Hin. split; [by apply lru_get_store|].
    destruct (_ =? _); lia.
Qed.

Lemma steps_accounting (W : Web) (k : Z) (p q : pool) :
  steps W p q -> 1 <= k <= 9 -> cache_ok (cache (shared p)) ->
  (fetches k q + count_tasks (calling_for k) q + count_tasks (waiting_for k) q
   <= fetches k p + count_tasks (calling_for k) p + count_tasks (waiting_for k) p)%nat
  /\ (lru_get (cache (shared p)) k <> None ->
      lru_get (cache (shared q)) k <> None
      /\ (fetches k q + count_tasks (calling_for k) q
          <= fetches k p + count_tasks (calling_for k) p)%nat).
Proof.
  intros Hs Hk. induction Hs as [|p q r Hs IH Hst]; intros Hc.
  - split; [lia|]. intros ?. split; [done|lia].
  - destruct (IH Hc) as [IH1 IH2].
    destruct (step_accounting W k q r Hst Hk (steps_cache_ok W _ _ Hs Hc)) as [H1 H2].
    split; [lia|]. intros Hin. destruct (IH2 Hin) as [Hin' ?].
    destruct (H2 Hin') as [? ?]. split; [done|lia].
Qed.


(** *** A schedule in which every task fetches *)










End TaskProps.

(** ** A listing page that could not be fetched *)

Module FailureProps.

Import Scraper SeriesProps CacheProps Tasks TaskProps.

(** One step of the tasks keeps an empty page of grouping [k] in the cache,
    and a task still to ask for [k] can only get that page. *)
Lemma step_keeps_empty (W : Web) (k : Z) (p q : pool) :
  step W p q -> cache_ok (cache (shared p)) ->
  lru_get (cache (shared p)) k = Some [] ->
  lru_get (cache (shared q)) k = Some []
  /\ forall i _id,
       get_series_number _id = k ->
       tasks p !! i = Some (Waiting _id) \/ tasks p !! i = Some (Returned []) ->
       tasks q !! i = Some (Waiting _id) \/ tasks q !! i = Some (Returned []).
Proof.
  intros [p0 i0 _id0 page Ht Hg|p0 i0 _id0 Ht Hg|p0 i0 _id0 Ht] Hc Hk;
    cbn [shared cache tasks].
  - split.
    + unfold lru_touch. cbn [lru_get].
      destruct (Z.eqb_spec (get_series_number _id0) k) as [E|Hne]; [congruence|].
      by rewrite lru_get_remove.
    + intros i _id E Hi. destruct (decide (i0 = i)) as [<-|Hne].
      * right. rewrite list_lookup_insert_eq by (by eapply lookup_lt_Some).
        destruct Hi as [Hi|Hi]; [|congruence].
        assert (_id = _id0) as -> by congruence. rewrite E, Hk in Hg. congruence.
      * by rewrite list_lookup_insert_ne.
  - split; [done|]. intros i _id E Hi. destruct (decide (i0 = i)) as [<-|Hne].
    + destruct Hi as [Hi|Hi]; [|congruence].
      assert (_id = _id0) as -> by congruence. rewrite E, Hk in Hg. done.
    + by rewrite list_lookup_insert_ne.
  - split.
    + destruct (lru_get (cache (shared p0)) series_number) eqn:E.
      * unfold lru_store. by rewrite E.
      * rewrite lru_store_fresh by done. cbn [lru_get].
        destruct (Z.eqb_spec series_number k) as [E'|Hne]; [congruence|done].
    + intros i _id E Hi. destruct (decide (i0 = i)) as [<-|Hne].
      * destruct Hi as [Hi|Hi]; congruence.
      * by rewrite list_lookup_insert_ne.
Qed.

Lemma steps_keep_empty (W : Web) (k : Z) (p q : pool) :
  steps W p q -> cache_ok (cache (shared p)) ->
  lru_get (cache (shared p)) k = Some [] ->
  lru_get (cache (shared q)) k = Some []
  /\ forall i _id,
       get_series_number _id = k ->
       tasks p !! i = Some (Waiting _id) \/ tasks p !! i = Some (Returned []) ->
       tasks q !! i = Some (Waiting _id) \/ tasks q !! i = Some (Returned []).
Proof.
  intros Hs Hc Hk. induction Hs as [|p q r Hs IH Hst]; [done|].
  destruct (IH Hc Hk) as [Hq Hi].
  destruct (step_keeps_empty W k q r Hst (steps_cache_ok W _ _ Hs Hc) Hq) as [Hr Hi'].
  split; [done|]. intros i _id E H. by apply Hi', Hi.
Qed.

(** C10, as the code has it.  When the first fetch of a grouping's listing
    page fails, [fetch_series_page] returns the empty bytes and the lookup
    the empty name, and the empty page is cached under the grouping number
    (the groupings are at most 9 and the cache holds 16 pages).  In a run of
    calls made one after the other every later lookup for an identifier of
    that grouping returns the empty name and sends no request.  Among tasks
    that run concurrently the empty page stays cached, and a task that asks
    for the grouping once the empty page is stored gets the empty page
    without a request; only the calls already in flight can still fetch.
    The lookup returns a name in every case: the failures inside it (the
    request, the parsing of the listing) are caught and give the empty
    name. *)
Theorem failed_listing_is_cached (W : Web) (U : TextDB) :
  (forall w0 id0,
     run W U initial_world w0 ->
     lru_get (cache w0) (get_series_number id0) = None ->
     (exists e,
        session_get W (requests w0) (get_series_url (get_series_number id0)) = inl e) ->
     (fetch_series_page W (get_series_number id0) w0).1 = []
     /\ (get_scp_name_from_series W id0 w0).1 = []
     /\ forall w1 w2 _id,
          w1 = (get_scp_name_from_series W id0 w0).2 \/ w1 = (scrape_scp W U id0 w0).2 ->
          run W U w1 w2 ->
          get_series_number _id = get_series_number id0 ->
          lru_get (cache w2) (get_series_number id0) = Some []
          /\ (get_scp_name_from_series W _id w2).1 = []
          /\ requests (get_scp_name_from_series W _id w2).2 = requests w2)
  /\ (forall w _id,
        ((fetch_series_page W (get_series_number _id) w).1 = [] ->
         (get_scp_name_from_series W _id w).1 = [])
        /\ (parse_listing W (fetch_series_page W (get_series_number _id) w).1 = None ->
            (get_scp_name_from_series W _id w).1 = []))
  /\ (forall series_number log e,
        session_get W log (get_series_url series_number) = inl e ->
        fetch_series_body W series_number log = [])
  /\ (forall ids p q k,
        steps W (start ids) p -> 1 <= k <= 9 ->
        lru_get (cache (shared p)) k = Some [] ->
        steps W p q ->
        lru_get (cache (shared q)) k = Some []
        /\ (fetches k q + count_tasks (calling_for k) q
            <= fetches k p + count_tasks (calling_for k) p)%nat
        /\ forall i _id,
             tasks p !! i = Some (Waiting _id) -> get_series_number _id = k ->
             tasks q !! i = Some (Waiting _id) \/ tasks q !! i = Some (Returned [])).
Proof.
  split; [intros w0 id0; apply failed_listing_sequential|].
  split; [intros w _id; apply name_lookup_total|].
  split; [intros series_number log e He; unfold fetch_series_body; by rewrite He|].
  intros ids p q k Hp Hk Hempty Hq.
  assert (cache_ok (cache (shared (start ids)))) as H0 by (split; constructor).
  pose proof (steps_cache_ok W _ _ Hp H0) as Hc.
  destruct (steps_keep_empty W k p q Hq Hc Hempty) as [He Ht].
  split; [done|]. split.
  - destruct (steps_accounting W k p q Hq Hk Hc) as [_ H]. apply H. by rewrite Hempty.
  - intros i _id Hi E. apply Ht; [done|by left].
Qed.

(** The first lookup of a run on a network that is down, for identifier 7,
    then lookups for 500 and 999 (same grouping) after one for 1500.  And
    three tasks for identifiers 7, 8 and 9 on a network whose first request
    fails: once the failed request of the first is stored, the third, which
    has not asked yet, can only get the empty page. *)
Lemma failed_listing_is_cached_witness :
  let W := Samples.offline Samples.empty_page Samples.insertion_order in
  let w1 := (get_scp_name_from_series W 7 initial_world).2 in
  let w2 := (get_scp_name_from_series W 1500 w1).2 in
  let F := Samples.flaky [60; 62] {| listing_links := []; listing_text := [] |} in
  let p := {| shared := {| cache := [(1, [])]; requests := [get_series_url 1] |};
              tasks := [Returned []; Calling 8; Waiting 9] |} in
  (lru_get (cache w2) 1 = Some []
   /\ (get_scp_name_from_series W 999 w2).1 = []
   /\ requests (get_scp_name_from_series W 999 w2).2 = requests w2)
  /\ steps F (start [7; 8; 9]) p
  /\ forall q, steps F p q ->
       lru_get (cache (shared q)) 1 = Some []
       /\ (tasks q !! 2%nat = Some (Waiting 9) \/ tasks q !! 2%nat = Some (Returned [])).
Proof.
  cbn zeta. split.
  { pose (W := Samples.offline Samples.empty_page Samples.insertion_order).
    assert (run W basic_db initial_world initial_world) as H0 by constructor.
    destruct (proj1 (failed_listing_is_cached W basic_db) initial_world 7 H0) as (_ & _ & H).
    - reflexivity.
    - eexists. reflexivity.
    - apply (H (get_scp_name_from_series W 7 initial_world).2
               (get_scp_name_from_series W 1500
                  (get_scp_name_from_series W 7 initial_world).2).2
               999).
      + by left.
      + eapply run_call; [apply run_done|apply call_name].
      + reflexivity. }
  pose (F := Samples.flaky [60; 62] {| listing_links := []; listing_text := [] |}).
  pose (p1 := {| shared := initial_world; tasks := [Calling 7; Waiting 8; Waiting 9] |}).
  pose (p2 := {| shared := initial_world; tasks := [Calling 7; Calling 8; Waiting 9] |}).
  pose (p := {| shared := {| cache := [(1, [])]; requests := [get_series_url 1] |};
                tasks := [Returned []; Calling 8; Waiting 9] |}).
  assert (steps F (start [7; 8; 9]) p) as Hp.
  { apply (steps_next F _ p2); [apply (steps_next F _ p1);
      [apply (steps_next F _ (start [7; 8; 9])); [apply steps_refl|]|]|].
    - exact (step_miss F (start [7; 8; 9]) 0%nat 7 eq_refl eq_refl).
    - exact (step_miss F p1 1%nat 8 eq_refl eq_refl).
    - exact (step_call F p2 0%nat 7 eq_refl). }
  split; [exact Hp|]. intros q Hq.
  destruct (proj2 (proj2 (proj2 (failed_listing_is_cached F basic_db)))
              [7; 8; 9] p q 1 Hp ltac:(lia) eq_refl Hq) as (H1 & _ & H2).
  split; [exact H1|]. exact (H2 2%nat 9 eq_refl eq_refl).
Defined.

(** C10 as stated fails among concurrent tasks.  Two tasks look up
    identifiers 7 and 8 of grouping 1 and both miss; the request of the first
    fails and the empty page is stored; the second, already in flight, then
    sends its own request, which is answered, and reads the name from the
    page it got, while the cache still holds the empty page. *)
Lemma in_flight_lookup_fetches_again :
  let parsed := {| listing_links := [ {| href := u "/scp-008";
                                         link_text := u "SCP-008 - statue" |} ];
                   listing_text := [] |} in
  let W := Samples.flaky [60; 62] parsed in
  let p := {| shared := {| cache := [(1, [])]; requests := [get_series_url 1] |};
              tasks := [Returned []; Calling 8] |} in
  let q := {| shared := {| cache := [(1, [])];
                           requests := [get_series_url 1; get_series_url 1] |};
              tasks := [Returned []; Returned [60; 62]] |} in
  steps W (start [7; 8]) p
  /\ lru_get (cache (shared p)) (get_series_number 8) = Some []
  /\ step W p q
  /\ fetches 1 q = 2%nat
  /\ lru_get (cache (shared q)) (get_series_number 8) = Some []
  /\ parse_listing W [60; 62] = Some parsed
  /\ name_in_listing parsed 8 = u "statue".
Proof.
  cbn zeta.
  pose (parsed := {| listing_links := [ {| href := u "/scp-008";
                                           link_text := u "SCP-008 - statue" |} ];
                     listing_text := [] |}).
  pose (W := Samples.flaky [60; 62] parsed).
  pose (p1 := {| shared := initial_world; tasks := [Calling 7; Waiting 8] |}).
  pose (p2 := {| shared := initial_world; tasks := [Calling 7; Calling 8] |}).
  pose (p := {| shared := {| cache := [(1, [])]; requests := [get_series_url 1] |};
                tasks := [Returned []; Calling 8] |}).
  split; [|split; [reflexivity|split; [|repeat split; vm_compute; reflexivity]]].
  - apply (steps_next W _ p2); [apply (steps_next W _ p1);
      [apply (steps_next W _ (start [7; 8])); [apply steps_refl|]|]|].
    + exact (step_miss W (start [7; 8]) 0%nat 7 eq_refl eq_refl).
    + exact (step_miss W p1 1%nat 8 eq_refl eq_refl).
    + exact (step_call W p2 0%nat 7 eq_refl).
  - exact (step_call W p 1%nat 8 eq_refl).
Qed.

End FailureProps.

(** ** The sanitiser's normal form *)

Module SanitizerExtras.

Import SCPParser Design Invariants CleanProps.

Lemma spaced_chars (c : str) :
  spaced c = true ->
  (forall ch, ch ∈ c -> isspace ch = true -> ch = 32)
  /\ (forall a ch1 ch2 b, c = a ++ ch1 :: ch2 :: b -> isspace ch1 = true -> isspace ch2 = false).
Proof.
  induction c as [|x c IH]; intros H.
  - split; [intros ch Hch; by apply elem_of_nil in Hch|].
    intros a ? ? ? E. by destruct a.
  - destruct (IH (spaced_tail _ _ H)) as [IH1 IH2].
    cbn [spaced] in H. apply andb_true_iff in H as [H _]. split.
    + intros ch Hch Hs. apply elem_of_cons in Hch as [->|Hch]; [|by apply IH1].
      rewrite Hs in H. apply andb_true_iff in H as [H _]. by apply Z.eqb_eq in H.
    + intros [|y a] ch1 ch2 b E Hs.
      * cbn in E. injection E as -> ->. rewrite Hs in H.
        apply andb_true_iff in H as [_ H]. by apply negb_true_iff in H.
      * cbn in E. injection E as -> ->. by eapply IH2.
Qed.

Lemma match_marker_space (c : Z) (t : str) : isspace c = true -> match_marker (c :: t) = None.
Proof.
  intros Hc. destruct (match_marker (c :: t)) as [n|] eqn:E; [|done].
  apply match_marker_Some in E as (m & Hm & Hp & _).
  apply marker_shape in Hm as (body & -> & _). cbn in Hp.
  apply andb_true_iff in Hp as [Hp _]. apply ci_match_bracket in Hp. by subst.
Qed.

Lemma redact_blank (s : str) :
  Forall (fun ch => isspace ch = true) s -> redact_from O s = s.
Proof.
  induction 1 as [|c s Hc Hs IH]; [done|]. cbn [redact_from].
  by rewrite match_marker_space, IH.
Qed.

Lemma ws_from_blank (s : str) :
  Forall (fun ch => isspace ch = true) s -> ws_from true s = [].
Proof. induction 1 as [|c s Hc Hs IH]; [done|]. cbn [ws_from]. by rewrite Hc. Qed.

(** X1.  The value [clean_value] returns has no white space at either end,
    and its white space is single spaces: a second trim or a second collapse
    of white space changes nothing, every white space character in it is a
    space, and no two white space characters are adjacent.  A value made of
    white space only becomes the empty text. *)
Theorem clean_value_normal_form (s : str) :
  let c := clean_value s in
  strip c = c
  /\ ws_sub c = c
  /\ (forall ch, ch ∈ c -> isspace ch = true -> ch = 32)
  /\ (forall a ch1 ch2 b, c = a ++ ch1 :: ch2 :: b -> isspace ch1 = true -> isspace ch2 = false)
  /\ (Forall (fun ch => isspace ch = true) s -> c = []).
Proof.
  cbn zeta. destruct s as [|x s].
  { repeat split; try done.
    - intros ch Hch. by apply elem_of_nil in Hch.
    - intros [|? ?] ? ? ? E; discriminate. }
  change (clean_value (x :: s))
    with (strip (colon_prefix_sub (ws_sub (redact_sub (x :: s))))).
  assert (spaced (strip (colon_prefix_sub (ws_sub (redact_sub (x :: s))))) = true) as Hsp.
  { apply spaced_rstrip_by, spaced_lstrip_by, spaced_colon_prefix_sub, ws_from_spaced. }
  destruct (spaced_chars _ Hsp) as [H1 H2].
  split; [apply strip_idem|]. split; [by apply spaced_ws_from|].
  split; [done|]. split; [done|].
  intros Hb. unfold redact_sub. rewrite (redact_blank _ Hb).
  apply Forall_cons in Hb as [Hx Hs]. unfold ws_sub. cbn [ws_from].
  rewrite Hx, (ws_from_blank _ Hs). reflexivity.
Qed.

(** X2.  After [RE_REDACT.sub], wherever a marker of the pattern matches (in
    any letter case) the text reads [[REDACTED]] in upper case: no other
    spelling of a marker is left.  In the value returned by [clean_value] the
    same holds of every marker but [[DATA EXPUNGED]], whose inner white space
    is collapsed after the substitution. *)
Theorem redaction_leaves_canonical (s pre t m : str) :
  m ∈ REDACT_MARKERS -> ci_prefix m t = true ->
  (redact_sub s = pre ++ t -> startswith t REDACTED = true)
  /\ (clean_value s = pre ++ t -> m <> DATA_EXPUNGED -> startswith t REDACTED = true).
Proof.
  intros Hm Hp. split.
  - intros E. assert (t `suffix_of` redact_sub s) as Hs by (rewrite E; by apply suffix_app_r).
    by destruct (redact_sub_canonical s t Hs m Hm Hp) as [_ H].
  - intros E Hne. destruct s as [|x s].
    { destruct pre, t; try discriminate. apply marker_shape in Hm as (? & -> & _). done. }
    change (clean_value (x :: s))
      with (strip (colon_prefix_sub (ws_sub (redact_sub (x :: s))))) in E.
    destruct (sanitized_within (ws_sub (redact_sub (x :: s)))) as [z Hz].
    rewrite E in Hz.
    assert (t ++ z `suffix_of` ws_sub (redact_sub (x :: s))) as Htz.
    { etrans; [|exact Hz]. rewrite <- app_assoc. by apply suffix_app_r. }
    destruct (ws_sub_markers _ (redact_sub_canonical (x :: s)) _ m Htz Hm Hne
                (ci_prefix_app _ _ z Hp)) as [-> Hst].
    apply (startswith_app_inv _ z); [done|]. by apply ci_prefix_length.
Qed.

(** A lower-case marker between two words. *)
Lemma redaction_leaves_canonical_witness :
  redact_sub (u "a [redacted] b") = u "a " ++ u "[REDACTED] b"
  /\ startswith (u "[REDACTED] b") REDACTED = true.
Proof.
  split; [vm_compute; reflexivity|].
  refine (proj1 (redaction_leaves_canonical (u "a [redacted] b") (u "a ") (u "[REDACTED] b")
                   (u "[REDACTED]") _ _) _).
  - apply in_list_spec. vm_compute. reflexivity.
  - vm_compute. reflexivity.
  - vm_compute. reflexivity.
Defined.

End SanitizerExtras.

(** ** The de-duplicator applied twice *)

Module DedupExtras.

Import SCPParser Design CleanProps DedupProps.

Lemma split_on_nonempty (sep : Z) (s : str) : split_on sep s <> [].
Proof. destruct s as [|c s]; cbn; [done|]. destruct (c =? sep); [done|]. by destruct (split_on sep s). Qed.

Lemma split_on_no_sep (sep : Z) (s : str) :
  Forall (fun seg => sep ∉ seg) (split_on sep s).
Proof.
  induction s as [|c s IH]; cbn [split_on].
  - constructor; [|done]. intros H. by apply elem_of_nil in H.
  - destruct (Z.eqb_spec c sep) as [->|Hne].
    + constructor; [|done]. intros H. by apply elem_of_nil in H.
    + destruct (split_on sep s) as [|seg rest] eqn:E; [by apply split_on_nonempty in E|].
      apply Forall_cons in IH as [H1 H2]. constructor; [|done].
      rewrite not_elem_of_cons. split; [congruence|done].
Qed.

Lemma split_on_whole (sep : Z) (p : str) : sep ∉ p -> split_on sep p = [p].
Proof.
  induction p as [|c p IH]; [done|]. rewrite not_elem_of_cons. intros [Hc Hp].
  cbn [split_on]. destruct (Z.eqb_spec c sep); [congruence|]. by rewrite IH.
Qed.

Lemma split_on_app (sep : Z) (a b : str) :
  split_on sep (a ++ sep :: b) = List.removelast (split_on sep a) ++ [List.last (split_on sep a) []]
                                 ++ split_on sep b.
Proof.
  induction a as [|c a IH]; cbn [app split_on].
  - by rewrite Z.eqb_refl.
  - rewrite IH.
    destruct (split_on sep a) as [|seg rest] eqn:E; [by apply split_on_nonempty in E|].
    destruct (c =? sep); destruct rest; reflexivity.
Qed.

Lemma split_on_join (sep : Z) (l : list str) :
  Forall (fun seg => sep ∉ seg) l -> l <> [] -> split_on sep (join [sep] l) = l.
Proof.
  induction 1 as [|p l Hp Hl IH]; [done|]. intros _.
  destruct l as [|q l]; [by apply split_on_whole|].
  change (join [sep] (p :: q :: l)) with (p ++ sep :: join [sep] (q :: l)).
  rewrite split_on_app, (split_on_whole sep p Hp), IH by done. reflexivity.
Qed.

Lemma split_on_join_closed (sep : Z) (l : list str) :
  Forall (fun seg => sep ∉ seg) l -> l <> [] ->
  split_on sep (join [sep] l ++ [sep]) = l ++ [[]].
Proof.
  intros Hl Hne. rewrite split_on_app, split_on_join by done.
  cbn [split_on]. rewrite app_assoc. by rewrite <- (app_removelast_last [] Hne).
Qed.

Lemma elem_of_strip_inv (s : str) (ch : Z) : ch ∈ strip s -> ch ∈ s.
Proof.
  unfold strip, rstrip, lstrip. intros H.
  destruct (rstrip_by_prefix isspace (lstrip_by isspace s)) as [z Hz].
  destruct (lstrip_by_suffix isspace s) as [k Hk].
  rewrite Hk, Hz, !elem_of_app. tauto.
Qed.

Lemma unique_from_fixed (l : list str) :
  forall seen : gset str,
    NoDup l -> Forall (fun x => (6 <= length x)%nat /\ x ∉ seen) l ->
    unique_from seen l = l.
Proof.
  induction l as [|x l IH]; intros seen Hnd Hl; [done|].
  apply NoDup_cons in Hnd as [Hx Hnd]. apply Forall_cons in Hl as [[Hlen Hs] Hl].
  cbn [unique_from]. rewrite bool_decide_eq_true_2 by done.
  destruct (Z.ltb_spec 5 (Z.of_nat (length x))); [|lia]. cbn [andb]. f_equal.
  apply IH; [done|]. rewrite Forall_forall in Hl |- *. intros y Hy.
  destruct (Hl y Hy). split; [done|]. set_solver.
Qed.

Lemma kept_sentences (content : str) :
  let kept := unique_sentences content in
  NoDup kept
  /\ Forall (fun x => (6 <= length x)%nat /\ strip x = x /\ SENTENCE_END ∉ x) kept.
Proof.
  cbn zeta. unfold unique_sentences.
  destruct (unique_from_spec
              (List.map strip (List.filter (fun s => truthy (strip s))
                                 (split_on SENTENCE_END content))) ∅)
    as (Hnd & _ & Hin).
  split; [done|]. apply Forall_forall. intros x Hx. apply Hin in Hx as (Hx & _ & Hl).
  split; [done|].
  apply list_elem_of_fmap in Hx as (seg & -> & Hseg).
  split; [apply strip_idem|].
  apply list_elem_of_In, filter_In in Hseg as [Hseg _]. apply list_elem_of_In in Hseg.
  pose proof (split_on_no_sep SENTENCE_END content) as Hns.
  rewrite Forall_forall in Hns. intros H. by apply (Hns seg Hseg), elem_of_strip_inv.
Qed.

(** X3.  [deduplicate_content] is idempotent: the text it returns is made of
    distinct trimmed sentences of at least 6 characters, each closed by the
    terminator, and applying the function again returns the same text. *)
Theorem deduplicate_content_idempotent (content : str) :
  deduplicate_content (deduplicate_content content) = deduplicate_content content.
Proof.
  destruct content as [|c content]; [reflexivity|].
  assert (deduplicate_content (c :: content)
          = join [SENTENCE_END] (unique_sentences (c :: content))
            ++ match unique_sentences (c :: content) with
               | [] => []
               | _ => [SENTENCE_END]
               end) as -> by reflexivity.
  destruct (kept_sentences (c :: content)) as [Hnd Hk]. cbn zeta in Hnd, Hk.
  destruct (unique_sentences (c :: content)) as [|x kept] eqn:E; [reflexivity|].
  set (l := x :: kept) in *.
  assert (l <> []) as Hne by done.
  assert (Forall (fun seg => SENTENCE_END ∉ seg) l) as Hns.
  { eapply Forall_impl; [exact Hk|]. by intros y (_ & _ & ?). }
  unfold deduplicate_content.
  destruct (join [SENTENCE_END] l ++ [SENTENCE_END]) as [|y o] eqn:Eo.
  { by destruct (join [SENTENCE_END] l). }
  cbn [truthy negb]. rewrite <- Eo. clear Eo y o.
  assert (unique_sentences (join [SENTENCE_END] l ++ [SENTENCE_END]) = l) as ->.
  { unfold unique_sentences. rewrite split_on_join_closed by done.
    assert (List.map strip (List.filter (fun s => truthy (strip s)) (l ++ [[]])) = l) as ->.
    { rewrite List.filter_app. cbn [List.filter]. change (truthy (strip [])) with false.
      rewrite app_nil_r. clear -Hk. induction Hk as [|y l (Hl & Hs & _) Hk IH]; [done|].
      cbn [List.filter]. rewrite Hs. destruct y; [cbn in Hl; lia|].
      cbn [truthy List.map]. by rewrite Hs, IH. }
    apply unique_from_fixed; [done|].
    eapply Forall_impl; [exact Hk|]. intros y (? & _ & _). split; [done|set_solver]. }
  reflexivity.
Qed.

End DedupExtras.

(** ** Synonyms and canonical keys *)

Module KeyExtras.

Import SCPParser Design TextFacts TransferFacts ParseProps.

Lemma patterns_lower_case (entry : str * str) :
  entry ∈ FIELD_MAPPING ->
  List.map ascii_lower (fst entry) = fst entry /\ Forall basic (fst entry) /\ fst entry <> [].
Proof.
  intros Hin.
  assert (forallb (fun e => str_eqb (List.map ascii_lower (fst e)) (fst e)
                            && truthy (fst e)) FIELD_MAPPING = true) as H
    by (vm_compute; reflexivity).
  rewrite forallb_forall in H. apply list_elem_of_In in Hin.
  specialize (H entry Hin). apply andb_true_iff in H as [H1 H2].
  apply str_eqb_eq in H1. split; [done|]. split.
  - pose proof field_mapping_basic as Hb. rewrite Forall_forall in Hb.
    apply Hb. by apply list_elem_of_In.
  - by destruct (fst entry).
Qed.

Lemma patterns_functional (e e' : str * str) :
  e ∈ FIELD_MAPPING -> e' ∈ FIELD_MAPPING -> fst e = fst e' -> snd e = snd e'.
Proof.
  intros He He' Hf.
  assert (forallb (fun a => forallb (fun b => negb (str_eqb (fst a) (fst b))
                                              || str_eqb (snd a) (snd b)) FIELD_MAPPING)
            FIELD_MAPPING = true) as H by (vm_compute; reflexivity).
  rewrite forallb_forall in H. apply list_elem_of_In in He, He'.
  specialize (H e He). rewrite forallb_forall in H. specialize (H e' He').
  apply orb_true_iff in H as [H|H].
  - apply negb_true_iff, str_eqb_neq in H. done.
  - by apply str_eqb_eq in H.
Qed.

(** X4.  A label that reads as a synonym of the table once trimmed and freed
    of its trailing colons, in any letter case, is mapped to the canonical
    name the table gives for that synonym. *)
Theorem normalize_key_synonym (U : TextDB) (label : str) (entry : str * str) :
  TextDB_ok U ->
  entry ∈ FIELD_MAPPING ->
  Forall basic (rstrip_by is_colon (strip label)) ->
  List.map ascii_lower (rstrip_by is_colon (strip label)) = fst entry ->
  normalize_key U label = snd entry.
Proof.
  intros HU Hin Hb Hl.
  destruct (patterns_lower_case entry Hin) as (_ & _ & Hne).
  assert (truthy label = true) as Ht.
  { destruct label; [|done]. cbn in Hl. congruence. }
  unfold normalize_key. rewrite Ht. cbn [negb].
  rewrite (lower_basic U HU _ Hb), Hl.
  erewrite find_ext.
  2:{ intros e He. destruct (patterns_lower_case e He) as (El & Eb & _).
      rewrite (lower_basic U HU _ Eb), El. reflexivity. }
  destruct (List.find _ FIELD_MAPPING) as [[p std]|] eqn:E.
  - apply List.find_some in E as [He Hp]. cbn in Hp. apply str_eqb_eq in Hp.
    apply (patterns_functional (p, std) entry); [by apply list_elem_of_In|done..].
  - apply list_elem_of_In in Hin. eapply List.find_none in E; [|exact Hin].
    cbn in E. by rewrite str_eqb_refl in E.
Qed.

(** An upper-case label with a full-width colon and white space around. *)
Lemma normalize_key_synonym_witness :
  normalize_key basic_db (u "  OBJECT CLASS：  ") = u "class".
Proof.
  apply (normalize_key_synonym basic_db (u "  OBJECT CLASS：  ")
           (u "object class", u "class") basic_db_ok).
  - apply list_elem_of_In. vm_compute. tauto.
  - apply forallb_basic. vm_compute. reflexivity.
  - vm_compute. reflexivity.
Defined.

Lemma standard_fields_fixed (U : TextDB) (f : str) :
  TextDB_ok U -> f ∈ STANDARD_FIELDS -> normalize_key U f = f /\ f <> K_more_info.
Proof.
  intros HU Hin.
  assert (forallb (fun f => forallb basicb f && str_eqb (normalize_key basic_db f) f
                            && negb (str_eqb f K_more_info)) STANDARD_FIELDS = true) as H
    by (vm_compute; reflexivity).
  rewrite forallb_forall in H. apply list_elem_of_In in Hin. specialize (H f Hin).
  apply andb_true_iff in H as [H H3]. apply andb_true_iff in H as [H1 H2].
  apply forallb_basic in H1. apply str_eqb_eq in H2.
  apply negb_true_iff, str_eqb_neq in H3.
  split; [|done]. by rewrite (normalize_key_basic U HU).
Qed.

Lemma get_absent {V} (d : Dict.t V) (k : str) : k ∉ Dict.keys d -> Dict.get d k = None.
Proof.
  intros H. destruct (Dict.get d k) eqn:E; [|done].
  exfalso. apply H, DictFacts.has_keys. unfold Dict.has. by rewrite E.
Qed.

Lemma categorize_loop_canonical (U : TextDB) (d : record) :
  TextDB_ok U ->
  forall acc : record,
    NoDup (Dict.keys acc ++ Dict.keys d) ->
    Forall (fun k => k ∈ STANDARD_FIELDS) (Dict.keys d) ->
    fold_left (categorize_step U) d acc = acc ++ d.
Proof.
  intros HU. induction d as [|[k v] d IH]; intros acc Hnd Hk; cbn [fold_left].
  - by rewrite app_nil_r.
  - cbn in Hk. apply Forall_cons in Hk as [Hk Hd].
    destruct (standard_fields_fixed U k HU Hk) as [Hn Hm].
    unfold categorize_step at 2. cbn [fst snd].
    apply str_eqb_neq in Hm. rewrite Hm, Hn.
    cbn [Dict.keys List.map fst] in Hnd. apply NoDup_app in Hnd as (Ha & Hdis & Hd').
    rewrite put_absent.
    2:{ apply get_absent. intros Hin. apply (Hdis k Hin). left. }
    rewrite IH; [by rewrite <- app_assoc|..|done].
    unfold Dict.keys. rewrite map_app. cbn [List.map fst].
    apply NoDup_cons in Hd' as [Hkd Hd'].
    apply NoDup_app. split; [|split; [|done]].
    + apply NoDup_app. split; [done|]. split; [|apply NoDup_singleton].
      intros x Hx. rewrite list_elem_of_singleton. intros ->. apply (Hdis k Hx). left.
    + intros x Hx. apply elem_of_app in Hx as [Hx|Hx].
      * intros Hxd. apply (Hdis x Hx). by right.
      * apply list_elem_of_singleton in Hx as ->. done.
Qed.

(** X5.  A record whose keys are canonical field names is left as it is by
    [categorize_fields]: normalising a canonical name gives the name back,
    and the fields keep their order and values. *)
Theorem categorize_fields_canonical (U : TextDB) (d : record) :
  TextDB_ok U ->
  NoDup (Dict.keys d) ->
  Forall (fun k => k ∈ STANDARD_FIELDS) (Dict.keys d) ->
  categorize_fields U d = d.
Proof.
  intros HU Hnd Hk. unfold categorize_fields.
  rewrite get_absent.
  2:{ intros Hin. rewrite Forall_forall in Hk.
      by destruct (standard_fields_fixed U _ HU (Hk _ Hin)). }
  by rewrite categorize_loop_canonical.
Qed.

(** A record with the four main fields. *)
Lemma categorize_fields_canonical_witness :
  let d := [(u "id", VStr (u "SCP-173")); (u "class", VStr (u "Euclid"));
            (u "containment", VStr (u "上锁的收容间")); (u "description", VStr (u "混凝土雕像"))] in
  categorize_fields basic_db d = d.
Proof.
  cbn zeta. apply (categorize_fields_canonical basic_db _ basic_db_ok).
  - apply NoDup_ListNoDup. repeat constructor; cbn; intros H;
      repeat (destruct H as [H|H]; [discriminate H|]); exact H.
  - repeat constructor; apply in_list_spec; vm_compute; reflexivity.
Defined.

End KeyExtras.

(** ** Records on their way through the parser and the validator *)

Module RecordExtras.

Import SCPParser SCPValidator Scraper Design Invariants TextFacts TransferFacts ParseProps ValidatorProps KeyExtras.

(** *** Dictionaries keep their keys distinct *)

Lemma keys_put {V} (d : Dict.t V) (k : str) (v : V) :
  Dict.keys (Dict.put d k v) = if Dict.has d k then Dict.keys d else Dict.keys d ++ [k].
Proof.
  unfold Dict.has, Dict.keys. induction d as [|[k0 v0] d IH]; cbn; [done|].
  destruct (str_eqb k0 k) eqn:E; cbn; [done|]. rewrite IH.
  by destruct (Dict.get d k).
Qed.

Lemma put_NoDup {V} (d : Dict.t V) (k : str) (v : V) :
  NoDup (Dict.keys d) -> NoDup (Dict.keys (Dict.put d k v)).
Proof.
  intros H. rewrite keys_put. destruct (Dict.has d k) eqn:E; [done|].
  apply NoDup_app. split; [done|]. split; [|apply NoDup_singleton].
  intros x Hx. rewrite list_elem_of_singleton. intros ->.
  apply DictFacts.has_keys in Hx. congruence.
Qed.

Lemma put_put {V} (d : Dict.t V) (k : str) (v v' : V) :
  Dict.put (Dict.put d k v) k v' = Dict.put d k v'.
Proof.
  induction d as [|[k0 v0] d IH]; cbn.
  - by rewrite str_eqb_refl.
  - destruct (str_eqb k0 k) eqn:E; cbn; rewrite E; [done|]. by rewrite IH.
Qed.

Lemma get_del_ne {V} (d : Dict.t V) (k k' : str) :
  k <> k' -> Dict.get (Dict.del d k) k' = Dict.get d k'.
Proof.
  intros Hne. induction d as [|[k0 v0] d IH]; cbn; [done|].
  destruct (str_eqb k0 k) eqn:E; cbn.
  - apply str_eqb_eq in E. subst. apply str_eqb_neq in Hne. by rewrite Hne.
  - by rewrite IH.
Qed.

Lemma get_del_eq {V} (d : Dict.t V) (k : str) :
  NoDup (Dict.keys d) -> Dict.get (Dict.del d k) k = None.
Proof.
  induction d as [|[k0 v0] d IH]; cbn; [done|]. intros H.
  apply NoDup_cons in H as [H0 H].
  destruct (str_eqb k0 k) eqn:E; cbn.
  - apply str_eqb_eq in E. subst. by apply get_absent.
  - rewrite E. by apply IH.
Qed.

(** *** ensure_required_fields *)

Lemma dedup_field_get (result : record) (field k : str) :
  Dict.get (dedup_field result field) k
  = if str_eqb field k
    then match Dict.get result field with
         | Some (VStr text) => Some (VStr (deduplicate_content text))
         | other => other
         end
    else Dict.get result k.
Proof.
  unfold dedup_field. destruct (str_eqb field k) eqn:E.
  - apply str_eqb_eq in E. subst k.
    destruct (Dict.get result field) as [[t| | |]|] eqn:Eg; try done.
    apply DictFacts.get_put_eq.
  - apply str_eqb_neq in E.
    destruct (Dict.get result field) as [[t| | |]|] eqn:Eg; try done.
    by apply DictFacts.get_put_ne.
Qed.

(** X6.  [ensure_required_fields] returns a record with a non-empty [id]: a
    non-empty [id] of the input is kept, a missing or empty one is filled.
    The [description] and [containment] fields, when they are texts, are
    replaced by their de-duplicated text, and every other field is as in the
    input. *)
Theorem ensure_required_fields_frame (U : TextDB) (data : record) (scp_id : Z) (url : str) :
  let result := ensure_required_fields U data scp_id url in
  (exists v, Dict.get result K_id = Some v /\ value_truthy v = true)
  /\ (forall v, Dict.get data K_id = Some v -> value_truthy v = true ->
                Dict.get result K_id = Some v)
  /\ (forall field, field = K_description \/ field = K_containment ->
        Dict.get result field
        = match Dict.get data field with
          | Some (VStr text) => Some (VStr (deduplicate_content text))
          | other => other
          end)
  /\ (forall k, k <> K_id -> k <> K_description -> k <> K_containment ->
        Dict.get result k = Dict.get data k).
Proof.
  cbn zeta. unfold ensure_required_fields. cbn zeta. cbn [fold_left].
  set (r0 := if _ : bool then _ else data).
  assert (forall k, k <> K_id -> Dict.get r0 k = Dict.get data k) as Hframe.
  { intros k Hk. subst r0.
    destruct (match Dict.get data K_id with Some v => negb (value_truthy v) | None => true end);
      [|done].
    destruct (truthy url); [destruct (truthy (extract_id_from_url U url))|];
      by rewrite DictFacts.get_put_ne. }
  assert (exists v, Dict.get r0 K_id = Some v /\ value_truthy v = true
                    /\ (forall v', Dict.get data K_id = Some v' -> value_truthy v' = true ->
                                   v = v')) as (v & Hv & Ht & Hkeep).
  { subst r0. destruct (Dict.get data K_id) as [v0|] eqn:E.
    - destruct (value_truthy v0) eqn:Ev; cbn [negb].
      + exists v0. repeat split; [done..|]. by intros ? [= ->].
      + destruct (truthy url); [destruct (truthy (extract_id_from_url U url)) eqn:Ex|];
          eexists; rewrite DictFacts.get_put_eq; (split; [reflexivity|]);
          (split; [done|]); intros ? [= <-]; congruence.
    - destruct (truthy url); [destruct (truthy (extract_id_from_url U url)) eqn:Ex|];
        eexists; rewrite DictFacts.get_put_eq; (split; [reflexivity|]);
        (split; [done|]); intros; discriminate. }
  split; [|split; [|split]].
  - exists v. rewrite dedup_field_get. change (str_eqb K_containment K_id) with false.
    cbn iota. rewrite dedup_field_get. change (str_eqb K_description K_id) with false.
    by split.
  - intros v' Hv' Ht'. rewrite dedup_field_get. change (str_eqb K_containment K_id) with false.
    cbn iota. rewrite dedup_field_get. change (str_eqb K_description K_id) with false.
    cbn iota. rewrite Hv. f_equal. by apply Hkeep.
  - intros field [-> | ->]; rewrite dedup_field_get.
    + change (str_eqb K_containment K_description) with false. cbn iota.
      rewrite dedup_field_get, str_eqb_refl. by rewrite Hframe.
    + rewrite str_eqb_refl. rewrite dedup_field_get.
      change (str_eqb K_description K_containment) with false. cbn iota. by rewrite Hframe.
  - intros k H1 H2 H3. apply not_eq_sym, str_eqb_neq in H2. apply not_eq_sym, str_eqb_neq in H3.
    rewrite dedup_field_get, H3, dedup_field_get, H2. by apply Hframe.
Qed.

(** *** Blocks the loop passes over *)

Lemma stops_truthy (t : str) : stops t = true -> truthy t = true.
Proof. destruct t; [|done]. by cbn. Qed.

Lemma parse_loop_stop (U : TextDB) (e : block) (rest pre : list block) :
  stops (strip (get_text e)) = true ->
  forall result current_key current_value,
    parse_loop U (pre ++ e :: rest) result current_key current_value
    = parse_loop U pre result current_key current_value.
Proof.
  intros Hs. induction pre as [|b pre IH]; intros result ck cv; cbn [app parse_loop].
  - by rewrite (stops_truthy _ Hs), Hs.
  - destruct (negb (truthy (strip (get_text b)))); [apply IH|].
    destruct (stops (strip (get_text b))); [done|].
    destruct (find_strong b); [apply IH|]. destruct (key_open ck); apply IH.
Qed.

Lemma parse_loop_blank (U : TextDB) (e : block) (rest pre : list block) :
  strip (get_text e) = [] ->
  forall result current_key current_value,
    parse_loop U (pre ++ e :: rest) result current_key current_value
    = parse_loop U (pre ++ rest) result current_key current_value.
Proof.
  intros Hs. induction pre as [|b pre IH]; intros result ck cv; cbn [app parse_loop].
  - by rewrite Hs.
  - destruct (negb (truthy (strip (get_text b)))); [apply IH|].
    destruct (stops (strip (get_text b))); [done|].
    destruct (find_strong b); [apply IH|]. destruct (key_open ck); apply IH.
Qed.

(** X7.  The loop of [parse_page_content] ends at the first block whose text
    starts with one of the two navigation marks: that block and all that
    follows leave no trace in the record.  A block whose text is empty once
    trimmed is passed over, wherever it stands. *)
Theorem parse_page_content_skips (U : TextDB) (pre : list block) (e : block)
  (rest : list block) (scp_id : Z) (url : str) :
  (stops (strip (get_text e)) = true ->
   parse_page_content U (pre ++ e :: rest) scp_id url = parse_page_content U pre scp_id url)
  /\ (strip (get_text e) = [] ->
      parse_page_content U (pre ++ e :: rest) scp_id url
      = parse_page_content U (pre ++ rest) scp_id url)
  /\ (forall t, (startswith t [STOP_OPEN] || startswith t [STOP_SINGLE]) = stops t).
Proof.
  split; [|split].
  - intros Hs. unfold parse_page_content, parsed_fields. by rewrite parse_loop_stop.
  - intros Hs. unfold parse_page_content, parsed_fields. by rewrite parse_loop_blank.
  - intros t. unfold stops.
    assert (forall p, startswith t p = true -> contains t p = true) as H.
    { intros p Hp. destruct t; cbn [contains]; by rewrite Hp. }
    destruct (startswith t [STOP_OPEN]) eqn:E1.
    { by rewrite (H _ E1). }
    destruct (startswith t [STOP_SINGLE]) eqn:E2.
    { rewrite (H _ E2). by destruct (contains t [STOP_OPEN]). }
    cbn [orb]. by rewrite andb_false_r.
Qed.

(** *** The values of a parsed record *)

Lemma categorize_step_ensured (U : TextDB) (acc : record) (kv : str * value) :
  TextDB_ok U -> Forall ensured acc -> ensured kv -> Forall ensured (categorize_step U acc kv).
Proof.
  intros HU Hacc (s & E & H). unfold categorize_step.
  destruct (str_eqb (fst kv) K_more_info); [done|].
  apply put_Forall_key; [done|]. exists s. split; [done|]. cbn [fst].
  destruct H as [H|[-> | ->]]; [tauto|..].
  - rewrite (normalize_key_description U HU). tauto.
  - rewrite (normalize_key_containment U HU). tauto.
Qed.

Lemma categorize_step_NoDup (U : TextDB) (acc : record) (kv : str * value) :
  NoDup (Dict.keys acc) -> NoDup (Dict.keys (categorize_step U acc kv)).
Proof.
  intros H. unfold categorize_step. destruct (str_eqb (fst kv) K_more_info); [done|].
  by apply put_NoDup.
Qed.

Lemma categorize_fields_texts (U : TextDB) (data : record) :
  TextDB_ok U -> Forall ensured data ->
  Forall ensured (categorize_fields U data) /\ NoDup (Dict.keys (categorize_fields U data)).
Proof.
  intros HU Hd. unfold categorize_fields.
  assert (match Dict.get data K_more_info with
          | Some (VDict existing_more_info) =>
              fold_left (fun acc kv => Dict.put acc (normalize_key U (fst kv)) (snd kv))
                existing_more_info (Dict.empty : record)
          | _ => Dict.empty
          end = []) as ->.
  { destruct (Dict.get data K_more_info) as [v|] eqn:E; [|done].
    apply get_elem in E. rewrite Forall_forall in Hd.
    destruct (Hd _ E) as (s' & E' & _). cbn in E'. by subst. }
  assert (forall acc : record,
            Forall ensured acc -> NoDup (Dict.keys acc) ->
            Forall ensured (fold_left (categorize_step U) data acc)
            /\ NoDup (Dict.keys (fold_left (categorize_step U) data acc))) as H.
  { induction Hd as [|kv data Hkv Hd IH]; intros acc Ha Hn; cbn [fold_left]; [done|].
    apply IH; [by apply categorize_step_ensured|by apply categorize_step_NoDup]. }
  apply H; [constructor|apply NoDup_nil_2].
Qed.

(** X8.  Every value of the record [parse_page_content] returns is a text,
    and the record holds each key once.  The text is non-empty except,
    possibly, under [description] and [containment]: the loop stores no empty
    value, but the de-duplication that follows can empty these two fields
    (a description made of short sentences only). *)
Theorem parse_page_content_texts (U : TextDB) (elements : list block) (scp_id : Z)
  (url : str) :
  TextDB_ok U ->
  let result := parse_page_content U elements scp_id url in
  NoDup (Dict.keys result)
  /\ forall k v, (k, v) ∈ result ->
       exists s, v = VStr s
                 /\ (truthy s = true \/ k = K_description \/ k = K_containment).
Proof.
  intros HU. cbn zeta. unfold parse_page_content.
  destruct (ensure_required_fields_id U _ scp_id url (parsed_fields_filled U elements))
    as [He _].
  destruct (categorize_fields_texts U _ HU He) as [Ht Hn].
  split; [done|]. intros k v Hin. rewrite Forall_forall in Ht.
  exact (Ht _ Hin).
Qed.

Lemma parse_page_content_texts_witness :
  let result := parse_page_content basic_db
                  [ {| get_text := u "描述：短。"; find_strong := Some (u "描述：") |} ] 7 [] in
  Dict.get result K_description = Some (VStr [])
  /\ NoDup (Dict.keys result)
  /\ forall k v, (k, v) ∈ result ->
       exists s, v = VStr s
                 /\ (truthy s = true \/ k = K_description \/ k = K_containment).
Proof.
  cbn zeta. split; [vm_compute; reflexivity|].
  exact (parse_page_content_texts basic_db _ 7 [] basic_db_ok).
Defined.

(** *** The validator applied twice *)

Lemma absent_or_empty_put (data : record) (k field : str) (v : value) :
  k <> field -> absent_or_empty (Dict.put data k v) field = absent_or_empty data field.
Proof. intros H. unfold absent_or_empty. by rewrite DictFacts.get_put_ne. Qed.

Lemma filter_ext_elem {A} (f g : A -> bool) (l : list A) :
  (forall x, x ∈ l -> f x = g x) -> List.filter f l = List.filter g l.
Proof.
  induction l as [|a l IH]; intros H; cbn; [done|].
  rewrite (H a) by left. rewrite IH; [done|]. intros x Hx. apply H. by right.
Qed.

(** X9.  [validate] is idempotent: run on its own result it returns that
    result, with the same issues under [validation_issues]. *)
Theorem validate_idempotent (data : record) :
  exists out, validate data = Some out /\ validate out = Some out.
Proof.
  eexists. split; [apply validate_total|].
  remember (issues_of (List.filter (absent_or_empty data) REQUIRED_FIELDS)
              (List.filter (absent_or_empty data) RECOMMENDED_FIELDS)) as issues eqn:E.
  rewrite validate_total.
  destruct issues as [|i issues'].
  - by rewrite <- E.
  - set (out := Dict.put data K_validation_issues (VList (i :: issues'))).
    assert (forall fields, Forall (fun f => K_validation_issues <> f) fields ->
              List.filter (absent_or_empty out) fields
              = List.filter (absent_or_empty data) fields) as Hf.
    { intros fields Hne. apply filter_ext_elem. intros f Hin. rewrite Forall_forall in Hne.
      apply absent_or_empty_put. by apply Hne. }
    rewrite (Hf REQUIRED_FIELDS), (Hf RECOMMENDED_FIELDS).
    2:{ unfold RECOMMENDED_FIELDS. repeat constructor; discriminate. }
    2:{ unfold REQUIRED_FIELDS. repeat constructor; discriminate. }
    rewrite <- E. subst out. by rewrite put_put.
Qed.

(** *** affix_additional *)

Lemma merge_get (m : list (str * value)) (k : str) :
  forall acc : record,
    Dict.get (fold_left (fun acc kv => if Dict.has acc (fst kv) then acc
                                       else Dict.put acc (fst kv) (snd kv)) m acc) k
    = match Dict.get acc k with
      | Some v => Some v
      | None => Dict.get m k
      end.
Proof.
  induction m as [|[k0 v0] m IH]; intros acc; cbn [fold_left fst snd].
  - by destruct (Dict.get acc k).
  - rewrite IH. unfold Dict.has. cbn [Dict.get].
    destruct (str_eqb k0 k) eqn:E.
    + apply str_eqb_eq in E. subst k0.
      destruct (Dict.get acc k) eqn:Ea; cbn iota; [by rewrite Ea|].
      by rewrite DictFacts.get_put_eq.
    + apply str_eqb_neq in E.
      destruct (Dict.get acc k0) eqn:Ea; cbn iota; [done|].
      by rewrite DictFacts.get_put_ne.
Qed.

Lemma merge_NoDup (m : list (str * value)) :
  forall acc : record,
    NoDup (Dict.keys acc) ->
    NoDup (Dict.keys (fold_left (fun acc kv => if Dict.has acc (fst kv) then acc
                                               else Dict.put acc (fst kv) (snd kv)) m acc)).
Proof.
  induction m as [|[k0 v0] m IH]; intros acc H; cbn [fold_left fst snd]; [done|].
  apply IH. destruct (Dict.has acc k0); [done|]. by apply put_NoDup.
Qed.

(** X10.  [affix_additional] on a record whose [more_info] is a nested
    container: the [more_info] key is gone, every top-level field keeps its
    value, and a key found only in the container is lifted to the top level
    with the container's value.  A record without [more_info], or whose
    [more_info] is no container, is returned as it is. *)
Theorem affix_additional_flattens (results : record) :
  NoDup (Dict.keys results) ->
  match Dict.get results K_more_info with
  | Some (VDict existing_more_info) =>
      Dict.get (affix_additional results) K_more_info = None
      /\ forall k, k <> K_more_info ->
           Dict.get (affix_additional results) k
           = match Dict.get results k with
             | Some v => Some v
             | None => Dict.get existing_more_info k
             end
  | _ => affix_additional results = results
  end.
Proof.
  intros Hn. unfold affix_additional.
  destruct (Dict.get results K_more_info) as [[s|n|l|m]|] eqn:E; try done.
  split.
  - apply get_del_eq. by apply merge_NoDup.
  - intros k Hk. rewrite get_del_ne by done. apply merge_get.
Qed.

Lemma affix_additional_flattens_witness :
  let results : record :=
    [ (u "id", VStr (u "SCP-173"));
      (u "more_info", VDict [ (u "id", VStr (u "SCP-000")); (u "notes", VStr (u "n")) ]) ] in
  affix_additional results = [ (u "id", VStr (u "SCP-173")); (u "notes", VStr (u "n")) ]
  /\ Dict.get (affix_additional results) K_more_info = None
  /\ forall k, k <> K_more_info ->
       Dict.get (affix_additional results) k
       = match Dict.get results k with
         | Some v => Some v
         | None => Dict.get [ (u "id", VStr (u "SCP-000")); (u "notes", VStr (u "n")) ] k
         end.
Proof.
  cbn zeta. split; [vm_compute; reflexivity|].
  refine (affix_additional_flattens
            [ (u "id", VStr (u "SCP-173"));
              (u "more_info", VDict [ (u "id", VStr (u "SCP-000")); (u "notes", VStr (u "n")) ]) ]
            _).
  apply NoDup_cons. split.
  - intros H. apply list_elem_of_singleton in H. vm_compute in H. discriminate.
  - apply NoDup_singleton.
Defined.

End RecordExtras.

(** ** Keys normalised twice *)

Module KeyIdempotence.

Import SCPParser Design TextFacts TransferFacts CleanProps.

Lemma ascii_lower_cases (c : Z) :
  (65 <= c <= 90 /\ ascii_lower c = c + 32) \/ (~ 65 <= c <= 90 /\ ascii_lower c = c).
Proof. unfold ascii_lower. destruct ((65 <=? c) && (c <=? 90)) eqn:E; [left|right]; lia. Qed.

(** What a character of a fallback key is, on a label of the two scripts. *)
Lemma key_char_stable (c : Z) :
  basic c ->
  let c' := ascii_lower (if re_word basic_db c || ((0x4E00 <=? c) && (c <=? 0x9FFF))
                         then c else 95) in
  basic c' /\ ascii_lower c' = c'
  /\ re_word basic_db c' || ((0x4E00 <=? c') && (c' <=? 0x9FFF)) = true
  /\ isspace c' = false /\ is_colon c' = false.
Proof.
  intros H. cbn zeta.
  destruct (re_word basic_db c || ((0x4E00 <=? c) && (c <=? 0x9FFF))) eqn:E.
  - cbn [re_word basic_db] in *.
    destruct (ascii_lower_cases c) as [[Hc ->]|[Hc ->]].
    + destruct (ascii_lower_cases (c + 32)) as [[Hc' ->]|[Hc' ->]]; [lia|].
      unfold ascii_word, isspace, is_colon, basic in *. repeat split; lia.
    + destruct (ascii_lower_cases c) as [[Hc' ->]|[Hc' ->]]; [lia|].
      unfold ascii_word, isspace, is_colon, basic in *. repeat split; try lia.
  - change (ascii_lower 95) with 95. repeat split; try reflexivity. left. lia.
Qed.

Lemma strip_by_fixed (p : Z -> bool) (s : str) :
  Forall (fun c => p c = false) s -> lstrip_by p s = s /\ rstrip_by p s = s.
Proof.
  intros H. split.
  - destruct H as [|c s Hc H]; cbn; [done|]. by rewrite Hc.
  - induction H as [|c s Hc H IH]; cbn [rstrip_by]; [done|].
    rewrite IH, Hc. by destruct s.
Qed.

Lemma patterns_no_underscore (entry : str * str) :
  entry ∈ FIELD_MAPPING -> 95 ∉ List.map ascii_lower (fst entry).
Proof.
  intros Hin.
  assert (forallb (fun e => negb (existsb (fun c => c =? 95) (List.map ascii_lower (fst e))))
            FIELD_MAPPING = true) as H by (vm_compute; reflexivity).
  rewrite forallb_forall in H. apply list_elem_of_In in Hin. specialize (H _ Hin).
  apply negb_true_iff in H. intros H95. apply list_elem_of_In in H95.
  assert (existsb (fun c => c =? 95) (List.map ascii_lower (fst entry)) = true) as H'.
  { apply existsb_exists. exists 95. by split. }
  congruence.
Qed.

Lemma canonical_names_fixed (entry : str * str) :
  entry ∈ FIELD_MAPPING ->
  Forall basic (snd entry) /\ normalize_key basic_db (snd entry) = snd entry.
Proof.
  intros Hin.
  assert (forallb (fun e => forallb basicb (snd e)
                            && str_eqb (normalize_key basic_db (snd e)) (snd e))
            FIELD_MAPPING = true) as H by (vm_compute; reflexivity).
  rewrite forallb_forall in H. apply list_elem_of_In in Hin. specialize (H _ Hin).
  apply andb_true_iff in H as [H1 H2]. split; [by apply forallb_basic|by apply str_eqb_eq].
Qed.

(** The fallback key of a label of the two scripts is a fixed point. *)
Lemma fallback_fixed (key : str) :
  Forall basic key ->
  List.find (fun entry => str_eqb (lower basic_db (fst entry)) (lower basic_db key))
    FIELD_MAPPING = None ->
  let k := lower basic_db (sub_nonword basic_db key) in
  Forall basic k /\ normalize_key basic_db k = k.
Proof.
  intros Hb Hfind. cbn zeta. set (k := lower basic_db (sub_nonword basic_db key)).
  assert (Forall (fun c' => basic c' /\ ascii_lower c' = c'
                            /\ re_word basic_db c' || ((0x4E00 <=? c') && (c' <=? 0x9FFF)) = true
                            /\ isspace c' = false /\ is_colon c' = false) k) as Hk.
  { subst k. cbn [lower basic_db]. unfold sub_nonword. rewrite List.map_map.
    apply Forall_forall. intros c' Hc'. apply list_elem_of_In, in_map_iff in Hc' as (c & <- & Hc).
    apply key_char_stable. rewrite Forall_forall in Hb. by apply Hb, list_elem_of_In. }
  assert (k = lower basic_db key \/ 95 ∈ k) as Hcase.
  { subst k. cbn [lower basic_db]. unfold sub_nonword. clear Hfind Hk.
    induction Hb as [|c key Hc Hb IH]; cbn [List.map]; [by left|].
    destruct (re_word basic_db c || (19968 <=? c) && (c <=? 40959)).
    - destruct IH as [-> | IH]; [by left|]. right. by right.
    - right. left. }
  split; [eapply Forall_impl; [exact Hk|]; by intros ? [? _]|].
  destruct k as [|c0 k0] eqn:Ek; [done|]. rewrite <- Ek in *.
  unfold normalize_key. assert (truthy k = true) as -> by by rewrite Ek. cbn [negb].
  assert (strip k = k) as ->.
  { unfold strip, lstrip, rstrip.
    destruct (strip_by_fixed isspace k) as [-> ->]; [|done].
    eapply Forall_impl; [exact Hk|]. tauto. }
  destruct (strip_by_fixed is_colon k) as [_ ->].
  { eapply Forall_impl; [exact Hk|]. tauto. }
  assert (lower basic_db k = k) as Hl.
  { cbn [lower basic_db]. clear -Hk. induction Hk as [|c k (_ & Hc & _) Hk IH]; cbn; [done|].
    by rewrite Hc, IH. }
  assert (sub_nonword basic_db k = k) as Hs.
  { unfold sub_nonword. clear -Hk.
    induction Hk as [|c k (_ & _ & Hc & _) Hk IH]; cbn [List.map]; [done|].
    by rewrite Hc, IH. }
  rewrite Hl, Hs, Hl.
  destruct Hcase as [Hcase|H95].
  - rewrite Hcase. by rewrite Hfind.
  - rewrite find_none; [done|]. intros entry Hin. apply str_eqb_neq. intros E.
    apply (patterns_no_underscore entry Hin). cbn [lower basic_db] in E. by rewrite E.
Qed.

(** The key depends on the tables through the trimmed label only. *)
Lemma normalize_key_trimmed (U : TextDB) (key : str) :
  TextDB_ok U -> Forall basic (rstrip_by is_colon (strip key)) ->
  normalize_key U key = normalize_key basic_db key.
Proof.
  intros HU Hk. unfold normalize_key. destruct (negb (truthy key)); [done|].
  rewrite (lower_basic U HU _ Hk).
  erewrite find_ext.
  2:{ intros entry Hin. pose proof field_mapping_basic as Hf.
      rewrite Forall_forall in Hf. rewrite (lower_basic U HU _ (Hf _ Hin)). reflexivity. }
  cbn [lower basic_db].
  destruct (List.find _ _); [done|].
  destruct (sub_nonword_basic U HU _ Hk) as [E Hb].
  rewrite (lower_basic U HU _ Hb), E. done.
Qed.

(** X11.  On a label that is made of Basic Latin characters and ideographs
    once trimmed and freed of its trailing colons, [normalize_key] is
    idempotent: the key it returns is mapped to itself.
    This is what [categorize_fields] relies on when it runs the keys of the
    parsed record through [normalize_key] a second time. *)
Theorem normalize_key_idempotent (U : TextDB) (key : str) :
  TextDB_ok U -> Forall basic (rstrip_by is_colon (strip key)) ->
  normalize_key U (normalize_key U key) = normalize_key U key.
Proof.
  intros HU Hb'. rewrite (normalize_key_trimmed U key HU Hb').
  assert (Forall basic (normalize_key basic_db key)
          /\ normalize_key basic_db (normalize_key basic_db key) = normalize_key basic_db key)
    as [Hk E].
  { unfold normalize_key at 1 3 4. destruct (negb (truthy key)); [done|].
    destruct (List.find _ _) as [[pattern standard_key]|] eqn:Ef.
    - apply find_some in Ef as [Hin _]. apply list_elem_of_In in Hin.
      exact (canonical_names_fixed _ Hin).
    - by apply fallback_fixed. }
  by rewrite (normalize_key_basic U HU _ Hk).
Qed.

Lemma normalize_key_idempotent_witness :
  normalize_key basic_db (u "Recovery Log #2：") = u "recovery_log__2"
  /\ normalize_key basic_db (normalize_key basic_db (u "Recovery Log #2："))
     = normalize_key basic_db (u "Recovery Log #2：").
Proof.
  split; [vm_compute; reflexivity|].
  apply (normalize_key_idempotent basic_db (u "Recovery Log #2：") basic_db_ok).
  apply forallb_basic. vm_compute. reflexivity.
Defined.

End KeyIdempotence.

(** ** What a page contributes: the identifier, the images, the tags *)

Module PageExtras.

Import SCPParser Scraper Design Samples TextFacts TransferFacts ParseProps ScrapeProps.

(** *** The identifier in the URL *)

Lemma search_scp_skip (U : TextDB) (c : Z) (s : str) :
  ci_match 115 c = false -> search_scp U (c :: s) = search_scp U s.
Proof.
  intros H. cbn [search_scp]. unfold match_scp_at.
  destruct s as [|c2 [|c3 [|c4 t]]]; try reflexivity. by rewrite H.
Qed.

Lemma search_scp_no_digit (U : TextDB) (c1 c2 c3 c4 c5 : Z) (t : str) :
  re_digit U c5 = false ->
  search_scp U (c1 :: c2 :: c3 :: c4 :: c5 :: t) = search_scp U (c2 :: c3 :: c4 :: c5 :: t).
Proof.
  intros H. change (search_scp U (c1 :: c2 :: c3 :: c4 :: c5 :: t))
    with (match match_scp_at U (c1 :: c2 :: c3 :: c4 :: c5 :: t) with
          | Some digits => Some digits
          | None => search_scp U (c2 :: c3 :: c4 :: c5 :: t)
          end).
  unfold match_scp_at at 1. cbn [take_while]. rewrite H. by destruct (_ && _).
Qed.

Lemma take_while_all (p : Z -> bool) (s : str) : forallb p s = true -> take_while p s = s.
Proof.
  induction s as [|c s IH]; cbn; [done|]. intros H. apply andb_true_iff in H as [-> H].
  by rewrite IH.
Qed.

Lemma digits_in_table (U : TextDB) (s : str) :
  TextDB_ok U -> forallb ascii_digit s = true -> forallb (re_digit U) s = true.
Proof.
  intros HU H. apply forallb_forall. intros c Hc.
  rewrite forallb_forall in H. specialize (H c Hc).
  rewrite (re_digit_ascii U HU); [done|]. unfold ascii_digit in H. lia.
Qed.

(** X12.  The address [scrape_scp] requests and the fallback of the parser
    agree: for an identifier that is not negative, the [id] that
    [extract_id_from_url] reads from [base_url + harmonize_id(id)] is the
    identifier in the format [SCP-%03d] (the token [scp-] of the host name is
    passed over since no digit follows it). *)
Theorem extract_id_of_requested_url (U : TextDB) (id : Z) :
  TextDB_ok U -> 0 <= id ->
  extract_id_from_url U (base_url ++ harmonize_id id) = SCP_PREFIX ++ format_03d id.
Proof.
  intros HU Hid. change (format_03d id) with (harmonize_id id).
  unfold harmonize_id, str_of_Z. destruct (Z.ltb_spec id 0); [lia|].
  pose proof (str_of_uint_digits (N.to_uint (Z.to_N id))) as Hds.
  destruct (zfill3_digits _ Hds) as (-> & Hd & Hl).
  set (d := zfill_digits 3 _) in *. clearbody d.
  assert (zfill3 d = d) as Hz.
  { destruct (zfill3_digits d Hd) as (-> & _ & _). unfold zfill_digits.
    replace (3 - length d)%nat with 0%nat by lia. reflexivity. }
  unfold extract_id_from_url.
  assert (search_scp U (base_url ++ d) = Some d) as ->; [|by rewrite Hz].
  unfold base_url. cbn [app].
  do 7 (rewrite search_scp_skip by reflexivity).
  rewrite search_scp_no_digit
    by (rewrite (re_digit_ascii U HU); [reflexivity|lia]).
  do 23 (rewrite search_scp_skip by reflexivity).
  cbn [search_scp match_scp_at].
  change (ci_match 115 115 && ci_match 99 99 && ci_match 112 112 && ci_match 45 45) with true.
  cbn iota. rewrite (take_while_all _ _ (digits_in_table U d HU Hd)).
  destruct d; [cbn in Hl; lia|done].
Qed.

Lemma extract_id_of_requested_url_witness :
  extract_id_from_url basic_db (base_url ++ harmonize_id 49) = u "SCP-049".
Proof.
  rewrite (extract_id_of_requested_url basic_db 49 basic_db_ok); [reflexivity|lia].
Defined.

(** *** Relevance of an image *)

Lemma contains_app_l (s a b : str) : contains s (a ++ b) = true -> contains s a = true.
Proof.
  assert (forall s, startswith s (a ++ b) = true -> startswith s a = true) as Hs.
  { clear s. induction a as [|x a IH]; intros s; [by destruct s|].
    destruct s as [|c s]; cbn [app startswith]; [done|].
    intros H. apply andb_true_iff in H as [Hc H]. rewrite Hc. by apply IH. }
  induction s as [|c s IH]; cbn [contains].
  - rewrite !orb_false_r. apply Hs.
  - intros H. apply orb_true_iff in H as [H|H].
    + by rewrite (Hs _ H).
    + rewrite (IH H). apply orb_true_r.
Qed.

Lemma is_relevant_closed (U : TextDB) (url alt title scp_id_formatted : str) :
  _is_relevant_image U url alt title scp_id_formatted
  = contains (if truthy url then lower U url else []) S_scp
    || contains (if truthy alt then lower U alt else []) S_scp
    || contains (if truthy title then lower U title else []) S_scp.
Proof.
  unfold _is_relevant_image.
  destruct (contains _ (S_scp_dash ++ scp_id_formatted)) eqn:E1.
  - change S_scp_dash with (S_scp ++ [45]) in E1. rewrite <- app_assoc in E1.
    by rewrite (contains_app_l _ _ _ E1).
  - destruct (contains (if truthy url then lower U url else []) S_scp); [done|].
    cbn [orb]. destruct alt, title; reflexivity.
Qed.

Lemma images_loop_ext (W : Web) (U : TextDB) (a b page_url : str) (imgs : list img) :
  forall ordered seen,
    images_loop W U a page_url imgs ordered seen
    = images_loop W U b page_url imgs ordered seen.
Proof.
  induction imgs as [|img_tag imgs IH]; intros ordered seen; cbn [images_loop]; [done|].
  assert (forall keep1 keep2 urls ordered seen,
            (forall x, keep1 x = keep2 x) ->
            add_unseen keep1 urls ordered seen = add_unseen keep2 urls ordered seen) as Hext.
  { clear. intros keep1 keep2 urls. induction urls as [|x urls IH]; intros ordered seen H;
      cbn [add_unseen]; [done|]. rewrite (H x). destruct (_ && _); by apply IH. }
  destruct (_normalize_and_filter_urls W U (_extract_urls_from_img W img_tag) page_url)
    as [normalized|]; [|done].
  rewrite (Hext _ (fun url => _is_relevant_image U url (attr (img_alt img_tag))
                                (attr (img_title img_tag)) b)).
  - destruct (add_unseen _ _ ordered seen). apply IH.
  - intros x. by rewrite !is_relevant_closed.
Qed.

(** X13.  The identifier plays no part in the choice of the images: the test
    for [scp-] followed by the identifier is subsumed by the test for [scp]
    that follows it, so [_is_relevant_image] is the test that the lower-cased
    URL, alternative text or title contains [scp], and
    [extract_images_from_soup] returns the same list for every identifier. *)
Theorem images_ignore_identifier (W : Web) (U : TextDB) (page : option content)
  (scp_id other_id : Z) (page_url url alt title scp_id_formatted : str) :
  _is_relevant_image U url alt title scp_id_formatted
  = contains (if truthy url then lower U url else []) S_scp
    || contains (if truthy alt then lower U alt else []) S_scp
    || contains (if truthy title then lower U title else []) S_scp
  /\ extract_images_from_soup W U page scp_id page_url
     = extract_images_from_soup W U page other_id page_url.
Proof.
  split; [apply is_relevant_closed|].
  destruct page as [page|]; [|done]. unfold extract_images_from_soup.
  by rewrite (images_loop_ext W U (harmonize_id scp_id) (harmonize_id other_id)).
Qed.

(** *** The candidates of an element *)

Lemma truthy_nonempty (s : str) : truthy s = true <-> s <> [].
Proof. by destruct s. Qed.

Lemma img_candidates_spec (img_tag : img) (candidate : str) :
  candidate ∈ img_candidates img_tag <-> candidate_of img_tag candidate.
Proof.
  unfold img_candidates, candidate_of.
  set (src := strip (attr (img_src img_tag))).
  set (ds := strip (attr (img_data_src img_tag))).
  set (di := strip (attr (img_data_image img_tag))).
  set (srcset := strip (attr (img_srcset img_tag))).
  assert (candidate ∈ (if truthy src then [src] else [])
          <-> candidate <> [] /\ candidate = src) as H1.
  { destruct (truthy src) eqn:E.
    - rewrite list_elem_of_singleton. apply truthy_nonempty in E.
      split; [by intros ->|by intros [_ ->]].
    - rewrite elem_of_nil. split; [done|]. intros [Hne ->]. by destruct src. }
  assert (candidate ∈ List.filter truthy [ds; di]
          <-> candidate <> [] /\ (candidate = ds \/ candidate = di)) as H2.
  { rewrite list_elem_of_In, filter_In, truthy_nonempty. cbn [In].
    split; [intros [[<-|[<-|[]]] ?]; tauto|intros [? [->| ->]]; tauto]. }
  assert (candidate ∈ (if truthy srcset
                       then List.filter truthy
                              (List.map (fun part => strip (hd [] (split_on 32 (strip part))))
                                 (split_on 44 srcset))
                       else [])
          <-> candidate <> []
              /\ exists part, part ∈ split_on 44 srcset
                              /\ candidate = strip (hd [] (split_on 32 (strip part)))) as H3.
  { destruct (truthy srcset) eqn:E.
    - rewrite list_elem_of_In, filter_In, truthy_nonempty, in_map_iff. split.
      + intros [(part & <- & Hp) Hne]. split; [done|]. exists part.
        by rewrite list_elem_of_In.
      + intros [Hne (part & Hp & ->)]. split; [|done]. exists part.
        by rewrite <- list_elem_of_In.
    - rewrite elem_of_nil. split; [done|]. intros [Hne (part & Hp & ->)].
      destruct srcset; [|done]. cbn in Hp. apply list_elem_of_singleton in Hp as ->.
      by apply Hne. }
  rewrite !elem_of_app, H1, H2, H3. clear. split.
  - intros [[? ?]|[[? [?|?]]|[? ?]]]; (split; [done|]); tauto.
  - intros [? [?|[?|[?|?]]]]; tauto.
Qed.

Lemma normalize_None (W : Web) (U : TextDB) (urls : list str) (page_url : str) :
  _normalize_and_filter_urls W U urls page_url = None
  <-> exists candidate, candidate ∈ urls /\ urljoin W page_url candidate = None.
Proof.
  induction urls as [|x urls IH]; cbn [_normalize_and_filter_urls].
  - split; [done|]. intros (c & Hc & _). by apply elem_of_nil in Hc.
  - destruct (urljoin W page_url x) as [full|] eqn:E.
    + destruct (_normalize_and_filter_urls W U urls page_url) as [l|].
      * split; [done|]. intros (c & Hc & Hn). apply elem_of_cons in Hc as [->|Hc];
          [congruence|]. destruct IH as [_ IH]. by discriminate IH; [exists c].
      * split; [|done]. intros _. destruct IH as [(c & Hc & Hn) _]; [done|].
        exists c. split; [by right|done].
    + split; [|done]. intros _. exists x. split; [left|done].
Qed.

Lemma normalize_Some (W : Web) (U : TextDB) (urls : list str) (page_url : str) :
  forall abs_urls,
    _normalize_and_filter_urls W U urls page_url = Some abs_urls ->
    forall url,
      url ∈ abs_urls
      <-> exists candidate,
            candidate ∈ urls /\ urljoin W page_url candidate = Some url
            /\ is_image_url U url = true.
Proof.
  induction urls as [|x urls IH]; cbn [_normalize_and_filter_urls]; intros abs_urls.
  - intros [= <-] url. rewrite elem_of_nil. split; [done|].
    intros (c & Hc & _). by apply elem_of_nil in Hc.
  - destruct (urljoin W page_url x) as [full|] eqn:E; [|done].
    destruct (_normalize_and_filter_urls W U urls page_url) as [l|]; [|done].
    intros [= <-] url. specialize (IH l eq_refl url).
    assert (url ∈ (if is_image_url U full then full :: l else l)
            <-> (url = full /\ is_image_url U full = true) \/ url ∈ l) as ->.
    { destruct (is_image_url U full); rewrite ?elem_of_cons; [tauto|].
      split; [tauto|]. intros [[_ ?]|?]; done. }
    rewrite IH. split.
    + intros [[-> Hk]|(c & Hc & Hj & Hk)]; [exists x|exists c]; rewrite elem_of_cons; tauto.
    + intros (c & Hc & Hj & Hk). apply elem_of_cons in Hc as [->|Hc].
      * left. split; congruence.
      * right. by exists c.
Qed.

(** X14.  Which URLs [extract_images_from_soup] returns, when the set of
    candidates of an element enumerates its members.  The candidates of an
    [img] are the non-empty texts among its trimmed [src], [data-src] and
    [data-image] attributes and the trimmed first tokens of the entries of
    its [srcset].  The call raises exactly when [urljoin] raises on a
    candidate of some [img] of the content region.  Otherwise a URL is
    returned exactly when it is the absolute form of such a candidate, starts
    with [http://] or [https://], ends in lower case with one of the image
    extensions, and is relevant for that element; no URL is returned
    twice. *)
Theorem extract_images_membership (W : Web) (U : TextDB) (page : content) (scp_id : Z)
  (page_url : str) :
  set_order_ok (set_order W) ->
  let result := extract_images_from_soup W U (Some page) scp_id page_url in
  (result = None <->
   exists img_tag candidate,
     img_tag ∈ content_imgs page
     /\ candidate <> []
     /\ (candidate = strip (attr (img_src img_tag))
         \/ candidate = strip (attr (img_data_src img_tag))
         \/ candidate = strip (attr (img_data_image img_tag))
         \/ exists part,
              part ∈ split_on 44 (strip (attr (img_srcset img_tag)))
              /\ candidate = strip (hd [] (split_on 32 (strip part))))
     /\ urljoin W page_url candidate = None)
  /\ forall urls,
       result = Some urls ->
       NoDup urls
       /\ forall url,
            url ∈ urls <->
            exists img_tag candidate,
              img_tag ∈ content_imgs page
              /\ candidate <> []
              /\ (candidate = strip (attr (img_src img_tag))
                  \/ candidate = strip (attr (img_data_src img_tag))
                  \/ candidate = strip (attr (img_data_image img_tag))
                  \/ exists part,
                       part ∈ split_on 44 (strip (attr (img_srcset img_tag)))
                       /\ candidate = strip (hd [] (split_on 32 (strip part))))
              /\ urljoin W page_url candidate = Some url
              /\ (startswith url S_http || startswith url S_https) = true
              /\ existsb (fun ext => endswith (lower U url) ext) IMAGE_EXTS = true
              /\ _is_relevant_image U url (attr (img_alt img_tag)) (attr (img_title img_tag))
                   (harmonize_id scp_id) = true.
Proof.
  intros Hset. cbn zeta. rewrite extract_images_spec.
  assert (forall img_tag candidate,
            candidate ∈ _extract_urls_from_img W img_tag
            <-> candidate <> []
                /\ (candidate = strip (attr (img_src img_tag))
                    \/ candidate = strip (attr (img_data_src img_tag))
                    \/ candidate = strip (attr (img_data_image img_tag))
                    \/ exists part,
                         part ∈ split_on 44 (strip (attr (img_srcset img_tag)))
                         /\ candidate = strip (hd [] (split_on 32 (strip part))))) as Hcand.
  { intros img_tag candidate. unfold _extract_urls_from_img.
    destruct (Hset (img_candidates img_tag)) as [_ ->]. apply img_candidates_spec. }
  split.
  - rewrite fmap_None, mapM_None, Exists_exists. split.
    + intros (img_tag & Himg & Hn). unfold element_urls in Hn.
      apply fmap_None, normalize_None in Hn as (candidate & Hc & Hj).
      apply Hcand in Hc as [Hne Hc]. by exists img_tag, candidate.
    + intros (img_tag & candidate & Himg & Hne & Hc & Hj). exists img_tag.
      split; [done|]. unfold element_urls. apply fmap_None, normalize_None.
      exists candidate. split; [by apply Hcand|done].
  - intros urls Hurls. apply fmap_Some in Hurls as (lists & Hlists & ->).
    destruct (first_seen_spec (concat lists) []) as [Hnd Hin].
    split; [done|]. intros url. rewrite Hin, list_elem_of_In, in_concat.
    apply mapM_Some_1 in Hlists. split.
    + intros [(l & Hl & Hu) _]. apply list_elem_of_In in Hl.
      apply list_elem_of_lookup in Hl as [i Hi].
      destruct (Forall2_lookup_r _ _ _ i l Hlists Hi) as (img_tag & Himg & He).
      unfold element_urls in He. apply fmap_Some in He as (normalized & Hn & ->).
      apply filter_In in Hu as [Hu Hrel]. apply list_elem_of_In in Hu.
      apply (normalize_Some W U _ _ _ Hn) in Hu as (candidate & Hc & Hj & Hk).
      apply Hcand in Hc as [Hne Hc]. unfold is_image_url in Hk.
      apply andb_true_iff in Hk as [Hhttp Hext].
      exists img_tag, candidate. split; [by eapply list_elem_of_lookup_2|done].
    + intros (img_tag & candidate & Himg & Hne & Hc & Hj & Hhttp & Hext & Hrel).
      split; [|by rewrite elem_of_nil; intros ?].
      apply list_elem_of_lookup in Himg as [i Hi].
      destruct (Forall2_lookup_l _ _ _ i img_tag Hlists Hi) as (l & Hl & He).
      exists l. split; [by eapply list_elem_of_In, list_elem_of_lookup_2|].
      unfold element_urls in He. apply fmap_Some in He as (normalized & Hn & ->).
      apply filter_In. split; [|done]. apply list_elem_of_In.
      apply (normalize_Some W U _ _ _ Hn). exists candidate.
      split; [by apply Hcand|]. split; [done|]. unfold is_image_url. by rewrite Hhttp, Hext.
Qed.

Lemma extract_images_membership_witness :
  let img_tag := {| img_src := Some (u " http://h/scp-1.png ");
                    img_data_src := None;
                    img_data_image := Some (u "http://h/scp-2.png");
                    img_srcset := Some (u "http://h/scp-3.png 1x, http://h/other.png 2x");
                    img_alt := None; img_title := None |} in
  let page := {| content_elements := []; content_imgs := [img_tag]; content_links := [] |} in
  let W := online empty_page insertion_order in
  let result := extract_images_from_soup W basic_db (Some page) 7 (u "http://h/scp-007") in
  result = Some [u "http://h/scp-1.png"; u "http://h/scp-2.png"; u "http://h/scp-3.png"]
  /\ forall urls,
       result = Some urls ->
       NoDup urls
       /\ forall url,
            url ∈ urls <->
            exists img_tag candidate,
              img_tag ∈ content_imgs page
              /\ candidate <> []
              /\ (candidate = strip (attr (img_src img_tag))
                  \/ candidate = strip (attr (img_data_src img_tag))
                  \/ candidate = strip (attr (img_data_image img_tag))
                  \/ exists part,
                       part ∈ split_on 44 (strip (attr (img_srcset img_tag)))
                       /\ candidate = strip (hd [] (split_on 32 (strip part))))
              /\ urljoin W (u "http://h/scp-007") candidate = Some url
              /\ (startswith url S_http || startswith url S_https) = true
              /\ existsb (fun ext => endswith (lower basic_db url) ext) IMAGE_EXTS = true
              /\ _is_relevant_image basic_db url (attr (img_alt img_tag))
                   (attr (img_title img_tag)) (harmonize_id 7) = true.
Proof.
  cbn zeta. split; [vm_compute; reflexivity|].
  refine (proj2 (extract_images_membership (online empty_page insertion_order) basic_db
                   {| content_elements := [];
                      content_imgs :=
                        [ {| img_src := Some (u " http://h/scp-1.png ");
                             img_data_src := None;
                             img_data_image := Some (u "http://h/scp-2.png");
                             img_srcset :=
                               Some (u "http://h/scp-3.png 1x, http://h/other.png 2x");
                             img_alt := None; img_title := None |} ];
                      content_links := [] |} 7 (u "http://h/scp-007") _)).
  intros l. apply dedup_first_spec.
Defined.

(** *** Tags *)

Lemma add_tags_spec (U : TextDB) (texts : list str) :
  forall tags,
    NoDup tags ->
    NoDup (fold_left (add_tag U) texts tags)
    /\ forall t, t ∈ fold_left (add_tag U) texts tags
                 <-> t ∈ tags
                     \/ (admissible_tag U t /\ exists x, x ∈ texts /\ t = strip x).
Proof.
  induction texts as [|x texts IH]; intros tags Hnd; cbn [fold_left].
  - split; [done|]. intros t. split; [by left|]. intros [?|(_ & x & Hx & _)]; [done|].
    by apply elem_of_nil in Hx.
  - assert (NoDup (add_tag U tags x)
            /\ forall t, t ∈ add_tag U tags x
                         <-> t ∈ tags \/ (admissible_tag U t /\ t = strip x)) as [Hnd' Hin'].
    { unfold add_tag, admissible_tag.
      destruct (truthy (strip x)) eqn:Et; cbn [andb].
      2:{ split; [done|]. intros t. split; [by left|]. intros [?|[[Hne _] ->]]; [done|].
          by destruct (strip x). }
      destruct (in_list (lower U (strip x)) filtered_tags) eqn:Ef; cbn [andb negb].
      { split; [done|]. intros t. split; [by left|]. intros [?|[[_ Hf] ->]]; [done|].
        exfalso. apply Hf. by apply in_list_spec. }
      assert (lower U (strip x) ∉ filtered_tags) as Hnf
        by (rewrite <- in_list_spec; congruence).
      apply truthy_nonempty in Et.
      destruct (in_list (strip x) tags) eqn:Ei; cbn [negb].
      { apply in_list_spec in Ei. split; [done|]. intros t. split; [by left|].
        intros [?|[_ ->]]; done. }
      assert (strip x ∉ tags) as Hni by (rewrite <- in_list_spec; congruence).
      split.
      - apply NoDup_app. split; [done|]. split; [|apply NoDup_singleton].
        intros y Hy. rewrite list_elem_of_singleton. by intros ->.
      - intros t. rewrite elem_of_app, list_elem_of_singleton. split.
        + intros [? | ->]; [by left|]. right. by repeat split.
        + intros [? | [_ ->]]; [by left|by right]. }
    destruct (IH _ Hnd') as [Hn Hin]. split; [done|].
    intros t. rewrite Hin, Hin'. split.
    + intros [[?|[Ha ->]]|(Ha & y & Hy & ->)]; [by left|right..].
      * split; [done|]. exists x. split; [left|done].
      * split; [done|]. exists y. split; [by right|done].
    + intros [?|(Ha & y & Hy & ->)]; [by left; left|].
      apply elem_of_cons in Hy as [->|Hy]; [left; right; done|].
      right. split; [done|]. by exists y.
Qed.

Lemma link_tags_fold (U : TextDB) (links : list link) :
  forall tags,
    fold_left
      (fun tags l => if contains (href l) S_tag_path then add_tag U tags (link_text l) else tags)
      links tags
    = fold_left (add_tag U)
        (List.map link_text (List.filter (fun l => contains (href l) S_tag_path) links)) tags.
Proof.
  induction links as [|l links IH]; intros tags; cbn [fold_left List.filter]; [done|].
  destruct (contains (href l) S_tag_path); cbn [List.map fold_left]; apply IH.
Qed.

(** X15.  The tags [extract_tags_from_soup] returns are distinct and
    trimmed.  A text is returned exactly when it is non-empty, is not one of
    the filtered tags once in lower case, and is the trimmed text of a link
    of the tag container or, only when the container gives no tag at all, of
    a content link whose address contains [/tag/]. *)
Theorem extract_tags_sound (U : TextDB) (doc : soup) :
  let tags := extract_tags_from_soup U doc in
  let from_container t :=
    exists texts x, page_tags doc = Some texts /\ x ∈ texts /\ t = strip x in
  let from_links t :=
    exists page l, page_content doc = Some page /\ l ∈ content_links page
                   /\ contains (href l) S_tag_path = true /\ t = strip (link_text l) in
  let container_gives_none := forall t, from_container t -> ~ admissible_tag U t in
  NoDup tags
  /\ (forall t, t ∈ tags -> strip t = t)
  /\ (forall t, t ∈ tags <->
        admissible_tag U t
        /\ (from_container t \/ (container_gives_none /\ from_links t))).
Proof.
  cbn zeta.
  assert (NoDup (extract_tags_from_soup U doc)
          /\ forall t, t ∈ extract_tags_from_soup U doc <->
               admissible_tag U t
               /\ ((exists texts x, page_tags doc = Some texts /\ x ∈ texts /\ t = strip x)
                   \/ ((forall t,
                          (exists texts x, page_tags doc = Some texts /\ x ∈ texts
                                           /\ t = strip x) ->
                          ~ admissible_tag U t)
                       /\ exists page l, page_content doc = Some page
                                         /\ l ∈ content_links page
                                         /\ contains (href l) S_tag_path = true
                                         /\ t = strip (link_text l)))) as [Hnd Hin].
  2:{ split; [done|]. split; [|done]. intros t Ht. apply Hin in Ht.
      destruct Ht as [_ [(? & x & _ & _ & ->)|[_ (? & l & _ & _ & _ & ->)]]];
        apply CleanProps.strip_idem. }
  unfold extract_tags_from_soup.
  set (first := match page_tags doc with
                | Some texts => fold_left (add_tag U) texts []
                | None => []
                end).
  assert (NoDup first
          /\ forall t, t ∈ first <->
               admissible_tag U t
               /\ exists texts x, page_tags doc = Some texts /\ x ∈ texts /\ t = strip x)
    as [Hnd1 Hin1].
  { subst first. destruct (page_tags doc) as [texts|].
    - destruct (add_tags_spec U texts [] (NoDup_nil_2)) as [Hn Hi]. split; [done|].
      intros t. rewrite Hi, elem_of_nil. split.
      + intros [[]|(Ha & x & Hx & ->)]. split; [done|]. by exists texts, x.
      + intros (Ha & texts' & x & [= <-] & Hx & ->). right. split; [done|]. by exists x.
    - split; [apply NoDup_nil_2|]. intros t. rewrite elem_of_nil. split; [done|].
      by intros (_ & ? & ? & ? & _). }
  destruct first as [|t0 tags0] eqn:Ef.
  - assert (forall t,
              (exists texts x, page_tags doc = Some texts /\ x ∈ texts /\ t = strip x) ->
              ~ admissible_tag U t) as Hnone.
    { intros t Hc Ha. assert (t ∈ []) as Hin by (apply Hin1; by split).
      by apply elem_of_nil in Hin. }
    destruct (page_content doc) as [page|].
    + rewrite link_tags_fold.
      destruct (add_tags_spec U
                  (List.map link_text
                     (List.filter (fun l => contains (href l) S_tag_path) (content_links page)))
                  [] (NoDup_nil_2)) as [Hn Hi].
      split; [done|]. intros t. rewrite Hi, elem_of_nil. split.
      * intros [[]|(Ha & x & Hx & ->)]. split; [done|]. right. split; [done|].
        apply list_elem_of_In, in_map_iff in Hx as (l & <- & Hl).
        apply filter_In in Hl as [Hl Hh]. exists page, l. by rewrite list_elem_of_In.
      * intros (Ha & [Hc|(_ & page' & l & [= <-] & Hl & Hh & ->)]).
        { by destruct (Hnone t Hc). }
        right. split; [done|]. exists (link_text l). split; [|done].
        apply list_elem_of_In, in_map_iff. exists l. split; [done|].
        apply filter_In. by rewrite <- list_elem_of_In.
    + split; [apply NoDup_nil_2|]. intros t. rewrite elem_of_nil. split; [done|].
      intros (Ha & [Hc|(_ & ? & ? & ? & _)]); [|done]. by destruct (Hnone t Hc).
  - split; [done|]. intros t. rewrite Hin1. split.
    + intros [Ha Hc]. split; [done|]. by left.
    + intros (Ha & [Hc|(Hnone & _)]); [done|]. exfalso.
      assert (t0 ∈ t0 :: tags0) as H0 by left.
      apply Hin1 in H0 as [Ha0 Hc0]. by apply (Hnone t0).
Qed.

End PageExtras.

(** ** Runs: the listing pages and the record of a page *)

Module RunExtras.

Import SCPParser SCPValidator Scraper Design Invariants Samples SeriesProps ValidatorProps
  TextFacts TransferFacts ParseProps ScrapeProps CacheProps TaskProps RecordExtras.

(** *** The listing pages of a run *)

Lemma harmonize_id_head (id : Z) (c : Z) (r : str) :
  harmonize_id id = c :: r -> c = 45 \/ 48 <= c <= 57.
Proof.
  unfold harmonize_id, str_of_Z. destruct (id <? 0).
  - cbn [zfill3]. intros [= <- _]. by left.
  - pose proof (str_of_uint_digits (N.to_uint (Z.to_N id))) as Hd.
    destruct (zfill3_digits _ Hd) as (-> & Hz & _). intros E. rewrite E in Hz.
    cbn in Hz. apply andb_true_iff in Hz as [Hc _]. unfold ascii_digit in Hc. right. lia.
Qed.

Lemma page_url_no_listing (id k : Z) : base_url ++ harmonize_id id <> get_series_url k.
Proof.
  assert (exists r, get_series_url k = base_url ++ 115 :: r) as [r ->].
  { unfold get_series_url. destruct (k =? 1); eexists; reflexivity. }
  intros E. apply app_inv_head in E. apply harmonize_id_head in E. lia.
Qed.

Lemma fetch_series_page_count (W : Web) (g : Z) (w : world) :
  1 <= g <= 9 ->
  cache_ok (cache w) ->
  (forall k, 1 <= k <= 9 ->
     length (List.filter (fun url => str_eqb url (get_series_url k)) (requests w))
     = match lru_get (cache w) k with Some _ => 1 | None => 0 end%nat) ->
  forall k, 1 <= k <= 9 ->
    length (List.filter (fun url => str_eqb url (get_series_url k))
              (requests (fetch_series_page W g w).2))
    = match lru_get (cache (fetch_series_page W g w).2) k with Some _ => 1 | None => 0 end%nat.
Proof.
  intros Hg Hc Hinv k Hk. unfold fetch_series_page.
  destruct (lru_get (cache w) g) as [page|] eqn:E; cbn [snd cache requests].
  - rewrite (Hinv k Hk). unfold lru_touch. cbn [lru_get].
    destruct (Z.eqb_spec g k) as [->|Hne]; [by rewrite E|]. by rewrite lru_get_remove.
  - rewrite lru_store_fresh by done. cbn [List.filter lru_get].
    destruct (Z.eqb_spec g k) as [->|Hne].
    + rewrite str_eqb_refl. cbn [length]. rewrite (Hinv k Hk), E. done.
    + destruct (str_eqb _ _) eqn:Es.
      * apply str_eqb_eq, get_series_url_inj in Es; done.
      * apply (Hinv k Hk).
Qed.

Lemma scrape_requests (W : Web) (U : TextDB) (id : Z) (w : world) :
  requests (scrape_scp W U id w).2
  = (base_url ++ harmonize_id id) :: requests (get_scp_name_from_series W id w).2.
Proof. unfold scrape_scp. by destruct (get_scp_name_from_series W id w). Qed.

(** X16.  In a run that starts with an empty cache every listing page is
    requested at most once: the number of requests sent for the listing of a
    grouping is 1 when the grouping is in the cache and 0 when it is not.
    (In such a run the cache holds at most 9 of its 16 places.) *)
Theorem run_requests_listing_once (W : Web) (U : TextDB) (w : world) (k : Z) :
  run W U initial_world w -> 1 <= k <= 9 ->
  length (List.filter (fun url => str_eqb url (get_series_url k)) (requests w))
  = match lru_get (cache w) k with Some _ => 1 | None => 0 end%nat
  /\ (length (cache w) <= 9)%nat.
Proof.
  intros Hrun Hk.
  assert (cache_ok (cache initial_world)) as H0 by (split; constructor).
  split; [|by eapply cache_ok_length, run_ok].
  revert k Hk.
  remember initial_world as w0 eqn:E0.
  induction Hrun as [w0|w0 w1 w2 Hr IH Hc]; intros k Hk.
  - by subst.
  - specialize (IH E0 H0). pose proof (run_ok _ _ _ _ Hr H0) as Hok. clear Hr.
    destruct Hc as [_id w1|id w1].
    + rewrite name_world.
      apply fetch_series_page_count; [apply get_series_number_range|done..].
    + rewrite scrape_requests, scrape_cache, name_world. cbn [List.filter].
      destruct (str_eqb _ _) eqn:Es.
      * apply str_eqb_eq in Es. by apply page_url_no_listing in Es.
      * apply fetch_series_page_count; [apply get_series_number_range|done..].
Qed.

Lemma run_requests_listing_once_witness :
  let W := online empty_page insertion_order in
  let w := (scrape_scp W basic_db 500 (scrape_scp W basic_db 7 initial_world).2).2 in
  length (requests w) = 3%nat
  /\ length (List.filter (fun url => str_eqb url (get_series_url 1)) (requests w))
     = match lru_get (cache w) 1 with Some _ => 1 | None => 0 end%nat
  /\ (length (cache w) <= 9)%nat.
Proof.
  cbn zeta. split; [vm_compute; reflexivity|].
  apply (run_requests_listing_once (online empty_page insertion_order) basic_db); [|lia].
  eapply run_call; [eapply run_call; [apply run_done|]|]; apply call_scrape.
Defined.

(** X17.  A call of [fetch_series_page] that follows a call for the same
    grouping is answered from the cache: it returns the same page and leaves
    the cache and the requests as they are, whatever the first call
    returned. *)
Theorem fetch_series_page_again (W : Web) (series_number : Z) (w : world) :
  let first := fetch_series_page W series_number w in
  fetch_series_page W series_number first.2 = (first.1, first.2).
Proof.
  cbn zeta. unfold fetch_series_page at 2 3 4.
  destruct (lru_get (cache w) series_number) as [page|] eqn:E; cbn [fst snd].
  - unfold fetch_series_page, lru_touch. cbn [cache requests lru_get lru_remove].
    by rewrite Z.eqb_refl.
  - set (page := fetch_series_body W series_number (requests w)).
    assert (exists c, lru_store (cache w) series_number page = (series_number, page) :: c)
      as [c Hc].
    { unfold lru_store. rewrite E. destruct (_ <=? _)%nat; eexists; reflexivity. }
    unfold fetch_series_page, lru_touch. cbn [cache requests]. rewrite Hc.
    cbn [lru_get lru_remove]. by rewrite Z.eqb_refl.
Qed.

(** *** What scrape_scp returns *)

Lemma get_update {V} (other : Dict.t V) (k : str) :
  NoDup (Dict.keys other) ->
  forall d : Dict.t V,
    Dict.get (Dict.update d other) k
    = match Dict.get other k with Some v => Some v | None => Dict.get d k end.
Proof.
  unfold Dict.update.
  induction other as [|[k0 v0] other IH]; intros Hn d; cbn [fold_left fst snd]; [done|].
  cbn in Hn. apply NoDup_cons in Hn as [Hk0 Hn]. rewrite (IH Hn). cbn [Dict.get].
  destruct (str_eqb k0 k) eqn:E.
  - apply str_eqb_eq in E. subst k0. rewrite (KeyExtras.get_absent other k Hk0).
    apply DictFacts.get_put_eq.
  - apply str_eqb_neq in E. destruct (Dict.get other k); [done|].
    by apply DictFacts.get_put_ne.
Qed.

Lemma categorize_fields_NoDup (U : TextDB) (data : record) :
  NoDup (Dict.keys (categorize_fields U data)).
Proof.
  unfold categorize_fields.
  assert (forall (l : list (str * value)) (acc : record),
            NoDup (Dict.keys acc) ->
            NoDup (Dict.keys (fold_left (fun acc kv => Dict.put acc (normalize_key U (fst kv))
                                                         (snd kv)) l acc))) as H1.
  { induction l as [|kv l IH]; intros acc Ha; cbn [fold_left]; [done|].
    by apply IH, put_NoDup. }
  assert (forall (l : record) (acc : record),
            NoDup (Dict.keys acc) ->
            NoDup (Dict.keys (fold_left (categorize_step U) l acc))) as H2.
  { induction l as [|kv l IH]; intros acc Ha; cbn [fold_left]; [done|].
    by apply IH, categorize_step_NoDup. }
  apply H2. destruct (Dict.get data K_more_info) as [[s|n|l|m]|]; try apply NoDup_nil_2.
  apply H1, NoDup_nil_2.
Qed.

Lemma categorize_fields_plain (U : TextDB) (data : record) :
  Forall ensured data ->
  Forall (fun kv => forall m, snd kv <> VDict m) (categorize_fields U data).
Proof.
  intros Hd. unfold categorize_fields.
  assert (match Dict.get data K_more_info with
          | Some (VDict existing_more_info) =>
              fold_left (fun acc kv => Dict.put acc (normalize_key U (fst kv)) (snd kv))
                existing_more_info (Dict.empty : record)
          | _ => Dict.empty
          end = []) as ->.
  { destruct (Dict.get data K_more_info) as [v|] eqn:E; [|done].
    apply get_elem in E. rewrite Forall_forall in Hd.
    destruct (Hd _ E) as (s' & E' & _). cbn in E'. by subst. }
  assert (forall acc : record,
            Forall (fun kv => forall m, snd kv <> VDict m) acc ->
            Forall (fun kv => forall m, snd kv <> VDict m)
              (fold_left (categorize_step U) data acc)) as H.
  { induction Hd as [|kv data Hkv Hd IH]; intros acc Ha; cbn [fold_left]; [done|].
    apply IH. unfold categorize_step. destruct (str_eqb (fst kv) K_more_info); [done|].
    apply put_Forall; [done|]. intros k' m. cbn [snd].
    destruct Hkv as (s & -> & _). discriminate. }
  apply H. constructor.
Qed.

Lemma update_Forall {V} (P : str * V -> Prop) (other d : Dict.t V) :
  Forall P d -> Forall (fun kv => forall k', P (k', snd kv)) other ->
  Forall P (Dict.update d other).
Proof.
  unfold Dict.update. intros Hd Ho. revert d Hd.
  induction Ho as [|kv other Hkv Ho IH]; intros d Hd; cbn [fold_left]; [done|].
  apply IH. by apply put_Forall.
Qed.

Lemma affix_additional_plain (results : record) :
  Forall (fun kv => forall m, snd kv <> VDict m) results -> affix_additional results = results.
Proof.
  intros H. unfold affix_additional.
  destruct (Dict.get results K_more_info) as [[s|n|l|m]|] eqn:E; try done.
  apply get_elem in E. rewrite Forall_forall in H. by destruct (H _ E m).
Qed.

Lemma collected_fields_plain (W : Web) (U : TextDB) (id : Z) (scp_name : str)
  (response : reply) (doc : soup) (page : content) (collected : record) :
  collected_fields W U id scp_name response doc page = Some collected ->
  Forall (fun kv => forall m, snd kv <> VDict m) collected.
Proof.
  unfold collected_fields.
  destruct (extract_images_from_soup _ _ _ _ _) as [images|]; [|done].
  intros H. injection H as <-.
  assert (Forall (fun kv : str * value => forall m, snd kv <> VDict m)
            (Dict.update
               (Dict.put
                  (if truthy scp_name
                   then Dict.put (Dict.put Dict.empty K_series (VInt (get_series_number id)))
                          K_name (VStr scp_name)
                   else Dict.put Dict.empty K_series (VInt (get_series_number id)))
                  K_id (VStr (SCP_PREFIX ++ format_03d id)))
               (parse_page_content U (content_elements page) id (reply_url response)))) as H.
  { apply update_Forall.
    - apply put_Forall; [|done]. destruct (truthy scp_name); repeat constructor; done.
    - eapply Forall_impl.
      + apply categorize_fields_plain.
        apply (ensure_required_fields_id U _ id (reply_url response)
                 (parsed_fields_filled U (content_elements page))).
      + intros kv Hkv k' m. apply Hkv. }
  destruct (extract_tags_from_soup U doc); [|apply put_Forall; [|done]];
    (destruct images; [|apply put_Forall; [|done]]); exact H.
Qed.

Lemma collected_fields_get (W : Web) (U : TextDB) (id : Z) (scp_name : str)
  (response : reply) (doc : soup) (page : content) (collected : record) (k : str) :
  collected_fields W U id scp_name response doc page = Some collected ->
  k <> K_images -> k <> K_tags ->
  Dict.get collected k
  = match Dict.get (parse_page_content U (content_elements page) id (reply_url response)) k with
    | Some v => Some v
    | None =>
        Dict.get
          (Dict.put
             (if truthy scp_name
              then Dict.put (Dict.put Dict.empty K_series (VInt (get_series_number id)))
                     K_name (VStr scp_name)
              else Dict.put Dict.empty K_series (VInt (get_series_number id)))
             K_id (VStr (SCP_PREFIX ++ format_03d id))) k
    end.
Proof.
  intros Hc Hi Ht.
  assert (NoDup (Dict.keys (parse_page_content U (content_elements page) id
                              (reply_url response)))) as Hn
    by apply categorize_fields_NoDup.
  unfold collected_fields in Hc.
  destruct (extract_images_from_soup _ _ _ _ _) as [images|]; [|done].
  injection Hc as <-.
  destruct (extract_tags_from_soup U doc);
    [|rewrite DictFacts.get_put_ne by (by apply not_eq_sym)];
    (destruct images;
     [|rewrite DictFacts.get_put_ne by (by apply not_eq_sym)]);
    by apply get_update.
Qed.

Lemma validate_get (data out : record) (k : str) :
  validate data = Some out -> k <> K_validation_issues -> Dict.get out k = Dict.get data k.
Proof.
  rewrite validate_total. intros [= <-] Hk.
  destruct (issues_of _ _); [done|]. by apply DictFacts.get_put_ne.
Qed.

(** X18.  [scrape_scp] adds the page address to the requests in every case.
    When the request fails or the document has no content region it returns a
    record that is not empty and does not count as a success in the main
    loop.  When the parser rejects the document, or the extraction of the
    images raises (the [ValueError] of [urljoin] on a candidate), the
    exception escapes [scrape_scp].  Otherwise
    it returns a record that is not empty, in which every field of the parsed
    record other than [images], [tags] and [validation_issues] has the
    parser's value (so the [id] stored before parsing is always replaced by
    the parser's); [affix_additional] changes nothing, and the record counts
    as a success exactly when the page has no field named [error]. *)
Theorem scrape_scp_outcome (W : Web) (U : TextDB) (id : Z) (w : world) :
  let url := base_url ++ harmonize_id id in
  let named := get_scp_name_from_series W id w in
  let result := (scrape_scp W U id w).1 in
  requests (scrape_scp W U id w).2 = url :: requests named.2
  /\ match session_get W (requests named.2) url with
     | inl e => exists r, result = Some r /\ r <> [] /\ is_success r = false
     | inr response =>
         match parse_document W (reply_content response) with
         | None => result = None
         | Some doc =>
             match page_content doc with
             | None => exists r, result = Some r /\ r <> [] /\ is_success r = false
             | Some page =>
                 let parsed :=
                   parse_page_content U (content_elements page) id (reply_url response) in
                 match extract_images_from_soup W U (Some page) id (reply_url response) with
                 | None => result = None
                 | Some images =>
                     exists r collected,
                       result = Some r
                       /\ r <> []
                       /\ collected_fields W U id named.1 response doc page = Some collected
                       /\ affix_additional collected = collected
                       /\ is_success r = negb (Dict.has parsed K_error)
                       /\ (forall k v,
                             Dict.get parsed k = Some v ->
                             k <> K_images -> k <> K_tags -> k <> K_validation_issues ->
                             Dict.get r k = Some v)
                       /\ Dict.get r K_images
                          = match images with [] => Dict.get parsed K_images
                                            | _ => Some (VList images) end
                 end
             end
         end
     end.
Proof.
  cbn zeta. rewrite scrape_requests. split; [done|]. unfold scrape_scp.
  destruct (get_scp_name_from_series W id w) as [scp_name wn]. cbn [fst snd].
  unfold record_of_response.
  destruct (session_get W (requests wn) (base_url ++ harmonize_id id)) as [e|response].
  { eexists. repeat split; done. }
  destruct (parse_document W (reply_content response)) as [doc|]; [|done].
  destruct (page_content doc) as [page|] eqn:Ep.
  2:{ eexists. repeat split; done. }
  destruct (collected_fields W U id scp_name response doc page) as [collected|] eqn:Ec.
  2:{ unfold collected_fields in Ec.
      by destruct (extract_images_from_soup W U (Some page) id (reply_url response)). }
  assert (exists images,
            extract_images_from_soup W U (Some page) id (reply_url response) = Some images
            /\ Dict.get collected K_images
               = match images with
                 | [] => Dict.get (parse_page_content U (content_elements page) id
                                     (reply_url response)) K_images
                 | _ => Some (VList images)
                 end) as (images & -> & Himg).
  { pose proof Ec as Ec'. unfold collected_fields in Ec'.
    destruct (extract_images_from_soup W U (Some page) id (reply_url response))
      as [images|]; [|done].
    exists images. split; [done|]. injection Ec' as <-.
    assert (NoDup (Dict.keys (parse_page_content U (content_elements page) id
                                (reply_url response)))) as Hn
      by apply categorize_fields_NoDup.
    destruct (extract_tags_from_soup U doc); [|rewrite DictFacts.get_put_ne by done];
      (destruct images; [|by rewrite DictFacts.get_put_eq]);
      rewrite (get_update _ K_images Hn);
      (destruct (Dict.get (parse_page_content U _ id _) K_images); [done|]);
      by destruct (truthy scp_name). }
  assert (no_valid_field collected = false) as ->.
  { eapply no_valid_field_false; [by eapply collected_fields_series|done]. }
  rewrite (affix_additional_plain collected) by (by eapply collected_fields_plain).
  assert (exists r, validate collected = Some r) as [r Hr]
    by (eexists; apply validate_total).
  exists r, collected.
  assert (forall k, k <> K_validation_issues -> Dict.get r k = Dict.get collected k) as Hget
    by (intros k Hk; by apply validate_get).
  assert (Dict.has r K_series = true) as Hs.
  { unfold Dict.has. rewrite Hget by done.
    by apply (collected_fields_series W U id scp_name response doc page). }
  assert (r <> []) as Hne by (intros ->; done).
  split; [done|]. split; [done|]. split; [done|].
  split; [by eapply affix_additional_plain, collected_fields_plain|]. split; [|split].
  - unfold is_success. destruct r as [|kv r']; [done|]. f_equal.
    unfold Dict.has. rewrite Hget by done.
    rewrite (collected_fields_get _ _ _ _ _ _ _ _ K_error Ec) by done.
    destruct (Dict.get (parse_page_content U _ id _) K_error); [done|].
    destruct (truthy scp_name); reflexivity.
  - intros k v Hv Hi Ht Hvi. rewrite Hget by done.
    rewrite (collected_fields_get _ _ _ _ _ _ _ _ k Ec) by done. by rewrite Hv.
  - by rewrite Hget.
Qed.

End RunExtras.

(** ** The name of an item, identifiers as texts, and the main loop *)

Module NameExtras.

Import SCPParser Scraper Design TextFacts CleanProps.

Lemma rstrip_by_ends (p : Z -> bool) (s a : str) (c : Z) :
  rstrip_by p s = a ++ [c] -> p c = false.
Proof.
  revert a. induction s as [|x t IH]; intros a; cbn [rstrip_by].
  - by destruct a.
  - destruct (rstrip_by p t) as [|y t'] eqn:E.
    + destruct (p x) eqn:Ex; [by destruct a|].
      destruct a as [|a0 a]; [by intros [= <-]|]. intros [= _ H]. by destruct a.
    + destruct a as [|a0 a]; [done|]. intros [= _ H]. by apply (IH a).
Qed.

Lemma startswith_skipn (s sep : str) :
  startswith s sep = true -> s = sep ++ skipn (length sep) s.
Proof.
  intros H. apply startswith_spec in H as [r ->]. by rewrite drop_app_length.
Qed.

Lemma split_first_spec (sep s before after : str) :
  split_first sep s = Some (before, after) -> s = before ++ sep ++ after.
Proof.
  revert before. induction s as [|c s IH]; intros before; cbn [split_first].
  - destruct (startswith [] sep) eqn:E; [|done]. intros [= <- <-].
    by apply startswith_skipn.
  - destruct (startswith (c :: s) sep) eqn:E.
    + intros [= <- <-]. by apply startswith_skipn.
    + destruct (split_first sep s) as [[b a]|]; [|done]. intros [= <- <-].
      cbn [app]. f_equal. by apply IH.
Qed.

(** A trimmed text split at its first [ - ]: what follows is not blank. *)
Lemma strip_after_dash (x before after : str) :
  split_first S_dash_sep (strip x) = Some (before, after) -> strip after <> [].
Proof.
  intros H. apply split_first_spec in H.
  induction after as [|c a _] using rev_ind.
  - exfalso. rewrite app_nil_r in H.
    change S_dash_sep with ([32; 45] ++ [32]) in H. rewrite app_assoc in H.
    apply rstrip_by_ends in H. done.
  - rewrite !app_assoc in H. apply rstrip_by_ends in H.
    assert (c ∈ strip (a ++ [c])) as Hc.
    { apply elem_of_strip; [|done]. apply elem_of_app. right. left. }
    intros E. rewrite E in Hc. by apply elem_of_nil in Hc.
Qed.

Lemma name_from_links_found (scp_link_pattern : str) (links : list link) (name : str) :
  name_from_links scp_link_pattern links = Some name -> name <> [] /\ strip name = name.
Proof.
  induction links as [|l links IH]; cbn [name_from_links]; [done|].
  destruct (contains (href l) scp_link_pattern); [|done].
  destruct (split_first S_dash_sep (strip (link_text l))) as [[before after]|] eqn:E; [|done].
  intros [= <-]. split; [by eapply strip_after_dash|apply strip_idem].
Qed.

Lemma name_from_lines_found (scp_token : str) (lines : list str) (name : str) :
  name_from_lines scp_token lines = Some name ->
  name <> [] /\ strip name = name /\ (0xB7 ∉ name) /\ (0x2022 ∉ name).
Proof.
  induction lines as [|line lines IH]; cbn [name_from_lines]; [done|].
  destruct (contains line scp_token); [|done].
  destruct (split_first S_dash_sep line) as [[before after]|]; [|done].
  destruct (truthy (strip (clean_name_sub (strip after)))) eqn:E; [|done].
  intros [= <-]. split; [by destruct (strip _)|]. split; [apply strip_idem|].
  assert (forall c, c ∈ strip (clean_name_sub (strip after)) ->
                    negb ((c =? 0xB7) || (c =? 0x2022)) = true) as Hc.
  { intros c Hc. apply DedupExtras.elem_of_strip_inv in Hc.
    unfold clean_name_sub in Hc.
    pose proof (ParseProps.take_while_spec
                  (fun c => negb ((c =? 0xB7) || (c =? 0x2022))) (strip after)) as Ht.
    rewrite Forall_forall in Ht. by destruct (Ht c Hc). }
  split; intros Hin; apply Hc in Hin; done.
Qed.

(** X19.  The name [get_scp_name_from_series] returns is trimmed.  A name
    found among the links of the listing is never empty (the link text is
    trimmed before it is split at its first [ - ], so something other than
    white space follows), a name found in the lines of the page text is
    non-empty and holds no middle dot and no bullet: the lookup gives the
    empty name only when neither search finds one. *)
Theorem name_lookup_trimmed (W : Web) (_id : Z) (w : world) (page : listing) :
  let scp_id_formatted := harmonize_id _id in
  strip (get_scp_name_from_series W _id w).1 = (get_scp_name_from_series W _id w).1
  /\ strip (name_in_listing page _id) = name_in_listing page _id
  /\ (name_in_listing page _id = [] <->
      name_from_links (S_scp_dash ++ scp_id_formatted) (listing_links page) = None
      /\ name_from_lines (SCP_PREFIX ++ scp_id_formatted)
           (split_on 10 (listing_text page)) = None)
  /\ (forall name,
        name_from_lines (SCP_PREFIX ++ scp_id_formatted)
          (split_on 10 (listing_text page)) = Some name ->
        (0xB7 ∉ name) /\ (0x2022 ∉ name)).
Proof.
  cbn zeta.
  assert (forall page, strip (name_in_listing page _id) = name_in_listing page _id) as Hn.
  { intros p. unfold name_in_listing.
    destruct (name_from_links _ _) as [n|] eqn:E1.
    - by apply name_from_links_found in E1 as [_ ?].
    - destruct (name_from_lines _ _) as [n|] eqn:E2; [|done].
      by apply name_from_lines_found in E2 as (_ & ? & _). }
  split; [|split; [apply Hn|split]].
  - unfold get_scp_name_from_series.
    destruct (fetch_series_page W (get_series_number _id) w) as [content w'].
    destruct (negb (truthy content)); [done|].
    destruct (parse_listing W content); [apply Hn|done].
  - unfold name_in_listing.
    destruct (name_from_links _ _) as [n|] eqn:E1.
    + apply name_from_links_found in E1 as [? _]. split; [done|by intros [? _]].
    + destruct (name_from_lines _ _) as [n|] eqn:E2; [|done].
      apply name_from_lines_found in E2 as [? _]. split; [done|by intros [_ ?]].
  - intros name H. by apply name_from_lines_found in H as (_ & _ & ? & ?).
Qed.

End NameExtras.

Module MainExtras.

Import SCPParser Scraper Design ParseProps Main RecordExtras.

(** *** Identifiers as texts *)

Lemma str_of_uint_inj (a b : Decimal.uint) : str_of_uint a = str_of_uint b -> a = b.
Proof.
  revert b. induction a; intros []; cbn; intros H; try discriminate; try reflexivity;
    injection H as H; f_equal; by apply IHa.
Qed.

Lemma str_of_uint_no_sign (d : Decimal.uint) (r : str) : str_of_uint d <> 45 :: r.
Proof. by destruct d. Qed.

Lemma str_of_Z_inj (a b : Z) : str_of_Z a = str_of_Z b -> a = b.
Proof.
  unfold str_of_Z. destruct (Z.ltb_spec a 0), (Z.ltb_spec b 0); intros E.
  - injection E as E. apply str_of_uint_inj, DecimalN.Unsigned.to_uint_inj in E. lia.
  - symmetry in E. by apply str_of_uint_no_sign in E.
  - by apply str_of_uint_no_sign in E.
  - apply str_of_uint_inj, DecimalN.Unsigned.to_uint_inj in E. lia.
Qed.

Lemma zfill_digits_uint (width : nat) (d : Decimal.uint) :
  zfill_digits width (str_of_uint d)
  = str_of_uint (Nat.iter (width - length (str_of_uint d)) Decimal.D0 d).
Proof.
  unfold zfill_digits. induction (width - length (str_of_uint d))%nat as [|k IH]; [done|].
  cbn [repeat app Nat.iter str_of_uint]. by rewrite IH.
Qed.

Lemma of_uint_zeros (k : nat) (d : Decimal.uint) :
  N.of_uint (Nat.iter k Decimal.D0 d) = N.of_uint d.
Proof. induction k as [|k IH]; [done|]. cbn [Nat.iter]. by rewrite <- IH. Qed.

Lemma zfill_digits_inj (width : nat) (a b : N) :
  zfill_digits width (str_of_uint (N.to_uint a))
  = zfill_digits width (str_of_uint (N.to_uint b)) -> a = b.
Proof.
  rewrite !zfill_digits_uint. intros E. apply str_of_uint_inj in E.
  apply (f_equal N.of_uint) in E. rewrite !of_uint_zeros in E.
  by rewrite !DecimalN.Unsigned.of_to in E.
Qed.

Lemma harmonize_id_inj (a b : Z) : harmonize_id a = harmonize_id b -> a = b.
Proof.
  unfold harmonize_id, str_of_Z.
  assert (forall n, exists c r, zfill3 (str_of_uint (N.to_uint n)) = c :: r /\ c <> 45) as Hd.
  { intros n. pose proof (str_of_uint_digits (N.to_uint n)) as Hn.
    destruct (zfill3_digits _ Hn) as (-> & Hz & Hl).
    destruct (zfill_digits 3 _) as [|c r]; [cbn in Hl; lia|]. exists c, r. split; [done|].
    cbn in Hz. apply andb_true_iff in Hz as [Hc _]. unfold ascii_digit in Hc. lia. }
  assert (forall n, zfill3 (str_of_uint (N.to_uint n))
                    = zfill_digits 3 (str_of_uint (N.to_uint n))) as Hz.
  { intros n. by destruct (zfill3_digits _ (str_of_uint_digits (N.to_uint n))) as [-> _]. }
  destruct (Z.ltb_spec a 0), (Z.ltb_spec b 0); cbn [zfill3]; intros E.
  - injection E as E. apply zfill_digits_inj in E. lia.
  - destruct (Hd (Z.to_N b)) as (c & r & Hc & Hne). rewrite Hc in E. congruence.
  - destruct (Hd (Z.to_N a)) as (c & r & Hc & Hne). rewrite Hc in E. congruence.
  - rewrite !Hz in E. apply zfill_digits_inj in E. lia.
Qed.

(** X20.  Distinct identifiers never meet: [harmonize_id] is injective, so
    two identifiers are requested at different page addresses and get
    different fallback ids, and [str] is injective, so they are stored under
    different keys of [db]. *)
Theorem identifiers_injective (a b : Z) :
  (harmonize_id a = harmonize_id b -> a = b)
  /\ (base_url ++ harmonize_id a = base_url ++ harmonize_id b -> a = b)
  /\ (SCP_PREFIX ++ format_03d a = SCP_PREFIX ++ format_03d b -> a = b)
  /\ (str_of_Z a = str_of_Z b -> a = b).
Proof.
  split; [apply harmonize_id_inj|]. split; [|split; [|apply str_of_Z_inj]].
  - intros E. by apply app_inv_head, harmonize_id_inj in E.
  - intros E. by apply app_inv_head, harmonize_id_inj in E.
Qed.

(** *** The main block *)

Lemma collect_snoc (completed : list (Z * option record)) (c : Z * option record) :
  collect (completed ++ [c]) = collect_one (collect completed) c.
Proof. unfold collect. by rewrite fold_left_app. Qed.

(** X21.  The main loop accounts for every identifier once, in whatever order
    the tasks complete: for distinct identifiers, [db] holds the records that
    are non-empty and have no [error] key, each under the text of its
    identifier and in the order of completion, [failed_ids] holds the
    identifiers of the other tasks (a record that is empty or has an [error]
    key, or an exception), and the two counts add up to the number of
    tasks. *)
Theorem collect_accounts (completed : list (Z * option record)) :
  NoDup (List.map fst completed) ->
  let result := collect completed in
  db result
  = omap (fun c => match snd c with
                   | Some data => if is_success data then Some (str_of_Z (fst c), data)
                                  else None
                   | None => None
                   end) completed
  /\ failed_ids result = List.map fst (List.filter (fun c => negb (stored c)) completed)
  /\ (length (db result) + length (failed_ids result) = length completed)%nat
  /\ NoDup (Dict.keys (db result)).
Proof.
  cbn zeta. induction completed as [|c completed IH] using rev_ind; intros Hnd.
  - repeat split. constructor.
  - rewrite map_app in Hnd. apply NoDup_app in Hnd as (Hnd & Hfresh & _).
    destruct (IH Hnd) as (Hdb & Hfail & Hlen & Hkeys). clear IH.
    rewrite collect_snoc. unfold collect_one, stored in *.
    rewrite omap_app, List.filter_app, map_app, length_app.
    destruct c as [scp_id [data|]]; cbn [fst snd] in *.
    2:{ cbn -[collect str_of_Z is_success Dict.put]. rewrite <- Hdb, <- Hfail, app_nil_r, length_app.
        cbn [length]. repeat split; try done. lia. }
    destruct (is_success data) eqn:Es; cbn -[collect str_of_Z is_success Dict.put]; rewrite Es;
      cbn -[collect str_of_Z is_success Dict.put].
    2:{ rewrite <- Hdb, <- Hfail, app_nil_r, length_app. cbn [length].
        repeat split; try done. lia. }
    assert (Dict.get (db (collect completed)) (str_of_Z scp_id) = None) as Hnew.
    { apply KeyExtras.get_absent. rewrite Hdb. unfold Dict.keys. intros Hin.
      apply list_elem_of_In, in_map_iff in Hin as ([k v] & Hk & Hin). cbn [fst] in Hk.
      apply list_elem_of_In, list_elem_of_omap in Hin as ([id' o] & Hin & Ho).
      cbn [fst snd] in Ho. destruct o as [d'|]; [|done].
      destruct (is_success d'); [|done]. injection Ho as <- <-.
      apply str_of_Z_inj in Hk. subst id'.
      apply (Hfresh scp_id); [|left].
      apply list_elem_of_In, in_map_iff. exists (scp_id, Some d'). split; [done|].
      by apply list_elem_of_In. }
    rewrite (put_absent _ _ _ Hnew). rewrite <- Hdb, <- Hfail, app_nil_r, length_app.
    cbn [length]. split; [done|]. split; [done|]. split; [lia|].
    rewrite <- (put_absent _ _ _ Hnew). by apply put_NoDup.
Qed.

Lemma collect_accounts_witness :
  let completed :=
    [ (2, Some [(K_id, VStr (u "SCP-002"))]);
      (3, Some [(K_error, VStr MSG_NO_CONTENT)]);
      (1, None) ] in
  db (collect completed) = [ (u "2", [(K_id, VStr (u "SCP-002"))]) ]
  /\ db (collect completed)
     = omap (fun c => match snd c with
                      | Some data => if is_success data then Some (str_of_Z (fst c), data)
                                     else None
                      | None => None
                      end) completed
  /\ failed_ids (collect completed)
     = List.map fst (List.filter (fun c => negb (stored c)) completed)
  /\ (length (db (collect completed)) + length (failed_ids (collect completed))
      = length completed)%nat
  /\ NoDup (Dict.keys (db (collect completed))).
Proof.
  cbn zeta. split; [vm_compute; reflexivity|].
  apply (collect_accounts
           [ (2, Some [(K_id, VStr (u "SCP-002"))]);
             (3, Some [(K_error, VStr MSG_NO_CONTENT)]);
             (1, None) ]).
  cbn [List.map fst]. repeat (apply NoDup_cons; split; [rewrite ?elem_of_cons, ?elem_of_nil; lia|]).
  apply NoDup_nil_2.
Defined.

End MainExtras.
